(** * Face-mask detection front end: capture / detect / aggregate pipeline

    A shallow embedding of [static/script_with_api.js] and
    [static/script.js].  A JavaScript number is modelled by its value, a
    rational ([Q]), and the arithmetic of the scripts by the arithmetic of
    IEEE 754 doubles on these values (module [Double]): every sum,
    difference, product and quotient is rounded to the nearest double.  Counters that
    only ever hold natural numbers are [nat].  The browser (network, random
    source, canvas text metrics, image decoding, DOM elements read by the
    scripts) is an explicit environment that the functions take as an
    argument. *)

From Stdlib Require Import QArith Qround Qminmax Qpower Lqa ZArith Lia Ascii String.
From Stdlib Require Floats.SpecFloat.
From stdpp Require Import gmap strings list pretty.

Local Open Scope string_scope.

(** ** Data model *)

Record BoundingBox := {
  x : Q;
  y : Q;
  width : Q;
  height : Q
}.

(** A detection as the scripts read it: [detection.class] is a free-form
    string, so labels other than the three known ones can occur. *)
Record Detection := {
  class : string;
  confidence : Q;
  bbox : BoundingBox
}.

(** The per-image counters [{ with_mask, without_mask,
    mask_weared_incorrect }]. *)
Record Stats := {
  with_mask : nat;
  without_mask : nat;
  mask_weared_incorrect : nat
}.

(** The aggregate [{ withMask, withoutMask, incorrectMask }]. *)
Record TotalStats := {
  withMask : nat;
  withoutMask : nat;
  incorrectMask : nat
}.

(** A decoded image: [img.width] and [img.height] in pixels. *)
Module Image.
Record t := { width : nat; height : nat }.
End Image.

(** A [File]: its name, its declared content type, and what the browser
    obtains when it decodes the bytes as an image ([None] when they do not
    decode, in which case no [load] event is ever delivered). *)
Record File := {
  name : string;
  type : string;
  decoded : option Image.t
}.

(** ** Numbers *)

Module Double.

(** [2^e] for an integer [e] of either sign. *)
Definition pow2 (e : Z) : Q := (2 ^ e)%Q.

(** For [x > 0], the integer [k] with [2^k <= x < 2^(k+1)]: the quotient of
    numerator and denominator lies strictly between [2^(k-1)] and
    [2^(k+1)] for the difference [k] of their bit lengths. *)
Definition log2_floor (x : Q) : Z :=
  let k := (Z.log2 (Qnum x) - Z.log2 (Zpos (Qden x)))%Z in
  if Qle_bool (pow2 k) x then k else (k - 1)%Z.

(** The integer nearest to [q]; of two equally near ones, the even one. *)
Definition nearest_even (q : Q) : Z :=
  let f := Qfloor q in
  match (q - inject_Z f ?= 1 # 2)%Q with
  | Lt => f
  | Eq => if Z.even f then f else (f + 1)%Z
  | Gt => (f + 1)%Z
  end.

(** The weight of the last mantissa bit of the doubles around [x > 0]:
    53 significant bits, and never less than [2^-1074], the spacing of the
    subnormal numbers. *)
Definition exponent (x : Q) : Z := Z.max (-1074) (log2_floor x - 52).

(** The double nearest to [x > 0] (ties to the even mantissa). *)
Definition round_pos (x : Q) : Q :=
  let e := exponent x in
  (inject_Z (nearest_even (x / pow2 e)) * pow2 e)%Q.

(** The double nearest to [x], as a fraction in lowest terms.  This is
    also how a decimal literal of the script, or a number in a JSON body,
    becomes a double.  A result beyond the largest finite double
    (about 1.8e308), which a script would hold as [Infinity], is outside
    the model. *)
Definition round (x : Q) : Q :=
  let x := Qred x in
  match Qnum x with
  | Z0 => 0%Q
  | Zpos _ => Qred (round_pos x)
  | Zneg _ => Qred (- round_pos (- x))
  end.

(** [x] is the value of a double. *)
Definition is_double (x : Q) : Prop := (round x == x)%Q.

(** [a + b], [a - b] and [a * b] on numbers.  The operands are read as
    doubles first, so that a decimal written as an operand stands for the
    double nearest to it, as it does in the script; on doubles this
    changes nothing. *)
Definition add (a b : Q) : Q := round (round a + round b).
Definition sub (a b : Q) : Q := round (round a - round b).
Definition mul (a b : Q) : Q := round (round a * round b).

(** [a / b] for a divisor other than zero. *)
Definition div (a b : Q) : Q := round (round a / round b).

(** The value of a finite number of the Standard Library's specification
    of IEEE 754 arithmetic. *)
Definition of_binary64 (f : SpecFloat.spec_float) : Q :=
  match f with
  | SpecFloat.S754_finite negative m e =>
      let v := (inject_Z (Zpos m) * pow2 e)%Q in
      if negative then (- v)%Q else v
  | _ => 0%Q
  end.

(** The finite doubles: [m * 2^e] with a mantissa of at most 53 bits and
    an exponent not below that of the subnormal numbers. *)
Definition representable (x : Q) : Prop :=
  exists m e : Z,
    (Z.abs m <= 2 ^ 53)%Z /\ (-1074 <= e)%Z /\ (x == inject_Z m * pow2 e)%Q.

End Double.

(** ** JavaScript helpers *)

Module JS.

(** How a promise ends: fulfilled, rejected, or never settled. *)
Inductive Outcome (A : Type) :=
| Resolved (a : A)
| Rejected (error : string)
| Pending.
Arguments Resolved {A} a.
Arguments Rejected {A} error.
Arguments Pending {A}.

(** A value read out of an object literal with string values: absent
    ([undefined]), one of the literal's strings, or something inherited
    from [Object.prototype] (a function or object: truthy, not a string). *)
Inductive Value :=
| Undefined
| Str (s : string)
| Inherited.

(** The property names every object literal inherits. *)
Definition Object_prototype : list string :=
  [ "constructor"; "__proto__"; "hasOwnProperty"; "isPrototypeOf";
    "propertyIsEnumerable"; "toLocaleString"; "toString"; "valueOf";
    "__defineGetter__"; "__defineSetter__"; "__lookupGetter__";
    "__lookupSetter__" ].

(** [o[k]] for an object literal [o]. *)
Definition get (o : gmap string string) (k : string) : Value :=
  match o !! k with
  | Some v => Str v
  | None => if bool_decide (k ∈ Object_prototype) then Inherited else Undefined
  end.

Definition truthy (v : Value) : bool :=
  match v with
  | Undefined => false
  | Str s => negb (String.eqb s EmptyString)
  | Inherited => true
  end.

(** [v || d] *)
Definition or_else (v d : Value) : Value := if truthy v then v else d.

(** [s.replace(a, b)] for one-character [a] and [b]: only the first
    occurrence is replaced. *)
Fixpoint replace (a b : Ascii.ascii) (s : string) : string :=
  match s with
  | EmptyString => EmptyString
  | String c rest =>
      if Ascii.eqb c a then String b rest else String c (replace a b rest)
  end.

(** [x.toFixed(1)] on the exact value of a number below 10^21: the integer
    [n] with [n / 10] nearest to [x] (the larger one on a tie), printed with
    one digit after the point. *)
Definition toFixed1_nonneg (x : Q) : string :=
  let n := Qfloor (x * 10 + 0.5)%Q in
  pretty (n / 10)%Z ++ "." ++ pretty (n mod 10)%Z.

Definition toFixed1 (x : Q) : string :=
  if Qle_bool 0 x then toFixed1_nonneg x else "-" ++ toFixed1_nonneg (- x).

End JS.

(** ** [Math.random] *)

Module Random.

(** The random source: the value returned by the n-th call of
    [Math.random()] since page load. *)
Definition Source := nat -> Q.

(** Computations that call [Math.random()]: they read the source and
    advance the call counter. *)
Definition M (A : Type) : Type := Source -> nat -> A * nat.

Definition ret {A} (a : A) : M A := fun _ n => (a, n).

Definition bind {A B} (m : M A) (k : A -> M B) : M B :=
  fun src n => let '(a, n') := m src n in k a src n'.

Definition random : M Q := fun src n => (src n, S n).

Definition run {A} (m : M A) (src : Source) (n : nat) : A := fst (m src n).

(** The contract of [Math.random()]: every value is a double in [0, 1). *)
Definition in_unit_interval (src : Source) : Prop :=
  forall n, Double.is_double (src n) /\ (0 <= src n)%Q /\ (src n < 1)%Q.

End Random.

#[global] Instance random_ret : MRet Random.M := @Random.ret.
#[global] Instance random_bind : MBind Random.M :=
  fun A B k m => Random.bind m k.

(** ** The 2D canvas *)

Module Canvas.

(** What a drawing call leaves on the canvas, with the context attributes
    in force when it was issued. *)
Inductive Shape :=
| DrawImage (img : Image.t) (dx dy : Q)
| DrawImageRect (img : Image.t) (sx sy sw sh dx dy dw dh : Q)
| StrokeRect (rx ry rw rh : Q) (strokeStyle : string) (lineWidth : Q)
| FillRect (rx ry rw rh : Q) (fillStyle : string)
| FillText (text : string) (tx ty : Q) (fillStyle font : string).

Record Context := {
  strokeStyle : string;
  lineWidth : Q;
  fillStyle : string;
  font : string;
  painted : list Shape
}.

(** [canvas.getContext('2d')] of a fresh canvas. *)
Definition fresh : Context :=
  {| strokeStyle := "#000000"; lineWidth := 1%Q; fillStyle := "#000000";
     font := "10px sans-serif"; painted := [] |}.

Record t := { width : Q; height : Q; ctx : Context }.

(** Assigning a number to [canvas.width] or [canvas.height].  The
    attributes are unsigned 32-bit integers: the number is truncated
    towards zero and taken modulo 2^32, and a result above 2^31 - 1 is
    replaced by the attribute's default (300 for the width, 150 for the
    height). *)
Definition dimension (default : Z) (v : Q) : Q :=
  let n := (Z.quot (Qnum v) (Zpos (Qden v)) mod 2 ^ 32)%Z in
  inject_Z (if (n <=? 2147483647)%Z then n else default).

(** Assigning to [strokeStyle] / [fillStyle]: a colour string is taken, any
    other value is ignored and the attribute keeps its value. *)
Definition style (old : string) (v : JS.Value) : string :=
  match v with
  | JS.Str s => s
  | _ => old
  end.

Definition set_strokeStyle (v : JS.Value) (c : Context) : Context :=
  {| strokeStyle := style (strokeStyle c) v; lineWidth := lineWidth c;
     fillStyle := fillStyle c; font := font c; painted := painted c |}.

Definition set_lineWidth (w : Q) (c : Context) : Context :=
  {| strokeStyle := strokeStyle c; lineWidth := w;
     fillStyle := fillStyle c; font := font c; painted := painted c |}.

Definition set_fillStyle (v : JS.Value) (c : Context) : Context :=
  {| strokeStyle := strokeStyle c; lineWidth := lineWidth c;
     fillStyle := style (fillStyle c) v; font := font c; painted := painted c |}.

Definition set_font (f : string) (c : Context) : Context :=
  {| strokeStyle := strokeStyle c; lineWidth := lineWidth c;
     fillStyle := fillStyle c; font := f; painted := painted c |}.

Definition paint (s : Shape) (c : Context) : Context :=
  {| strokeStyle := strokeStyle c; lineWidth := lineWidth c;
     fillStyle := fillStyle c; font := font c; painted := painted c ++ [s] |}.

Definition drawImage (img : Image.t) (dx dy : Q) (c : Context) : Context :=
  paint (DrawImage img dx dy) c.

Definition drawImageRect (img : Image.t) (sx sy sw sh dx dy dw dh : Q)
    (c : Context) : Context :=
  paint (DrawImageRect img sx sy sw sh dx dy dw dh) c.

Definition strokeRect (rx ry rw rh : Q) (c : Context) : Context :=
  paint (StrokeRect rx ry rw rh (strokeStyle c) (lineWidth c)) c.

Definition fillRect (rx ry rw rh : Q) (c : Context) : Context :=
  paint (FillRect rx ry rw rh (fillStyle c)) c.

Definition fillText (text : string) (tx ty : Q) (c : Context) : Context :=
  paint (FillText text tx ty (fillStyle c) (font c)) c.

(** An axis-parallel rectangle. *)
Record Rect := { left : Q; top : Q; rect_width : Q; rect_height : Q }.

(** The part of the rectangle [(rx, ry, rw, rh)] that lies inside an image:
    the rectangle clipped to the image bounds. *)
Definition clip (img : Image.t) (rx ry rw rh : Q) : Rect :=
  let W := inject_Z (Z.of_nat (Image.width img)) in
  let H := inject_Z (Z.of_nat (Image.height img)) in
  let x0 := Qmax 0 rx in
  let y0 := Qmax 0 ry in
  let x1 := Qmin W (rx + rw) in
  let y1 := Qmin H (ry + rh) in
  {| left := x0; top := y0;
     rect_width := Qmax 0 (x1 - x0); rect_height := Qmax 0 (y1 - y0) |}.

Definition has_area (r : Rect) : bool :=
  negb (Qle_bool (rect_width r) 0) && negb (Qle_bool (rect_height r) 0).

(** Where on the canvas a drawing call puts image pixels.  For the
    nine-argument [drawImage] the browser clips the source rectangle to
    the image and the destination rectangle in the same proportion, and
    paints nothing when the clipped source has no area.  Stated for
    rectangles whose width and height are not negative. *)
Definition image_pixels (s : Shape) : option Rect :=
  match s with
  | DrawImage img dx dy =>
      Some {| left := dx; top := dy;
              rect_width := inject_Z (Z.of_nat (Image.width img));
              rect_height := inject_Z (Z.of_nat (Image.height img)) |}
  | DrawImageRect img sx sy sw sh dx dy dw dh =>
      let source := clip img sx sy sw sh in
      if has_area source then
        Some {| left := dx + (left source - sx) * dw / sw;
                top := dy + (top source - sy) * dh / sh;
                rect_width := rect_width source * dw / sw;
                rect_height := rect_height source * dh / sh |}
      else None
  | _ => None
  end.

End Canvas.

(** ** The browser environment *)

(** What [fetch(API_BASE_URL + '/detect')] followed by [response.json()]
    can deliver. *)
Module Api.

(** The parsed body; every field may be missing. *)
Record Data := {
  success : option bool;
  error : option string;
  detections : option (list Detection);
  stats : option Stats;
  result_image : option string;
  total_detections : option nat
}.

Inductive Body :=
| NotJson                (* [response.json()] rejects *)
| JsonNull               (* the body is the JSON value [null] *)
| JsonScalar             (* a number, string, boolean or array: no [success] *)
| JsonObject (data : Data).

Inductive Fetch :=
| NetworkError (message : string)       (* [fetch] rejects *)
| Response (ok : bool) (status : nat) (body : Body).

End Api.

Record Browser := {
  (** [Math.random] *)
  random_source : Random.Source;
  (** [ctx.measureText(label).width] in the font [14px Arial] *)
  measureText : string -> Q;
  (** [canvas.toDataURL()] *)
  toDataURL : Canvas.t -> string;
  (** the detection service as seen through [fetch] *)
  fetch_detect : File -> Api.Fetch
}.


(** ** Drawing a detection *)

Module Annotator.

(** The [colors] literal of [drawBoundingBox]. *)
Definition colors : gmap string string :=
  <["with_mask" := "#38a169"]>
    (<["without_mask" := "#e53e3e"]>
       (<["mask_weared_incorrect" := "#d69e2e"]> ∅)).

(** The text of the label chip. *)
Definition label (detection : Detection) : string :=
  JS.replace "_"%char " "%char (class detection) ++ " "
    ++ JS.toFixed1 (Double.mul (confidence detection) 100) ++ "%".

(** [drawBoundingBox(ctx, detection)]; the function is the same, line for
    line, in script.js and in script_with_api.js. *)
Definition drawBoundingBox (b : Browser) (ctx : Canvas.Context)
    (detection : Detection) : Canvas.Context :=
  let color := JS.or_else (JS.get colors (class detection)) (JS.Str "#4a5568") in
  let box := bbox detection in
  let ctx := Canvas.set_strokeStyle color ctx in
  let ctx := Canvas.set_lineWidth 3%Q ctx in
  let ctx := Canvas.strokeRect (x box) (y box) (width box) (height box) ctx in
  let ctx := Canvas.set_font "14px Arial" ctx in
  let textWidth := measureText b (label detection) in
  let ctx := Canvas.set_fillStyle color ctx in
  let ctx :=
    Canvas.fillRect (x box) (Double.sub (y box) 25) (Double.add textWidth 10)
      25%Q ctx in
  let ctx := Canvas.set_fillStyle (JS.Str "white") ctx in
  Canvas.fillText (label detection) (Double.add (x box) 5) (Double.sub (y box) 8)
    ctx.

End Annotator.

(** ** script.js *)

Module Script.

(** [simulateYOLODetection(img)]: the body of the [for] loop, one pushed
    detection.  The six calls of [Math.random()] happen in this order.
    Reading [classes] outside its three entries would give [undefined];
    draws below 1 never do. *)
Definition simulate_one (img : Image.t) : Random.M Detection :=
  let classes := ["with_mask"; "without_mask"; "mask_weared_incorrect"] in
  let w := inject_Z (Z.of_nat (Image.width img)) in
  let h := inject_Z (Z.of_nat (Image.height img)) in
  r_class ← Random.random;
  let randomClass :=
    default "undefined"
      (classes
         !! Z.to_nat
              (Qfloor (Double.mul r_class (inject_Z (Z.of_nat (length classes)))))) in
  r_conf ← Random.random;
  r_x ← Random.random;
  r_y ← Random.random;
  r_w ← Random.random;
  r_h ← Random.random;
  mret {| class := randomClass;
          confidence := Double.add 0.5 (Double.mul r_conf 0.5);
          bbox :=
            {| x := Double.mul (Double.mul r_x w) 0.5;
               y := Double.mul (Double.mul r_y h) 0.5;
               width :=
                 Double.add (Double.mul w 0.2) (Double.mul (Double.mul r_w w) 0.3);
               height :=
                 Double.add (Double.mul h 0.2) (Double.mul (Double.mul r_h h) 0.3) |} |}.

(** The [for (let i = 0; i < numDetections; i++)] loop, [remaining]
    iterations to go, pushing onto [detections]. *)
Fixpoint simulate_loop (img : Image.t) (remaining : nat)
    (detections : list Detection) : Random.M (list Detection) :=
  match remaining with
  | O => mret detections
  | S k =>
      d ← simulate_one img;
      simulate_loop img k (detections ++ [d])
  end.

Definition simulateYOLODetection (img : Image.t) : Random.M (list Detection) :=
  r ← Random.random;
  let numDetections := (Qfloor (Double.mul r 4) + 1)%Z in
  simulate_loop img (Z.to_nat numDetections) [].

(** What [processImage] resolves with. *)
Record Result := {
  file : File;
  image : Image.t;
  detections : list Detection;
  dataUrl : string
}.

(** The [switch (detection.class)] of [calculateStats]: three cases, no
    [default]. *)
Definition count_detection (stats : TotalStats) (detection : Detection)
    : TotalStats :=
  if String.eqb (class detection) "with_mask" then
    {| withMask := S (withMask stats);
       withoutMask := withoutMask stats;
       incorrectMask := incorrectMask stats |}
  else if String.eqb (class detection) "without_mask" then
    {| withMask := withMask stats;
       withoutMask := S (withoutMask stats);
       incorrectMask := incorrectMask stats |}
  else if String.eqb (class detection) "mask_weared_incorrect" then
    {| withMask := withMask stats;
       withoutMask := withoutMask stats;
       incorrectMask := S (incorrectMask stats) |}
  else stats.

(** [calculateStats(results)]: a [forEach] over the results and, inside, a
    [forEach] over each result's detections. *)
Definition calculateStats (results : list Result) : TotalStats :=
  fold_left
    (fun stats result => fold_left count_detection (detections result) stats)
    results
    {| withMask := 0; withoutMask := 0; incorrectMask := 0 |}.

(** One [<div class=cropped-face ...>] element of the markup built by
    [createCroppedFaces]: the class suffix, the [src] and [alt] of its
    image, and the text of its confidence badge. *)
Record CroppedFace := {
  face_class : string;
  src : string;
  alt : string;
  badge : string
}.

(** The canvas [createCroppedFaces] makes for one detection:
    [canvas.width = bbox.width], [canvas.height = bbox.height], then
    [ctx.drawImage(img, bbox.x, bbox.y, bbox.width, bbox.height, 0, 0,
    bbox.width, bbox.height)]. *)
Definition crop_canvas (img : Image.t) (detection : Detection) : Canvas.t :=
  let bbox := bbox detection in
  {| Canvas.width := Canvas.dimension 300 (width bbox);
     Canvas.height := Canvas.dimension 150 (height bbox);
     Canvas.ctx :=
       Canvas.drawImageRect img (x bbox) (y bbox) (width bbox) (height bbox)
         0%Q 0%Q (width bbox) (height bbox) Canvas.fresh |}.

(** The [forEach((detection, index) => ...)] of [createCroppedFaces],
    appending to [html]. *)
Fixpoint cropped_faces_from (b : Browser) (img : Image.t) (index : nat)
    (detections : list Detection) (html : list CroppedFace) : list CroppedFace :=
  match detections with
  | [] => html
  | detection :: rest =>
      let canvas := crop_canvas img detection in
      cropped_faces_from b img (S index) rest
        (html ++
           [ {| face_class := JS.replace "_"%char "-"%char (class detection);
                src := toDataURL b canvas;
                alt := "Face " ++ pretty (index + 1);
                badge :=
                  JS.toFixed1 (Double.mul (confidence detection) 100) ++ "%" |} ])
  end.

Definition createCroppedFaces (b : Browser) (img : Image.t)
    (detections : list Detection) : list CroppedFace :=
  cropped_faces_from b img 0 detections [].

End Script.

(** ** script_with_api.js: the detection client *)

Module ScriptWithApi.

(** [simulateYOLODetection(img)], loop body.  Same shape as in script.js,
    with [0.1] where script.js has [0.2]. *)
Definition simulate_one (img : Image.t) : Random.M Detection :=
  let classes := ["with_mask"; "without_mask"; "mask_weared_incorrect"] in
  let w := inject_Z (Z.of_nat (Image.width img)) in
  let h := inject_Z (Z.of_nat (Image.height img)) in
  r_class ← Random.random;
  let randomClass :=
    default "undefined"
      (classes
         !! Z.to_nat
              (Qfloor (Double.mul r_class (inject_Z (Z.of_nat (length classes)))))) in
  r_conf ← Random.random;
  r_x ← Random.random;
  r_y ← Random.random;
  r_w ← Random.random;
  r_h ← Random.random;
  mret {| class := randomClass;
          confidence := Double.add 0.5 (Double.mul r_conf 0.5);
          bbox :=
            {| x := Double.mul (Double.mul r_x w) 0.5;
               y := Double.mul (Double.mul r_y h) 0.5;
               width :=
                 Double.add (Double.mul w 0.1) (Double.mul (Double.mul r_w w) 0.3);
               height :=
                 Double.add (Double.mul h 0.1) (Double.mul (Double.mul r_h h) 0.3) |} |}.

Fixpoint simulate_loop (img : Image.t) (remaining : nat)
    (detections : list Detection) : Random.M (list Detection) :=
  match remaining with
  | O => mret detections
  | S k =>
      d ← simulate_one img;
      simulate_loop img k (detections ++ [d])
  end.

Definition simulateYOLODetection (img : Image.t) : Random.M (list Detection) :=
  r ← Random.random;
  let numDetections := (Qfloor (Double.mul r 4) + 1)%Z in
  simulate_loop img (Z.to_nat numDetections) [].

(** The [switch (detection.class)] of [calculateStatsFromDetections]:
    three cases, no [default]. *)
Definition count_detection (stats : Stats) (detection : Detection) : Stats :=
  if String.eqb (class detection) "with_mask" then
    {| with_mask := S (with_mask stats);
       without_mask := without_mask stats;
       mask_weared_incorrect := mask_weared_incorrect stats |}
  else if String.eqb (class detection) "without_mask" then
    {| with_mask := with_mask stats;
       without_mask := S (without_mask stats);
       mask_weared_incorrect := mask_weared_incorrect stats |}
  else if String.eqb (class detection) "mask_weared_incorrect" then
    {| with_mask := with_mask stats;
       without_mask := without_mask stats;
       mask_weared_incorrect := S (mask_weared_incorrect stats) |}
  else stats.

(** [calculateStatsFromDetections(detections)]: a [forEach] mutating a
    zeroed [stats] object. *)
Definition calculateStatsFromDetections (detections : list Detection) : Stats :=
  fold_left count_detection detections
    {| with_mask := 0; without_mask := 0; mask_weared_incorrect := 0 |}.

(** The object both [processImageWithAPI] and [processImageSimulation]
    return: [{ file, detections, stats, resultImage, totalDetections }].
    On the API path the last four are copied from the response and are
    [undefined] ([None]) when the response lacks them. *)
Record DetectionResult := {
  file : File;
  detections : option (list Detection);
  stats : option Stats;
  resultImage : option string;
  totalDetections : option nat
}.

(** [processImageSimulation(file)].  The promise is resolved from inside
    [img.onload]; no [onerror] handler is installed, so for bytes that do
    not decode it never settles. *)
Definition processImageSimulation (b : Browser) (file : File)
    : Random.M (JS.Outcome DetectionResult) :=
  match decoded file with
  | None => mret JS.Pending
  | Some img =>
      detections ← simulateYOLODetection img;
      let stats := calculateStatsFromDetections detections in
      let ctx := Canvas.drawImage img 0%Q 0%Q Canvas.fresh in
      let ctx := fold_left (Annotator.drawBoundingBox b) detections ctx in
      let canvas :=
        {| Canvas.width := inject_Z (Z.of_nat (Image.width img));
           Canvas.height := inject_Z (Z.of_nat (Image.height img));
           Canvas.ctx := ctx |} in
      mret (JS.Resolved
              {| file := file;
                 detections := Some detections;
                 stats := Some stats;
                 resultImage := Some (toDataURL b canvas);
                 totalDetections := Some (length detections) |})
  end.

(** The [try] block of [processImageWithAPI]: the value it returns, or the
    message of the error that reaches the [catch]. *)
Definition try_api (b : Browser) (file : File) : string + DetectionResult :=
  match fetch_detect b file with
  | Api.NetworkError message => inl message
  | Api.Response ok status body =>
      if ok then
        match body with
        | Api.NotJson => inl "SyntaxError: Unexpected token"
        | Api.JsonNull => inl "TypeError: Cannot read properties of null"
        | Api.JsonScalar => inl "Detection failed"
        | Api.JsonObject data =>
            if default false (Api.success data) then
              inr {| file := file;
                     detections := Api.detections data;
                     stats := Api.stats data;
                     resultImage := Api.result_image data;
                     totalDetections := Api.total_detections data |}
            else
              inl (match Api.error data with
                   | Some e => if String.eqb e EmptyString then "Detection failed" else e
                   | None => "Detection failed"
                   end)
        end
      else inl ("Server error: " ++ pretty status)
  end.

(** The function declared as [processImageWithAPI]; after the script has
    run it is reachable as [originalProcessImageWithAPI]. *)
Definition originalProcessImageWithAPI (b : Browser) (file : File)
    : Random.M (JS.Outcome DetectionResult) :=
  match try_api b file with
  | inr result => mret (JS.Resolved result)
  | inl error => processImageSimulation b file
  end.

(** [performanceMetrics] *)
Record Metrics := {
  apiCalls : nat;
  apiErrors : nat;
  processingTimes : list Q;
  totalImages : nat
}.

(** [recordPerformanceMetric(type, value)] *)
Definition recordPerformanceMetric (type : string) (value : Q) (m : Metrics)
    : Metrics :=
  if String.eqb type "api_call" then
    {| apiCalls := S (apiCalls m); apiErrors := apiErrors m;
       processingTimes := processingTimes m; totalImages := totalImages m |}
  else if String.eqb type "api_error" then
    {| apiCalls := apiCalls m; apiErrors := S (apiErrors m);
       processingTimes := processingTimes m; totalImages := totalImages m |}
  else if String.eqb type "processing_time" then
    {| apiCalls := apiCalls m; apiErrors := apiErrors m;
       processingTimes := processingTimes m ++ [value];
       totalImages := totalImages m |}
  else if String.eqb type "image_processed" then
    {| apiCalls := apiCalls m; apiErrors := apiErrors m;
       processingTimes := processingTimes m; totalImages := S (totalImages m) |}
  else m.

(** The wrapper assigned to [processImageWithAPI] at the end of the
    script, which is what every caller runs.  [elapsed] is
    [performance.now()] after the call minus before it. *)
Definition processImageWithAPI (b : Browser) (elapsed : Q) (file : File)
    (m : Metrics) : Random.M (JS.Outcome DetectionResult * Metrics) :=
  let m := recordPerformanceMetric "api_call" 1%Q m in
  outcome ← originalProcessImageWithAPI b file;
  match outcome with
  | JS.Resolved result =>
      let m := recordPerformanceMetric "processing_time" elapsed m in
      let m := recordPerformanceMetric "image_processed" 1%Q m in
      mret (JS.Resolved result, m)
  | JS.Rejected error =>
      mret (JS.Rejected error, recordPerformanceMetric "api_error" 1%Q m)
  | JS.Pending => mret (JS.Pending, m)
  end.

(** ** script_with_api.js: session statistics and alerts *)

(** One call of [showAlert(message, type)]. *)
Record Alert := { message : string; kind : string }.

(** The globals and the page elements the result views read and write.
    [soundAlerts] is the checkbox [#soundAlerts]: [None] when the page has
    no such element, otherwise whether it is checked.  [alerts] lists the
    [showAlert] calls, oldest first (each call removes the badges shown
    before it, so the last one is the badge on screen); [sounds] counts
    the [playAlertSound] calls. *)
Record Page := {
  totalStats : TotalStats;
  captureCount : nat;
  soundAlerts : option bool;
  alerts : list Alert;
  sounds : nat
}.

(** State of the page right after the script has loaded. *)
Definition initial (checkbox : option bool) : Page :=
  {| totalStats := {| withMask := 0; withoutMask := 0; incorrectMask := 0 |};
     captureCount := 0; soundAlerts := checkbox; alerts := []; sounds := 0 |}.

Definition showAlert (message kind : string) (p : Page) : Page :=
  {| totalStats := totalStats p; captureCount := captureCount p;
     soundAlerts := soundAlerts p;
     alerts := alerts p ++ [ {| message := message; kind := kind |} ];
     sounds := sounds p |}.

Definition playAlertSound (p : Page) : Page :=
  {| totalStats := totalStats p; captureCount := captureCount p;
     soundAlerts := soundAlerts p; alerts := alerts p;
     sounds := S (sounds p) |}.

(** [updateTotalStats(stats)]: three [+=] on the global [totalStats]. *)
Definition updateTotalStats (stats : TotalStats) (p : Page) : Page :=
  {| totalStats :=
       {| withMask := withMask (totalStats p) + withMask stats;
          withoutMask := withoutMask (totalStats p) + withoutMask stats;
          incorrectMask := incorrectMask (totalStats p) + incorrectMask stats |};
     captureCount := captureCount p;
     soundAlerts := soundAlerts p; alerts := alerts p; sounds := sounds p |}.

(** [n || 0] on a counter. *)
Definition or_zero (n : nat) : nat :=
  match n with
  | O => 0
  | S _ => n
  end.

(** The body of the [results.forEach(result => { if (result.stats) ... })]
    that all three result views start with. *)
Definition add_result (acc : TotalStats) (result : DetectionResult) : TotalStats :=
  match stats result with
  | Some s =>
      {| withMask := withMask acc + or_zero (with_mask s);
         withoutMask := withoutMask acc + or_zero (without_mask s);
         incorrectMask := incorrectMask acc + or_zero (mask_weared_incorrect s) |}
  | None => acc
  end.

Definition batch_stats (results : list DetectionResult) : TotalStats :=
  fold_left add_result results
    {| withMask := 0; withoutMask := 0; incorrectMask := 0 |}.

(** [document.getElementById('soundAlerts')?.checked !== false] *)
Definition not_unchecked (checkbox : option bool) : bool :=
  match checkbox with
  | Some false => false
  | _ => true
  end.

(** The function declared as [displayUploadResults], later kept as
    [originalDisplayResults].  Writing the statistics grid and the result
    cards changes nothing that is modelled here. *)
Definition originalDisplayResults (results : list DetectionResult) (p : Page)
    : Page :=
  let totalStats := batch_stats results in
  let p := updateTotalStats totalStats p in
  if (0 <? withoutMask totalStats)%nat && not_unchecked (soundAlerts p) then
    let p := playAlertSound p in
    showAlert ("Warning: " ++ pretty (withoutMask totalStats)
                 ++ " person(s) detected without mask!") "warning" p
  else p.

(** [addExportButtons()] only inserts markup. *)
Definition addExportButtons (p : Page) : Page := p.

(** The wrapper assigned to [displayUploadResults] at the end of the
    script; [processFiles] calls this one. *)
Definition displayUploadResults (results : list DetectionResult) (p : Page)
    : Page :=
  addExportButtons (originalDisplayResults results p).

(** [displayCameraResults(results)] *)
Definition displayCameraResults (results : list DetectionResult) (p : Page)
    : Page :=
  let totalStats := batch_stats results in
  let p := updateTotalStats totalStats p in
  if (0 <? withoutMask totalStats)%nat then
    let p := if not_unchecked (soundAlerts p) then playAlertSound p else p in
    showAlert ("Warning: " ++ pretty (withoutMask totalStats)
                 ++ " person(s) without mask detected!") "warning" p
  else p.

(** How a function body ends: normally, or by an uncaught exception; both
    carry the page as the body left it. *)
Inductive Completion :=
| Normal (p : Page)
| Throw (error : string) (p : Page).

Definition page_of (c : Completion) : Page :=
  match c with
  | Normal p => p
  | Throw _ p => p
  end.

(** [displayMonitoringResults(results)]; [now] is
    [new Date().toLocaleTimeString()].  The checkbox is read without
    [?.], so a page without it makes the read throw. *)
Definition displayMonitoringResults (now : string)
    (results : list DetectionResult) (p : Page) : Completion :=
  let sessionStats := batch_stats results in
  let p := updateTotalStats sessionStats p in
  if (0 <? withoutMask sessionStats)%nat then
    match soundAlerts p with
    | None => Throw "TypeError: Cannot read properties of null" p
    | Some checked =>
        let p := if checked then playAlertSound p else p in
        Normal (showAlert ("Monitoring Alert: " ++ pretty (withoutMask sessionStats)
                             ++ " person(s) without mask detected at " ++ now ++ "!")
                  "warning" p)
    end
  else Normal p.

(** The [canvas.toBlob] callback of [captureMonitoringPhoto], from the
    point where [processImageWithAPI] has delivered [result]. *)
Definition captureMonitoringPhoto_callback (now : string)
    (result : DetectionResult) (p : Page) : Completion :=
  let p :=
    {| totalStats := totalStats p; captureCount := S (captureCount p);
       soundAlerts := soundAlerts p; alerts := alerts p; sounds := sounds p |} in
  displayMonitoringResults now [result] p.

(** The [canvas.toBlob] callback of [capturePhoto], from the point where
    [processImageWithAPI] has delivered [result]. *)
Definition capturePhoto_callback (result : DetectionResult) (p : Page) : Page :=
  let p := displayCameraResults [result] p in
  showAlert "Photo captured and processed" "success" p.

End ScriptWithApi.

(** ** The monitoring scheduler

    [startMonitoring], [stopMonitoring], [scheduleNextCapture] and
    [captureMonitoringPhoto] read the same in both scripts.  Time advances
    in whole seconds: [setInterval(updateCountdown, 1000)] fires once per
    tick and [setTimeout(..., 2000)] two ticks after it was set. *)

Module Monitoring.

Import ScriptWithApi.

(** The variables an [updateCountdown] arrow function closes over. *)
Record Closure := { countdown : Z; intervalSeconds : Z }.

(** [intervals] holds the live [setInterval] timers by handle (handles are
    positive, as in browsers, so a stored handle is always truthy); [timeouts]
    the pending [setTimeout(() => scheduleNextCapture(intervalSeconds),
    2000)] calls with the ticks left and the argument; [captures] the times
    at which [captureMonitoringPhoto] grabbed a frame; [in_flight] the
    frames whose detection has not come back yet. *)
Record State := {
  monitoringActive : bool;
  monitoringCountdown : option nat;
  intervals : gmap nat Closure;
  timeouts : list (nat * Z);
  next_handle : nat;
  nextCaptureTime : string;
  clock : nat;
  captures : list nat;
  in_flight : nat;
  page : Page
}.

Definition initial (checkbox : option bool) : State :=
  {| monitoringActive := false; monitoringCountdown := None;
     intervals := ∅; timeouts := []; next_handle := 1;
     nextCaptureTime := "-"; clock := 0; captures := []; in_flight := 0;
     page := ScriptWithApi.initial checkbox |}.

Definition set_active (a : bool) (s : State) : State :=
  {| monitoringActive := a; monitoringCountdown := monitoringCountdown s;
     intervals := intervals s; timeouts := timeouts s;
     next_handle := next_handle s; nextCaptureTime := nextCaptureTime s;
     clock := clock s; captures := captures s; in_flight := in_flight s;
     page := page s |}.

Definition set_timers (h : option nat) (i : gmap nat Closure)
    (t : list (nat * Z)) (n : nat) (s : State) : State :=
  {| monitoringActive := monitoringActive s; monitoringCountdown := h;
     intervals := i; timeouts := t; next_handle := n;
     nextCaptureTime := nextCaptureTime s;
     clock := clock s; captures := captures s; in_flight := in_flight s;
     page := page s |}.

Definition set_display (text : string) (s : State) : State :=
  {| monitoringActive := monitoringActive s;
     monitoringCountdown := monitoringCountdown s;
     intervals := intervals s; timeouts := timeouts s;
     next_handle := next_handle s; nextCaptureTime := text;
     clock := clock s; captures := captures s; in_flight := in_flight s;
     page := page s |}.

Definition set_page (p : Page) (s : State) : State :=
  {| monitoringActive := monitoringActive s;
     monitoringCountdown := monitoringCountdown s;
     intervals := intervals s; timeouts := timeouts s;
     next_handle := next_handle s; nextCaptureTime := nextCaptureTime s;
     clock := clock s; captures := captures s; in_flight := in_flight s;
     page := p |}.

(** [clearInterval(handle)] *)
Definition clearInterval (handle : option nat) (s : State) : State :=
  match handle with
  | Some h =>
      set_timers (monitoringCountdown s) (delete h (intervals s))
        (timeouts s) (next_handle s) s
  | None => s
  end.

(** [captureMonitoringPhoto()] up to the point where the frame is handed
    to [canvas.toBlob]; the rest runs when the detection comes back. *)
Definition captureMonitoringPhoto (s : State) : State :=
  if negb (monitoringActive s) then s
  else
    {| monitoringActive := monitoringActive s;
       monitoringCountdown := monitoringCountdown s;
       intervals := intervals s; timeouts := timeouts s;
       next_handle := next_handle s; nextCaptureTime := nextCaptureTime s;
       clock := clock s; captures := captures s ++ [clock s];
       in_flight := S (in_flight s); page := page s |}.

(** One run of the arrow function [updateCountdown]; returns its closure
    variables as it leaves them. *)
Definition updateCountdown (c : Closure) (s : State) : Closure * State :=
  if negb (monitoringActive s) then (c, s)
  else
    let s :=
      set_display
        (if (0 <? countdown c)%Z then pretty (countdown c) ++ "s"
         else "Capturing...") s in
    if (countdown c <=? 0)%Z then
      let s := clearInterval (monitoringCountdown s) s in
      let s := captureMonitoringPhoto s in
      let s :=
        set_timers (monitoringCountdown s) (intervals s)
          (timeouts s ++ [(2, intervalSeconds c)]) (next_handle s) s in
      (c, s)
    else
      ({| countdown := countdown c - 1; intervalSeconds := intervalSeconds c |}, s).

(** [scheduleNextCapture(intervalSeconds)] *)
Definition scheduleNextCapture (seconds : Z) (s : State) : State :=
  if negb (monitoringActive s) then s
  else
    let c := {| countdown := seconds; intervalSeconds := seconds |} in
    let '(c, s) := updateCountdown c s in
    let h := next_handle s in
    set_timers (Some h) (<[h := c]> (intervals s)) (timeouts s) (S h) s.

(** [startMonitoring()]; [camera] tells whether [getUserMedia] granted a
    stream and [seconds] is [parseInt] of the selected interval. *)
Definition startMonitoring (camera : bool) (seconds : Z) (s : State) : State :=
  if monitoringActive s then s
  else if camera then
    let s := set_active true s in
    let p := page s in
    let s :=
      set_page {| totalStats := totalStats p; captureCount := 0;
                  soundAlerts := soundAlerts p; alerts := alerts p;
                  sounds := sounds p |} s in
    let s := scheduleNextCapture seconds s in
    set_page (showAlert "Automatic monitoring started" "success" (page s)) s
  else
    let s :=
      set_page (showAlert "Error starting monitoring: Permission denied"
                  "error" (page s)) s in
    set_active false s.

(** [stopMonitoring()]; [monitoringInterval] is never assigned, so only
    the countdown timer is cleared. *)
Definition stopMonitoring (s : State) : State :=
  let s := set_active false s in
  let s :=
    match monitoringCountdown s with
    | Some h =>
        let s := clearInterval (Some h) s in
        set_timers None (intervals s) (timeouts s) (next_handle s) s
    | None => s
    end in
  let s := set_display "-" s in
  set_page (showAlert "Monitoring stopped" "info" (page s)) s.

(** The timer with handle [h] fires, if it is still live. *)
Definition fire_interval (s : State) (h : nat) : State :=
  match intervals s !! h with
  | None => s
  | Some c =>
      let '(c, s) := updateCountdown c s in
      match intervals s !! h with
      | None => s
      | Some _ =>
          set_timers (monitoringCountdown s) (<[h := c]> (intervals s))
            (timeouts s) (next_handle s) s
      end
  end.

(** One second passes: the timeouts that are due run first (they were set
    two seconds ago), then the interval timers that were already running,
    in the order they were created. *)
Definition tick (s : State) : State :=
  let running := seq 0 (next_handle s) in
  let due := filter (fun t => fst t <=? 1)%nat (timeouts s) in
  let later :=
    map (fun t => (fst t - 1, snd t))
      (filter (fun t => negb (fst t <=? 1)%nat) (timeouts s)) in
  let s :=
    {| monitoringActive := monitoringActive s;
       monitoringCountdown := monitoringCountdown s;
       intervals := intervals s; timeouts := later;
       next_handle := next_handle s; nextCaptureTime := nextCaptureTime s;
       clock := S (clock s); captures := captures s;
       in_flight := in_flight s; page := page s |} in
  let s := fold_left (fun s t => scheduleNextCapture (snd t) s) due s in
  fold_left fire_interval running s.

(** The detection of a grabbed frame comes back with [result]. *)
Definition complete (now : string) (result : DetectionResult) (s : State)
    : State :=
  match in_flight s with
  | O => s
  | S n =>
      let p := page_of (captureMonitoringPhoto_callback now result (page s)) in
      {| monitoringActive := monitoringActive s;
         monitoringCountdown := monitoringCountdown s;
         intervals := intervals s; timeouts := timeouts s;
         next_handle := next_handle s; nextCaptureTime := nextCaptureTime s;
         clock := clock s; captures := captures s; in_flight := n;
         page := p |}
  end.

Inductive Event :=
| Start (camera : bool) (seconds : Z)
| Stop
| Tick
| Completed (now : string) (result : DetectionResult).

Definition step (s : State) (e : Event) : State :=
  match e with
  | Start camera seconds => startMonitoring camera seconds s
  | Stop => stopMonitoring s
  | Tick => tick s
  | Completed now result => complete now result s
  end.

Definition run (events : list Event) (s : State) : State :=
  fold_left step events s.

(** [n] consecutive ticks. *)
Definition ticks (n : nat) : list Event := repeat Tick n.

End Monitoring.

(** ** script_with_api.js: exporting the session *)

Module Exporter.

Import ScriptWithApi.

Definition quote_char : string := String (ascii_of_nat 34) EmptyString.
Definition newline : string := String (ascii_of_nat 10) EmptyString.

(** A JSON string literal (for text that needs no escaping). *)
Definition quoted (s : string) : string := quote_char ++ s ++ quote_char.

(** [s.split(c)[0]] *)
Fixpoint before (c : Ascii.ascii) (s : string) : string :=
  match s with
  | EmptyString => EmptyString
  | String a rest => if Ascii.eqb a c then EmptyString else String a (before c rest)
  end.

(** The [results] object of [downloadResults]. *)
Record Results := {
  timestamp : string;
  r_totalStats : TotalStats;
  r_captureCount : nat;
  monitoringInterval : string;
  r_soundAlerts : bool
}.

(** [JSON.stringify(results, null, 2)] *)
Definition stringify (r : Results) : string :=
  "{" ++ newline
  ++ "  " ++ quoted "timestamp" ++ ": " ++ quoted (timestamp r) ++ "," ++ newline
  ++ "  " ++ quoted "totalStats" ++ ": {" ++ newline
  ++ "    " ++ quoted "withMask" ++ ": " ++ pretty (withMask (r_totalStats r)) ++ "," ++ newline
  ++ "    " ++ quoted "withoutMask" ++ ": " ++ pretty (withoutMask (r_totalStats r)) ++ "," ++ newline
  ++ "    " ++ quoted "incorrectMask" ++ ": " ++ pretty (incorrectMask (r_totalStats r)) ++ newline
  ++ "  }," ++ newline
  ++ "  " ++ quoted "captureCount" ++ ": " ++ pretty (r_captureCount r) ++ "," ++ newline
  ++ "  " ++ quoted "settings" ++ ": {" ++ newline
  ++ "    " ++ quoted "monitoringInterval" ++ ": " ++ quoted (monitoringInterval r) ++ "," ++ newline
  ++ "    " ++ quoted "soundAlerts" ++ ": " ++ (if r_soundAlerts r then "true" else "false") ++ newline
  ++ "  }" ++ newline
  ++ "}".

(** What the function does to the outside world, in order. *)
Inductive Effect :=
| NewBlob (part : option string) (type : option string)
| CreateObjectURL
| SetHref
| SetDownload (filename : option string)
| AppendAnchor
| Click
| RemoveAnchor
| RevokeObjectURL
| ShowAlert (message kind : string).

(** An [undefined] value inside a template literal. *)
Definition interpolate (v : option string) : string := default "undefined" v.

(** [downloadResults(format = 'json')].  [format] is [None] when the
    argument is omitted; [now] is [new Date().toISOString()];
    [intervalSelect] is the value of [#intervalSelect] if the page has
    that element.  The result is the error thrown, or the effects. *)
Definition downloadResults (format : option string) (now : string)
    (intervalSelect : option string) (p : Page) : string + list Effect :=
  let format := default "json" format in
  match intervalSelect, soundAlerts p with
  | None, _ | _, None => inl "TypeError: Cannot read properties of null"
  | Some interval, Some checked =>
      let results :=
        {| timestamp := now; r_totalStats := totalStats p;
           r_captureCount := captureCount p;
           monitoringInterval := interval; r_soundAlerts := checked |} in
      let '(content, filename, mimeType) :=
        if String.eqb format "json" then
          (Some (stringify results),
           Some ("mask_detection_results_" ++ before "T" now ++ ".json"),
           Some "application/json")
        else if String.eqb format "csv" then
          (Some ("Timestamp,With Mask,Without Mask,Incorrect Mask,Total Captures"
                   ++ newline
                   ++ timestamp results ++ ","
                   ++ pretty (withMask (r_totalStats results)) ++ ","
                   ++ pretty (withoutMask (r_totalStats results)) ++ ","
                   ++ pretty (incorrectMask (r_totalStats results)) ++ ","
                   ++ pretty (r_captureCount results)),
           Some ("mask_detection_results_" ++ before "T" now ++ ".csv"),
           Some "text/csv")
        else (None, None, None) in
      inr [ NewBlob content mimeType; CreateObjectURL; SetHref;
            SetDownload filename; AppendAnchor; Click; RemoveAnchor;
            RevokeObjectURL;
            ShowAlert ("Results exported as " ++ interpolate filename) "success" ]
  end.

End Exporter.

(** ** Notions used to state the properties *)

Module Claims.

(** The three labels the model is trained on. *)
Definition known_class (c : string) : bool :=
  String.eqb c "with_mask" || String.eqb c "without_mask"
  || String.eqb c "mask_weared_incorrect".

(** Number of detections carrying exactly the label [c]. *)
Definition count_class (c : string) (D : list Detection) : nat :=
  length (filter (fun d => String.eqb (class d) c = true) D).

(** Number of detections whose label is none of the three. *)
Definition unknownCount (D : list Detection) : nat :=
  length (filter (fun d => known_class (class d) = false) D).

(** All detections of a batch of script.js results, in order. *)
Definition all_detections (results : list Script.Result) : list Detection :=
  concat (map Script.detections results).

(** The detections whose label is one of the three, in order. *)
Definition known_only (D : list Detection) : list Detection :=
  filter (fun d => known_class (class d) = true) D.

(** A script.js result without its detections of unknown label. *)
Definition known_detections (r : Script.Result) : Script.Result :=
  {| Script.file := Script.file r; Script.image := Script.image r;
     Script.detections := known_only (Script.detections r);
     Script.dataUrl := Script.dataUrl r |}.

(** Field-wise sum of two aggregates. *)
Definition add_stats (a b : TotalStats) : TotalStats :=
  {| withMask := withMask a + withMask b;
     withoutMask := withoutMask a + withoutMask b;
     incorrectMask := incorrectMask a + incorrectMask b |}.

(** A two-detection answer of the detection service: one person with a
    mask, one without. *)
Definition sample_file : File :=
  {| name := "group.jpg"; type := "image/jpeg";
     decoded := Some {| Image.width := 640; Image.height := 480 |} |}.

Definition sample_detections : list Detection :=
  [ {| class := "with_mask"; confidence := 0.95%Q;
       bbox := {| x := 10%Q; y := 10%Q; width := 50%Q; height := 60%Q |} |};
    {| class := "without_mask"; confidence := 0.80%Q;
       bbox := {| x := 100%Q; y := 20%Q; width := 40%Q; height := 50%Q |} |} ].

Definition sample_result : ScriptWithApi.DetectionResult :=
  {| ScriptWithApi.file := sample_file;
     ScriptWithApi.detections := Some sample_detections;
     ScriptWithApi.stats :=
       Some {| with_mask := 1; without_mask := 1; mask_weared_incorrect := 0 |};
     ScriptWithApi.resultImage := Some "data:image/jpeg;base64,/9j/4AAQ";
     ScriptWithApi.totalDetections := Some 2 |}.

(** The warning each result view shows for [n] unmasked persons. *)
Definition upload_warning (n : nat) : ScriptWithApi.Alert :=
  {| ScriptWithApi.message :=
       "Warning: " ++ pretty n ++ " person(s) detected without mask!";
     ScriptWithApi.kind := "warning" |}.

Definition camera_warning (n : nat) : ScriptWithApi.Alert :=
  {| ScriptWithApi.message :=
       "Warning: " ++ pretty n ++ " person(s) without mask detected!";
     ScriptWithApi.kind := "warning" |}.

Definition monitoring_warning (n : nat) (now : string) : ScriptWithApi.Alert :=
  {| ScriptWithApi.message :=
       "Monitoring Alert: " ++ pretty n
         ++ " person(s) without mask detected at " ++ now ++ "!";
     ScriptWithApi.kind := "warning" |}.

(** The class a draw [r] of [Math.random()] selects when the unit interval
    is cut in three equal parts. *)
Definition class_of_draw (r : Q) : string :=
  if Qle_bool (1 # 3) r then
    if Qle_bool (2 # 3) r then "mask_weared_incorrect" else "without_mask"
  else "with_mask".

(** Pairs of doubles, as mantissa and exponent, on which the operations
    of [Double] are compared with those of the Standard Library's
    binary64: 0.7005 and 100, 43 and 0.1, 0x1.5555555555555p-1 and 3,
    0.9 and 100, 90 and 0.3, 20 and 27, the largest double below 1 and
    0.5, 0.5 and the largest double below it, 100 and -25, the smallest
    positive double and 0.5, 0.1 and 0.3, 640 and 0.1. *)
Definition binary64 (negative : bool) (m : positive) (e : Z)
    : SpecFloat.spec_float :=
  SpecFloat.S754_finite negative m e.

Definition binary64_samples : list (SpecFloat.spec_float * SpecFloat.spec_float) :=
  [ (binary64 false 6309543077946065 (-53), binary64 false 7036874417766400 (-46));
    (binary64 false 6051711999279104 (-47), binary64 false 7205759403792794 (-56));
    (binary64 false 6004799503160661 (-53), binary64 false 6755399441055744 (-51));
    (binary64 false 8106479329266893 (-53), binary64 false 7036874417766400 (-46));
    (binary64 false 6333186975989760 (-46), binary64 false 5404319552844595 (-54));
    (binary64 false 5629499534213120 (-48), binary64 false 7599824371187712 (-48));
    (binary64 false 9007199254740991 (-53), binary64 false 4503599627370496 (-53));
    (binary64 false 4503599627370496 (-53), binary64 false 9007199254740991 (-54));
    (binary64 false 7036874417766400 (-46), binary64 true 7036874417766400 (-48));
    (binary64 false 1 (-1074), binary64 false 4503599627370496 (-53));
    (binary64 false 7205759403792794 (-56), binary64 false 5404319552844595 (-54));
    (binary64 false 5629499534213120 (-43), binary64 false 7205759403792794 (-56)) ].

(** The relative error allowed to a size that took three roundings to
    compute. *)
Definition slack : Q := Double.pow2 (-51).

(** Bounds on a fabricated detection for an image: a known class, a
    confidence in [0.5, 1], a corner in the upper-left half of each axis
    (hence within three quarters of it), and a width and height between
    [lo] and [hi] times the image's, up to the rounding error. *)
Definition within (lo hi : Q) (img : Image.t) (d : Detection) : Prop :=
  let W := inject_Z (Z.of_nat (Image.width img)) in
  let H := inject_Z (Z.of_nat (Image.height img)) in
  known_class (class d) = true
  /\ (0.5 <= confidence d)%Q /\ (confidence d <= 1)%Q
  /\ (0 <= x (bbox d))%Q /\ (x (bbox d) <= 0.5 * W)%Q /\ (x (bbox d) <= 0.75 * W)%Q
  /\ (0 <= y (bbox d))%Q /\ (y (bbox d) <= 0.5 * H)%Q /\ (y (bbox d) <= 0.75 * H)%Q
  /\ (lo * W * (1 - slack) <= width (bbox d))%Q
  /\ (width (bbox d) <= hi * W * (1 + slack))%Q
  /\ (lo * H * (1 - slack) <= height (bbox d))%Q
  /\ (height (bbox d) <= hi * H * (1 + slack))%Q.

(** The image has the size of a browser image: [img.width] and
    [img.height] are unsigned 32-bit integers. *)
Definition sized (img : Image.t) : Prop :=
  (Z.of_nat (Image.width img) < 2 ^ 32)%Z
  /\ (Z.of_nat (Image.height img) < 2 ^ 32)%Z.

(** The detection service call fails: the request does not get through,
    the status is not a success status, the body is not a JSON object, or
    the object does not say [success: true]. *)
Definition service_fails (b : Browser) (file : File) : bool :=
  match fetch_detect b file with
  | Api.NetworkError _ => true
  | Api.Response ok _ body =>
      negb ok
      || match body with
         | Api.JsonObject data => negb (default false (Api.success data))
         | _ => true
         end
  end.

(** What a caller of [processImageWithAPI] gets back, when [calls] calls of
    [Math.random()] have been made before. *)
Definition detect (b : Browser) (elapsed : Q) (m : ScriptWithApi.Metrics)
    (calls : nat) (file : File) : JS.Outcome ScriptWithApi.DetectionResult :=
  fst (Random.run (ScriptWithApi.processImageWithAPI b elapsed file m)
         (random_source b) calls).

(** What the local synthetic path alone produces. *)
Definition fallback (b : Browser) (calls : nat) (file : File)
    : JS.Outcome ScriptWithApi.DetectionResult :=
  Random.run (ScriptWithApi.processImageSimulation b file) (random_source b) calls.

Definition no_metrics : ScriptWithApi.Metrics :=
  {| ScriptWithApi.apiCalls := 0; ScriptWithApi.apiErrors := 0;
     ScriptWithApi.processingTimes := []; ScriptWithApi.totalImages := 0 |}.

(** A browser that cannot reach the detection service. *)
Definition offline : Browser :=
  {| random_source := fun _ => 0.5%Q;
     measureText := fun text => inject_Z (7 * Z.of_nat (String.length text));
     toDataURL := fun _ => "data:image/png;base64,iVBORw0KGgo=";
     fetch_detect := fun _ => Api.NetworkError "Failed to fetch" |}.

(** A browser whose detection service answers 200 with [data]. *)
Definition answering (data : Api.Data) : Browser :=
  {| random_source := random_source offline;
     measureText := measureText offline;
     toDataURL := toDataURL offline;
     fetch_detect := fun _ => Api.Response true 200 (Api.JsonObject data) |}.

(** The answer [{ success: true }] and nothing else. *)
Definition success_only : Api.Data :=
  {| Api.success := Some true; Api.error := None; Api.detections := None;
     Api.stats := None; Api.result_image := None;
     Api.total_detections := None |}.

(** A successful answer carrying the contents of [r]. *)
Definition echo (r : ScriptWithApi.DetectionResult) : Api.Data :=
  {| Api.success := Some true; Api.error := None;
     Api.detections := ScriptWithApi.detections r;
     Api.stats := ScriptWithApi.stats r;
     Api.result_image := ScriptWithApi.resultImage r;
     Api.total_detections := ScriptWithApi.totalDetections r |}.

(** The result the offline browser's fallback produces for the sample
    file. *)
Definition synthetic_result : ScriptWithApi.DetectionResult :=
  match fallback offline 0 sample_file with
  | JS.Resolved r => r
  | _ => sample_result
  end.

(** Scheduler states met while monitoring runs.  [counting]: the timer
    with handle [h] is live and its closure holds [c]; [waiting]: a
    capture has just been made and the two-second timeout has [left] ticks
    to go; [stopped]: no timer is left. *)
Definition counting (seconds : Z) (h : nat) (c : Z) (t : nat) (text : string)
    (cs : list nat) (f : nat) (p : ScriptWithApi.Page) : Monitoring.State :=
  {| Monitoring.monitoringActive := true;
     Monitoring.monitoringCountdown := Some h;
     Monitoring.intervals :=
       {[ h := {| Monitoring.countdown := c;
                  Monitoring.intervalSeconds := seconds |} ]};
     Monitoring.timeouts := [];
     Monitoring.next_handle := S h;
     Monitoring.nextCaptureTime := text;
     Monitoring.clock := t;
     Monitoring.captures := cs;
     Monitoring.in_flight := f;
     Monitoring.page := p |}.

Definition waiting (seconds : Z) (h : nat) (left : nat) (t : nat)
    (cs : list nat) (f : nat) (p : ScriptWithApi.Page) : Monitoring.State :=
  {| Monitoring.monitoringActive := true;
     Monitoring.monitoringCountdown := Some h;
     Monitoring.intervals := ∅;
     Monitoring.timeouts := [(left, seconds)];
     Monitoring.next_handle := S h;
     Monitoring.nextCaptureTime := "Capturing...";
     Monitoring.clock := t;
     Monitoring.captures := cs;
     Monitoring.in_flight := f;
     Monitoring.page := p |}.

Definition stopped (n : nat) (t : nat) (cs : list nat) (f : nat)
    (p : ScriptWithApi.Page) : Monitoring.State :=
  {| Monitoring.monitoringActive := false;
     Monitoring.monitoringCountdown := None;
     Monitoring.intervals := ∅;
     Monitoring.timeouts := [];
     Monitoring.next_handle := n;
     Monitoring.nextCaptureTime := "-";
     Monitoring.clock := t;
     Monitoring.captures := cs;
     Monitoring.in_flight := f;
     Monitoring.page := p |}.

(** The page after a successful start. *)
Definition started_page (checkbox : option bool) : ScriptWithApi.Page :=
  ScriptWithApi.showAlert "Automatic monitoring started" "success"
    (ScriptWithApi.initial checkbox).

(** The colour the annotator is meant to use for a class. *)
Definition class_color (c : string) : string :=
  if String.eqb c "with_mask" then "#38a169"
  else if String.eqb c "without_mask" then "#e53e3e"
  else if String.eqb c "mask_weared_incorrect" then "#d69e2e"
  else "#4a5568".

(** The lower edge of a filled rectangle. *)
Definition bottom_edge (s : Canvas.Shape) : option Q :=
  match s with
  | Canvas.FillRect _ ry _ rh _ => Some (ry + rh)%Q
  | _ => None
  end.

(** The single drawing call [crop_canvas] issues for a detection. *)
Definition crop_call (img : Image.t) (d : Detection) : Canvas.Shape :=
  Canvas.DrawImageRect img (x (bbox d)) (y (bbox d)) (width (bbox d))
    (height (bbox d)) 0%Q 0%Q (width (bbox d)) (height (bbox d)).

(** A fresh drawing context on which one shape has been painted. *)
Definition painted_once (shape : Canvas.Shape) : Canvas.Context :=
  {| Canvas.strokeStyle := "#000000"; Canvas.lineWidth := 1%Q;
     Canvas.fillStyle := "#000000"; Canvas.font := "10px sans-serif";
     Canvas.painted := [shape] |}.

(** The face [createCroppedFaces] is to produce for the detection at
    position [index]. *)
Definition face (b : Browser) (img : Image.t) (index : nat) (d : Detection)
    : Script.CroppedFace :=
  {| Script.face_class := JS.replace "_" "-" (class d);
     Script.src :=
       toDataURL b
         {| Canvas.width := Canvas.dimension 300 (width (bbox d));
            Canvas.height := Canvas.dimension 150 (height (bbox d));
            Canvas.ctx := painted_once (crop_call img d) |};
     Script.alt := "Face " ++ pretty (index + 1);
     Script.badge := JS.toFixed1 (Double.mul (confidence d) 100) ++ "%" |}.

Definition square_image : Image.t := {| Image.width := 100; Image.height := 100 |}.

Definition box_at (bx by_ bw bh : Q) : Detection :=
  {| class := "with_mask"; confidence := 0.95%Q;
     bbox := {| x := bx; y := by_; width := bw; height := bh |} |}.

(** A masked face at (10, 100) reported with the confidence 0.7005. *)
Definition borderline : Detection :=
  {| class := "with_mask"; confidence := 0.7005%Q;
     bbox := {| x := 10%Q; y := 100%Q; width := 50%Q; height := 60%Q |} |}.

End Claims.

(** ** script_with_api.js: the upload pipeline *)

Module Upload.

Import ScriptWithApi.

(** [s.startsWith(p)] *)
Fixpoint startsWith (p s : string) : bool :=
  match p with
  | EmptyString => true
  | String a p' =>
      match s with
      | EmptyString => false
      | String c s' => Ascii.eqb a c && startsWith p' s'
      end
  end.

(** The filter of [processFiles]: [file.type.startsWith('image/')]. *)
Definition is_image (file : File) : bool := startsWith "image/" (type file).

(** What [processFiles] works on: the page, the loading overlay, the
    performance counters, and how many [Math.random()] calls have been
    made. *)
Record State := {
  page : Page;
  loading : bool;
  metrics : Metrics;
  calls : nat
}.

Definition showLoading (show : bool) (st : State) : State :=
  {| page := page st; loading := show; metrics := metrics st; calls := calls st |}.

Definition on_page (f : Page -> Page) (st : State) : State :=
  {| page := f (page st); loading := loading st; metrics := metrics st;
     calls := calls st |}.

(** How far an [async] function gets: to its end, or to an [await] on a
    promise that never settles. *)
Inductive Progress (A : Type) :=
| Finished (a : A)
| Hung (a : A).
Arguments Finished {A} a.
Arguments Hung {A} a.

(** The [for (const file of validFiles)] loop of [processFiles].  [elapsed]
    gives the measured duration of each call of [processImageWithAPI], by
    the number of calls made before it. *)
Fixpoint process_loop (b : Browser) (elapsed : nat -> Q) (validFiles : list File)
    (results : list DetectionResult) (st : State)
    : Progress (list DetectionResult * State) :=
  match validFiles with
  | [] => Finished (results, st)
  | file :: rest =>
      let '((outcome, m), n) :=
        processImageWithAPI b (elapsed (apiCalls (metrics st))) file (metrics st)
          (random_source b) (calls st) in
      let st := {| page := page st; loading := loading st; metrics := m; calls := n |} in
      match outcome with
      | JS.Resolved result => process_loop b elapsed rest (results ++ [result]) st
      | JS.Rejected error =>
          process_loop b elapsed rest results
            (on_page (showAlert ("Error processing " ++ name file) "error") st)
      | JS.Pending => Hung (results, st)
      end
  end.

(** [processFiles(files)] *)
Definition processFiles (b : Browser) (elapsed : nat -> Q) (files : list File)
    (st : State) : Progress State :=
  match files with
  | [] => Finished st
  | _ =>
      let st := showLoading true st in
      let validFiles := List.filter is_image files in
      match validFiles with
      | [] =>
          let st :=
            on_page (showAlert "Please select valid image files (JPG, PNG, JPEG)"
                       "error") st in
          Finished (showLoading false st)
      | _ =>
          match process_loop b elapsed validFiles [] st with
          | Hung (_, st) => Hung st
          | Finished (results, st) =>
              let st :=
                match results with
                | [] => st
                | _ => on_page (displayUploadResults results) st
                end in
              Finished (showLoading false st)
          end
      end
  end.

(** The switch inside [createImageResultElement], used when a result has
    detections but no [stats]. *)
Definition count_detection (counts : TotalStats) (detection : Detection)
    : TotalStats :=
  if String.eqb (class detection) "with_mask" then
    {| withMask := S (withMask counts);
       withoutMask := withoutMask counts;
       incorrectMask := incorrectMask counts |}
  else if String.eqb (class detection) "without_mask" then
    {| withMask := withMask counts;
       withoutMask := S (withoutMask counts);
       incorrectMask := incorrectMask counts |}
  else if String.eqb (class detection) "mask_weared_incorrect" then
    {| withMask := withMask counts;
       withoutMask := withoutMask counts;
       incorrectMask := S (incorrectMask counts) |}
  else counts.

(** The [counts] object of [createImageResultElement(result, id)]. *)
Definition card_counts (result : DetectionResult) : TotalStats :=
  let zero := {| withMask := 0; withoutMask := 0; incorrectMask := 0 |} in
  match stats result with
  | Some s =>
      {| withMask := or_zero (with_mask s);
         withoutMask := or_zero (without_mask s);
         incorrectMask := or_zero (mask_weared_incorrect s) |}
  | None =>
      match detections result with
      | Some D => fold_left count_detection D zero
      | None => zero
      end
  end.

(** The badges in the card's [detection-stats] row. *)
Definition card_badges (result : DetectionResult) : list string :=
  let counts := card_counts result in
  (if (0 <? withMask counts)%nat
   then [pretty (withMask counts) ++ " With Mask"] else [])
  ++ (if (0 <? withoutMask counts)%nat
      then [pretty (withoutMask counts) ++ " Without Mask"] else [])
  ++ (if (0 <? incorrectMask counts)%nat
      then [pretty (incorrectMask counts) ++ " Incorrect"] else []).

End Upload.

(** ** script_with_api.js: the performance report *)

Module Performance.

Import ScriptWithApi.

(** [x.toFixed(2)] on the exact value of a number below 10^21. *)
Definition toFixed2_nonneg (x : Q) : string :=
  let n := Qfloor (x * 100 + 0.5)%Q in
  pretty (n / 100)%Z ++ "." ++ pretty ((n mod 100) / 10)%Z
    ++ pretty ((n mod 100) mod 10)%Z.

Definition toFixed2 (x : Q) : string :=
  if Qle_bool 0 x then toFixed2_nonneg x else "-" ++ toFixed2_nonneg (- x).

Record Report := {
  totalApiCalls : nat;
  totalApiErrors : nat;
  successRate : string;
  averageProcessingTime : string;
  totalImagesProcessed : nat
}.

Definition number (n : nat) : Q := inject_Z (Z.of_nat n).

(** [getPerformanceReport()] *)
Definition getPerformanceReport (m : Metrics) : Report :=
  let avgProcessingTime :=
    if (0 <? length (processingTimes m))%nat
    then Double.div (fold_left Double.add (processingTimes m) 0%Q)
           (number (length (processingTimes m)))
    else 0%Q in
  {| totalApiCalls := apiCalls m;
     totalApiErrors := apiErrors m;
     successRate :=
       if (0 <? apiCalls m)%nat
       then toFixed2
              (Double.mul
                 (Double.div (Double.sub (number (apiCalls m)) (number (apiErrors m)))
                    (number (apiCalls m)))
                 100) ++ "%"
       else "N/A";
     averageProcessingTime := toFixed2 avgProcessingTime ++ "ms";
     totalImagesProcessed := totalImages m |}.

End Performance.

(** ** script_with_api.js: who owns the camera

    [currentStream] and the streams handed out by [getUserMedia].  [live]
    holds the streams whose tracks have not been stopped; the scheduler and
    the page are those of [Monitoring]. *)

Module Media.

Import ScriptWithApi.

Record State := {
  currentStream : option nat;
  live : gset nat;
  next_stream : nat;
  monitor : Monitoring.State
}.

Definition initial (checkbox : option bool) : State :=
  {| currentStream := None; live := ∅; next_stream := 0;
     monitor := Monitoring.initial checkbox |}.

Definition alert (message kind : string) (m : Monitoring.State) : Monitoring.State :=
  Monitoring.set_page (showAlert message kind (Monitoring.page m)) m.

(** [if (currentStream) { currentStream.getTracks().forEach(track =>
    track.stop()); currentStream = null; }] *)
Definition release (st : State) : State :=
  match currentStream st with
  | Some id =>
      {| currentStream := None; live := live st ∖ {[id]};
         next_stream := next_stream st; monitor := monitor st |}
  | None => st
  end.

(** [startCamera()]; [granted] tells whether [getUserMedia] succeeds. *)
Definition startCamera (granted : bool) (st : State) : State :=
  if granted then
    {| currentStream := Some (next_stream st);
       live := live st ∪ {[next_stream st]};
       next_stream := S (next_stream st);
       monitor := alert "Camera started successfully" "success" (monitor st) |}
  else
    {| currentStream := currentStream st; live := live st;
       next_stream := next_stream st;
       monitor := alert "Error accessing camera: Permission denied" "error"
                    (monitor st) |}.

(** [stopCamera()] *)
Definition stopCamera (st : State) : State :=
  let st := release st in
  {| currentStream := currentStream st; live := live st;
     next_stream := next_stream st;
     monitor := alert "Camera stopped" "info" (monitor st) |}.

(** [startMonitoring()]: the stream it acquires is stored over whatever
    [currentStream] held. *)
Definition startMonitoring (granted : bool) (seconds : Z) (st : State) : State :=
  if Monitoring.monitoringActive (monitor st) then st
  else if granted then
    {| currentStream := Some (next_stream st);
       live := live st ∪ {[next_stream st]};
       next_stream := S (next_stream st);
       monitor := Monitoring.startMonitoring true seconds (monitor st) |}
  else
    {| currentStream := currentStream st; live := live st;
       next_stream := next_stream st;
       monitor := Monitoring.startMonitoring false seconds (monitor st) |}.

(** [stopMonitoring()] *)
Definition stopMonitoring (st : State) : State :=
  let st := release st in
  {| currentStream := currentStream st; live := live st;
     next_stream := next_stream st;
     monitor := Monitoring.stopMonitoring (monitor st) |}.

(** [stopAllStreams()] *)
Definition stopAllStreams (st : State) : State :=
  let st := release st in
  if Monitoring.monitoringActive (monitor st) then stopMonitoring st else st.

(** [switchTab(tabName)], as far as streams are concerned. *)
Definition switchTab (tabName : string) (st : State) : State :=
  if negb (String.eqb tabName "camera") && negb (String.eqb tabName "monitoring")
  then stopAllStreams st
  else st.

Inductive Action :=
| StartCamera (granted : bool)
| StopCamera
| StartMonitoring (granted : bool) (seconds : Z)
| StopMonitoring
| StopAllStreams
| SwitchTab (tabName : string)
| Tick
| Completed (now : string) (result : DetectionResult).

Definition step (st : State) (a : Action) : State :=
  match a with
  | StartCamera granted => startCamera granted st
  | StopCamera => stopCamera st
  | StartMonitoring granted seconds => startMonitoring granted seconds st
  | StopMonitoring => stopMonitoring st
  | StopAllStreams => stopAllStreams st
  | SwitchTab tabName => switchTab tabName st
  | Tick =>
      {| currentStream := currentStream st; live := live st;
         next_stream := next_stream st; monitor := Monitoring.tick (monitor st) |}
  | Completed now result =>
      {| currentStream := currentStream st; live := live st;
         next_stream := next_stream st;
         monitor := Monitoring.complete now result (monitor st) |}
  end.

Definition run (actions : list Action) (st : State) : State :=
  fold_left step actions st.

End Media.

(** ** Notions used to state further properties *)

Module Notions.

(** [s'] differs from [s] by [k] captures grabbed at the current clock
    reading (and by timers and the countdown text, which are left open). *)
Definition adds (k : nat) (s s' : Monitoring.State) : Prop :=
  Monitoring.monitoringActive s' = Monitoring.monitoringActive s
  /\ Monitoring.page s' = Monitoring.page s
  /\ Monitoring.clock s' = Monitoring.clock s
  /\ Monitoring.captures s'
     = (Monitoring.captures s ++ repeat (Monitoring.clock s) k)%list
  /\ Monitoring.in_flight s' = Monitoring.in_flight s + k
  /\ (Monitoring.monitoringActive s = false -> k = 0).

(** The timer with handle [h] is live, its countdown has run out, and it is
    not the timer [monitoringCountdown] refers to. *)
Definition stale (h : nat) (s : Monitoring.State) : Prop :=
  Monitoring.monitoringActive s = true
  /\ (exists c, Monitoring.intervals s !! h = Some c
                /\ (Monitoring.countdown c <= 0)%Z)
  /\ Monitoring.monitoringCountdown s <> Some h
  /\ h < Monitoring.next_handle s.

(** No [Start] among the events. *)
Definition no_start (events : list Monitoring.Event) : Prop :=
  Forall (fun e => match e with Monitoring.Start _ _ => False | _ => True end)
    events.

(** Every capture is either awaiting its detection or counted. *)
Definition accounted (s : Monitoring.State) : Prop :=
  ScriptWithApi.captureCount (Monitoring.page s) + Monitoring.in_flight s
  = length (Monitoring.captures s).


(** The stream [id] was handed out, its tracks are running, and
    [currentStream] does not refer to it. *)
Definition orphaned (id : nat) (st : Media.State) : Prop :=
  id ∈ Media.live st /\ Media.currentStream st <> Some id
  /\ id < Media.next_stream st.

(** The detection of [file] comes to an end: the service answers, or the
    file decodes so that the synthetic path can answer. *)
Definition settles (b : Browser) (file : File) : Prop :=
  Claims.service_fails b file = false \/ decoded file <> None.

(** The state an [async] function has reached, finished or not. *)
Definition reached {A} (p : Upload.Progress A) : A :=
  match p with
  | Upload.Finished a => a
  | Upload.Hung a => a
  end.

(** The box lies inside the image, its far edges up to the relative
    excess [tol]. *)
Definition inside (tol : Q) (img : Image.t) (box : BoundingBox) : Prop :=
  (0 <= x box)%Q /\ (0 <= y box)%Q
  /\ (x box + width box <= inject_Z (Z.of_nat (Image.width img)) * (1 + tol))%Q
  /\ (y box + height box <= inject_Z (Z.of_nat (Image.height img)) * (1 + tol))%Q.

(** The canvas is painted all over: the one drawing call made on it puts
    image pixels on a rectangle that starts at the origin and reaches at
    least as far as the canvas does. *)
Definition painted_whole (canvas : Canvas.t) : Prop :=
  exists shape r,
    Canvas.painted (Canvas.ctx canvas) = [shape]
    /\ Canvas.image_pixels shape = Some r
    /\ (Canvas.left r == 0)%Q /\ (Canvas.top r == 0)%Q
    /\ (Canvas.width canvas <= Canvas.rect_width r)%Q
    /\ (Canvas.height canvas <= Canvas.rect_height r)%Q.

(** The three shapes [drawBoundingBox] is meant to add for a detection. *)
Definition annotation (b : Browser) (d : Detection) : list Canvas.Shape :=
  let box := bbox d in
  let color := Claims.class_color (class d) in
  [ Canvas.StrokeRect (x box) (y box) (width box) (height box) color 3%Q;
    Canvas.FillRect (x box) (Double.sub (y box) 25)
      (Double.add (measureText b (Annotator.label d)) 10) 25%Q color;
    Canvas.FillText (Annotator.label d) (Double.add (x box) 5)
      (Double.sub (y box) 8) "white" "14px Arial" ].

(** No comma in the text. *)
Fixpoint comma_free (s : string) : Prop :=
  match s with
  | EmptyString => True
  | String c rest => c <> ","%char /\ comma_free rest
  end.

(** The text of the blob a download starts with, if any. *)
Definition blob_text (outcome : string + list Exporter.Effect) : option string :=
  match outcome with
  | inr (Exporter.NewBlob part _ :: _) => part
  | _ => None
  end.

End Notions.

(** * Properties *)

(** ** Double arithmetic *)

Section DoubleArithmetic.

Import Double.
Local Open Scope Q_scope.

Lemma pow2_pos e : 0 < pow2 e.
Proof. apply Qpower_0_lt. reflexivity. Qed.

Lemma pow2_add a b : pow2 (a + b) == pow2 a * pow2 b.
Proof. apply Qpower_plus. discriminate. Qed.

Lemma pow2_sub a b : pow2 (a - b) == pow2 a / pow2 b.
Proof. apply Qpower_minus. discriminate. Qed.

Lemma pow2_le a b : (a <= b)%Z -> pow2 a <= pow2 b.
Proof. intros H. apply Qpower_le_compat_l; [exact H | discriminate]. Qed.

Lemma pow2_lt_inv a b : pow2 a < pow2 b -> (a < b)%Z.
Proof. intros H. eapply Qpower_lt_compat_l_inv; [exact H | reflexivity]. Qed.

Lemma pow2_Z n : (0 <= n)%Z -> pow2 n == inject_Z (2 ^ n).
Proof. intros H. unfold pow2. rewrite Zpower_Qpower by exact H. reflexivity. Qed.

(** [log2_floor x] is the integer [k] with [2^k <= x < 2^(k+1)]. *)
Lemma log2_floor_spec x :
  0 < x -> pow2 (log2_floor x) <= x /\ x < pow2 (log2_floor x + 1).
Proof.
  intros Hx. destruct x as [n d]. unfold log2_floor. cbn [Qnum Qden].
  assert (0 < n)%Z as Hn by (unfold Qlt in Hx; simpl in Hx; lia).
  set (a := Z.log2 n). set (b := Z.log2 (Z.pos d)).
  destruct (Z.log2_spec n Hn) as [Ha1 Ha2]. fold a in Ha1, Ha2.
  destruct (Z.log2_spec (Z.pos d) ltac:(lia)) as [Hb1 Hb2]. fold b in Hb1, Hb2.
  assert (0 <= a)%Z as Ha0 by apply Z.log2_nonneg.
  assert (0 <= b)%Z as Hb0 by apply Z.log2_nonneg.
  assert (n # d == inject_Z n / inject_Z (Z.pos d)) as E by apply Qmake_Qdiv.
  assert (0 < inject_Z (Z.pos d)) as Hd by reflexivity.
  assert (pow2 a <= inject_Z n) as A1.
  { rewrite pow2_Z by lia. rewrite <- Zle_Qle. exact Ha1. }
  assert (inject_Z n < pow2 (a + 1)) as A2.
  { rewrite pow2_Z by lia. rewrite <- Zlt_Qlt. replace (a + 1)%Z with (Z.succ a) by lia. exact Ha2. }
  assert (pow2 b <= inject_Z (Z.pos d)) as B1.
  { rewrite pow2_Z by lia. rewrite <- Zle_Qle. exact Hb1. }
  assert (inject_Z (Z.pos d) < pow2 (b + 1)) as B2.
  { rewrite pow2_Z by lia. rewrite <- Zlt_Qlt. replace (b + 1)%Z with (Z.succ b) by lia. exact Hb2. }
  (* x * d = n *)
  assert ((n # d) * inject_Z (Z.pos d) == inject_Z n) as Em.
  { rewrite E. field. intros C. rewrite C in Hd. discriminate. }
  pose proof (pow2_pos a). pose proof (pow2_pos b). pose proof (pow2_pos (a - b)).
  pose proof (pow2_pos (a - b - 1)). pose proof (pow2_pos (a - b + 1)).
  assert (pow2 (a - b - 1) * pow2 (b + 1) == pow2 a) as P1.
  { rewrite <- pow2_add. replace (a - b - 1 + (b + 1))%Z with a by lia. reflexivity. }
  assert (pow2 (a - b + 1) * pow2 b == pow2 (a + 1)) as P2.
  { rewrite <- pow2_add. replace (a - b + 1 + b)%Z with (a + 1)%Z by lia. reflexivity. }
  assert (pow2 (a - b - 1) < n # d) as L.
  { apply Qnot_le_lt. intros C.
    assert ((n # d) * inject_Z (Z.pos d) < pow2 (a - b - 1) * pow2 (b + 1)); [|lra].
    apply Qle_lt_trans with (pow2 (a - b - 1) * inject_Z (Z.pos d)).
    - apply Qmult_le_compat_r; [exact C | lra].
    - apply Qmult_lt_l; assumption. }
  assert (n # d < pow2 (a - b + 1)) as U.
  { apply Qnot_le_lt. intros C.
    assert (pow2 (a - b + 1) * pow2 b <= (n # d) * inject_Z (Z.pos d)); [|lra].
    apply Qle_trans with (pow2 (a - b + 1) * inject_Z (Z.pos d)).
    - apply Qmult_le_l; assumption.
    - apply Qmult_le_compat_r; [exact C | lra]. }
  destruct (Qle_bool (pow2 (a - b)) (n # d)) eqn:T.
  - apply Qle_bool_iff in T. split; assumption.
  - assert (n # d < pow2 (a - b)) as T'.
    { apply Qnot_le_lt. intros C. apply Qle_bool_iff in C. congruence. }
    split; [apply Qlt_le_weak; exact L|].
    replace (a - b - 1 + 1)%Z with (a - b)%Z by lia. exact T'.
Qed.

Lemma log2_floor_unique x k :
  pow2 k <= x -> x < pow2 (k + 1) -> log2_floor x = k.
Proof.
  intros H1 H2.
  assert (0 < x) as Hx by (pose proof (pow2_pos k); lra).
  destruct (log2_floor_spec x Hx) as [L U].
  assert (k < log2_floor x + 1)%Z by (apply pow2_lt_inv; lra).
  assert (log2_floor x < k + 1)%Z by (apply pow2_lt_inv; lra).
  lia.
Qed.

Lemma log2_floor_lt x k : 0 < x -> x < pow2 k -> (log2_floor x < k)%Z.
Proof.
  intros Hx H. destruct (log2_floor_spec x Hx) as [L _].
  apply pow2_lt_inv. lra.
Qed.

Lemma log2_floor_le x y : 0 < x -> x <= y -> (log2_floor x <= log2_floor y)%Z.
Proof.
  intros Hx H.
  destruct (log2_floor_spec x Hx) as [L _].
  destruct (log2_floor_spec y ltac:(lra)) as [_ U].
  assert (log2_floor x < log2_floor y + 1)%Z by (apply pow2_lt_inv; lra).
  lia.
Qed.


(** *** Rounding to the nearest integer *)

Lemma nearest_even_bounds q :
  inject_Z (nearest_even q) - (1 # 2) <= q /\ q <= inject_Z (nearest_even q) + (1 # 2).
Proof.
  unfold nearest_even.
  pose proof (Qfloor_le q) as Hl. pose proof (Qlt_floor q) as Hu.
  rewrite inject_Z_plus in Hu. change (inject_Z 1) with 1 in Hu.
  destruct (Qcompare_spec (q - inject_Z (Qfloor q)) (1 # 2)) as [E|E|E].
  - destruct (Z.even (Qfloor q)).
    + lra.
    + rewrite inject_Z_plus. change (inject_Z 1) with 1. lra.
  - lra.
  - rewrite inject_Z_plus. change (inject_Z 1) with 1. lra.
Qed.

Lemma nearest_even_Z z : nearest_even (inject_Z z) = z.
Proof.
  unfold nearest_even. rewrite Qfloor_Z.
  destruct (Qcompare_spec (inject_Z z - inject_Z z) (1 # 2)) as [E|E|E];
    [lra | reflexivity | lra].
Qed.

Lemma nearest_even_comp q q' : q == q' -> nearest_even q = nearest_even q'.
Proof.
  intros E. unfold nearest_even. rewrite (Qfloor_comp _ _ E).
  assert (q - inject_Z (Qfloor q') == q' - inject_Z (Qfloor q')) as E' by lra.
  rewrite (Qcompare_comp _ _ E' _ _ (Qeq_refl _)). reflexivity.
Qed.

Lemma nearest_even_le q q' : q <= q' -> (nearest_even q <= nearest_even q')%Z.
Proof.
  intros H.
  assert (Qfloor q <= Qfloor q')%Z as Hf by (apply Qfloor_resp_le; exact H).
  assert (forall p, Qfloor p <= nearest_even p <= Qfloor p + 1)%Z as Hr.
  { intros p. unfold nearest_even.
    destruct (p - inject_Z (Qfloor p) ?= 1 # 2); [destruct (Z.even _)| |]; lia. }
  destruct (Z.eq_dec (Qfloor q) (Qfloor q')) as [E|NE].
  - unfold nearest_even. rewrite E.
    destruct (Qcompare_spec (q - inject_Z (Qfloor q')) (1 # 2)) as [C|C|C];
      destruct (Qcompare_spec (q' - inject_Z (Qfloor q')) (1 # 2)) as [C'|C'|C'];
      try lra; try lia; destruct (Z.even (Qfloor q')); lia.
  - pose proof (Hr q). pose proof (Hr q'). lia.
Qed.

(** *** Rounding a positive number *)

Lemma exponent_min x : (-1074 <= exponent x)%Z.
Proof. unfold exponent. lia. Qed.

Lemma exponent_le x y : 0 < x -> x <= y -> (exponent x <= exponent y)%Z.
Proof.
  intros Hx H. unfold exponent. pose proof (log2_floor_le x y Hx H). lia.
Qed.

Lemma scaled x e : x / pow2 e * pow2 e == x.
Proof. field. pose proof (pow2_pos e). lra. Qed.

Lemma div_pow2_le x y e : x <= y -> x / pow2 e <= y / pow2 e.
Proof.
  intros H. unfold Qdiv. apply Qmult_le_compat_r; [exact H|].
  apply Qlt_le_weak, Qinv_lt_0_compat, pow2_pos.
Qed.

Lemma pow2_div a b : (b <= a)%Z -> pow2 a / pow2 b == inject_Z (2 ^ (a - b)).
Proof.
  intros H. rewrite <- pow2_sub. apply pow2_Z. lia.
Qed.

Lemma round_pos_nonneg x : 0 < x -> 0 <= round_pos x.
Proof.
  intros Hx. unfold round_pos.
  pose proof (pow2_pos (exponent x)) as Hp.
  assert (0 <= nearest_even (x / pow2 (exponent x)))%Z.
  { rewrite <- (nearest_even_Z 0). apply nearest_even_le.
    change (inject_Z 0) with 0. apply Qle_shift_div_l; [exact Hp | lra]. }
  assert (0 <= inject_Z (nearest_even (x / pow2 (exponent x)))).
  { change 0 with (inject_Z 0). rewrite <- Zle_Qle. assumption. }
  nra.
Qed.

(** Rounding never crosses a power of two that is itself a multiple of
    the last mantissa bit. *)
Lemma round_pos_le_pow2 x k :
  0 < x -> x <= pow2 k -> (exponent x <= k)%Z -> round_pos x <= pow2 k.
Proof.
  intros Hx H He. unfold round_pos. set (e := exponent x) in *.
  pose proof (pow2_pos e) as Hp.
  assert (nearest_even (x / pow2 e) <= 2 ^ (k - e))%Z as Hm.
  { rewrite <- (nearest_even_Z (2 ^ (k - e))). apply nearest_even_le.
    rewrite <- pow2_div by exact He. apply div_pow2_le. exact H. }
  rewrite Zle_Qle in Hm. rewrite <- pow2_div in Hm by exact He.
  apply Qle_trans with (pow2 k / pow2 e * pow2 e).
  - apply Qmult_le_compat_r; [exact Hm | lra].
  - rewrite scaled. apply Qle_refl.
Qed.

Lemma round_pos_ge_pow2 x k :
  pow2 k <= x -> (exponent x <= k)%Z -> pow2 k <= round_pos x.
Proof.
  intros H He. unfold round_pos. set (e := exponent x) in *.
  pose proof (pow2_pos e) as Hp.
  assert (2 ^ (k - e) <= nearest_even (x / pow2 e))%Z as Hm.
  { rewrite <- (nearest_even_Z (2 ^ (k - e))). apply nearest_even_le.
    rewrite <- pow2_div by exact He. apply div_pow2_le. exact H. }
  rewrite Zle_Qle in Hm. rewrite <- pow2_div in Hm by exact He.
  apply Qle_trans with (pow2 k / pow2 e * pow2 e).
  - rewrite scaled. apply Qle_refl.
  - apply Qmult_le_compat_r; [exact Hm | lra].
Qed.

Lemma round_pos_le x y : 0 < x -> x <= y -> round_pos x <= round_pos y.
Proof.
  intros Hx H.
  pose proof (exponent_le x y Hx H) as He.
  destruct (Z.eq_dec (exponent x) (exponent y)) as [E|NE].
  - unfold round_pos. rewrite E. set (e := exponent y).
    pose proof (pow2_pos e) as Hp.
    apply Qmult_le_compat_r; [|lra].
    rewrite <- Zle_Qle. apply nearest_even_le, div_pow2_le, H.
  - assert (exponent x < exponent y)%Z as Hlt by lia.
    assert (exponent y = log2_floor y - 52)%Z as Ey.
    { pose proof (exponent_min x). unfold exponent in *. lia. }
    assert (log2_floor x < log2_floor y)%Z as Hl by (unfold exponent in *; lia).
    destruct (log2_floor_spec x Hx) as [_ Ux].
    destruct (log2_floor_spec y ltac:(lra)) as [Ly _].
    set (k := log2_floor y) in *.
    assert (pow2 (log2_floor x + 1) <= pow2 k) by (apply pow2_le; lia).
    apply Qle_trans with (pow2 k).
    + apply round_pos_le_pow2; [exact Hx | lra | lia].
    + apply round_pos_ge_pow2; [exact Ly | lia].
Qed.


Lemma log2_floor_comp x y : 0 < x -> x == y -> log2_floor x = log2_floor y.
Proof.
  intros Hx E. destruct (log2_floor_spec y ltac:(lra)) as [L U].
  apply log2_floor_unique; lra.
Qed.

Lemma round_pos_comp x y : 0 < x -> x == y -> round_pos x == round_pos y.
Proof.
  intros Hx E. unfold round_pos, exponent.
  rewrite (log2_floor_comp x y Hx E).
  set (e := Z.max (-1074) (log2_floor y - 52)).
  rewrite (nearest_even_comp (x / pow2 e) (y / pow2 e)); [reflexivity|].
  rewrite E. reflexivity.
Qed.

(** *** Rounding *)

Lemma round_comp x y : x == y -> round x = round y.
Proof. intros E. unfold round. by rewrite (Qred_complete _ _ E). Qed.

Lemma Qnum_sign x :
  match Qnum x with
  | Z0 => x == 0
  | Zpos _ => 0 < x
  | Zneg _ => x < 0
  end.
Proof. destruct x as [[|n|n] d]; unfold Qeq, Qlt; simpl; lia. Qed.

Lemma round_zero x : x == 0 -> round x = 0.
Proof.
  intros E. rewrite (round_comp _ _ E). reflexivity.
Qed.

Lemma round_of_pos x : 0 < x -> round x == round_pos x.
Proof.
  intros Hx. unfold round.
  pose proof (Qnum_sign (Qred x)) as S. pose proof (Qred_correct x) as R.
  destruct (Qnum (Qred x)).
  - lra.
  - rewrite Qred_correct. apply round_pos_comp; lra.
  - lra.
Qed.

Lemma round_of_neg x : x < 0 -> round x == - round_pos (- x).
Proof.
  intros Hx. unfold round.
  pose proof (Qnum_sign (Qred x)) as S. pose proof (Qred_correct x) as R.
  destruct (Qnum (Qred x)).
  - lra.
  - lra.
  - rewrite Qred_correct.
    rewrite (round_pos_comp (- Qred x) (- x)); [reflexivity | lra | lra].
Qed.

Lemma round_nonneg x : 0 <= x -> 0 <= round x.
Proof.
  intros H. destruct (Qle_lt_or_eq _ _ H) as [P|E].
  - rewrite round_of_pos by exact P. apply round_pos_nonneg, P.
  - rewrite (round_zero x) by lra. lra.
Qed.

(** Rounding is monotone. *)
Lemma round_le x y : x <= y -> round x <= round y.
Proof.
  intros H.
  destruct (Q_dec x 0) as [[Hx|Hx]|Hx]; destruct (Q_dec y 0) as [[Hy|Hy]|Hy];
    try lra.
  - rewrite (round_of_neg x Hx), (round_of_neg y Hy).
    pose proof (round_pos_le (- y) (- x) ltac:(lra) ltac:(lra)). lra.
  - rewrite (round_of_neg x Hx).
    pose proof (round_pos_nonneg (- x) ltac:(lra)).
    pose proof (round_nonneg y ltac:(lra)). lra.
  - rewrite (round_of_neg x Hx), (round_zero y Hy).
    pose proof (round_pos_nonneg (- x) ltac:(lra)). lra.
  - rewrite (round_of_pos x Hx), (round_of_pos y Hy).
    apply round_pos_le; assumption.
  - rewrite (round_zero x Hx). apply round_nonneg. lra.
  - rewrite (round_zero x Hx), (round_zero y Hy). lra.
Qed.


(** *** The doubles are the fixed points of rounding *)

Lemma round_pos_exact m e :
  (0 < m < 2 ^ 53)%Z -> (-1074 <= e)%Z ->
  round_pos (inject_Z m * pow2 e) == inject_Z m * pow2 e.
Proof.
  intros Hm He. set (x := inject_Z m * pow2 e).
  pose proof (pow2_pos e) as Hp.
  assert (0 < inject_Z m) as Hm0.
  { change 0 with (inject_Z 0). rewrite <- Zlt_Qlt. lia. }
  assert (0 < x) as Hx by (unfold x; nra).
  assert (x < pow2 (53 + e)) as Hlt.
  { unfold x. rewrite pow2_add. apply Qmult_lt_compat_r; [exact Hp|].
    rewrite pow2_Z by lia. rewrite <- Zlt_Qlt. lia. }
  pose proof (log2_floor_lt x _ Hx Hlt) as Hl.
  assert (exponent x <= e)%Z as Hex by (unfold exponent; lia).
  unfold round_pos. set (e' := exponent x) in *.
  assert (x / pow2 e' == inject_Z (m * 2 ^ (e - e'))) as Hq.
  { unfold x. rewrite inject_Z_mult, <- pow2_div by exact Hex.
    field. pose proof (pow2_pos e'). lra. }
  rewrite (nearest_even_comp _ _ Hq), nearest_even_Z, <- Hq.
  apply scaled.
Qed.

Lemma round_pos_exact_pow2 k :
  (-1074 <= k)%Z -> round_pos (pow2 k) == pow2 k.
Proof.
  intros Hk. destruct (Z_le_gt_dec (-1022) k) as [Hn|Hs].
  - assert (pow2 k == inject_Z (2 ^ 52) * pow2 (k - 52)) as E.
    { rewrite <- pow2_Z by lia. rewrite <- pow2_add.
      replace (52 + (k - 52))%Z with k by lia. reflexivity. }
    rewrite (round_pos_comp _ _ (pow2_pos k) E).
    rewrite round_pos_exact by lia. symmetry. exact E.
  - assert (pow2 k == inject_Z (2 ^ (k + 1074)) * pow2 (-1074)) as E.
    { rewrite <- pow2_Z by lia. rewrite <- pow2_add.
      replace (k + 1074 + -1074)%Z with k by lia. reflexivity. }
    rewrite (round_pos_comp _ _ (pow2_pos k) E).
    rewrite round_pos_exact; [symmetry; exact E | | lia].
    split; [apply Z.pow_pos_nonneg; lia|].
    apply Z.pow_lt_mono_r; lia.
Qed.

Lemma round_exact x : representable x -> round x == x.
Proof.
  intros (m & e & Hm & He & E).
  assert (forall m e, (0 < m <= 2 ^ 53)%Z -> (-1074 <= e)%Z ->
            round_pos (inject_Z m * pow2 e) == inject_Z m * pow2 e) as P.
  { clear. intros m e Hm He.
    destruct (Z.eq_dec m (2 ^ 53)%Z) as [->|NE].
    - assert (inject_Z (2 ^ 53) * pow2 e == pow2 (53 + e)) as E.
      { rewrite pow2_add, (pow2_Z 53) by lia. reflexivity. }
      assert (0 < inject_Z (2 ^ 53) * pow2 e) as Hx.
      { rewrite E. apply pow2_pos. }
      rewrite (round_pos_comp _ _ Hx E). rewrite round_pos_exact_pow2 by lia.
      symmetry. exact E.
    - apply round_pos_exact; lia. }
  pose proof (pow2_pos e) as Hp.
  destruct (Z.lt_trichotomy m 0) as [Hneg|[->|Hpos]].
  - assert (- x == inject_Z (- m) * pow2 e) as E'.
    { rewrite inject_Z_opp, E. ring. }
    assert (inject_Z m < 0).
    { change 0 with (inject_Z 0). rewrite <- Zlt_Qlt. lia. }
    assert (x < 0) as Hx.
    { rewrite E, <- (Qmult_0_l (pow2 e)). apply Qmult_lt_compat_r; assumption. }
    rewrite (round_of_neg x Hx).
    assert (0 < - x) as Hx' by lra.
    rewrite (round_pos_comp _ _ Hx' E'), P by lia. lra.
  - rewrite (round_zero x); [|rewrite E; ring]. rewrite E. ring.
  - assert (0 < inject_Z m).
    { change 0 with (inject_Z 0). rewrite <- Zlt_Qlt. lia. }
    assert (0 < x) as Hx.
    { rewrite E, <- (Qmult_0_l (pow2 e)). apply Qmult_lt_compat_r; assumption. }
    rewrite (round_of_pos x Hx), (round_pos_comp _ _ Hx E), P by lia.
    lra.
Qed.

Lemma round_pos_representable x : 0 < x -> representable (round_pos x).
Proof.
  intros Hx. exists (nearest_even (x / pow2 (exponent x))), (exponent x).
  split; [|split; [apply exponent_min | reflexivity]].
  destruct (log2_floor_spec x Hx) as [_ U].
  set (e := exponent x).
  assert (log2_floor x + 1 <= 53 + e)%Z as Hk by (unfold e, exponent; lia).
  pose proof (pow2_le _ _ Hk) as Hp.
  assert (0 <= nearest_even (x / pow2 e))%Z.
  { rewrite <- (nearest_even_Z 0). apply nearest_even_le.
    change (inject_Z 0) with 0. apply Qle_shift_div_l; [apply pow2_pos | lra]. }
  assert (nearest_even (x / pow2 e) <= 2 ^ 53)%Z.
  { rewrite <- (nearest_even_Z (2 ^ 53)). apply nearest_even_le.
    apply Qle_shift_div_r; [apply pow2_pos|].
    rewrite <- pow2_Z, <- pow2_add by lia. lra. }
  lia.
Qed.

Lemma representable_comp x y : x == y -> representable x -> representable y.
Proof.
  intros E (m & e & Hm & He & Hx). exists m, e. rewrite <- E. auto.
Qed.

Lemma representable_opp x : representable x -> representable (- x).
Proof.
  intros (m & e & Hm & He & Hx). exists (- m)%Z, e.
  split; [lia|]. split; [exact He|]. rewrite inject_Z_opp, Hx. ring.
Qed.

Lemma round_representable x : representable (round x).
Proof.
  destruct (Q_dec x 0) as [[H|H]|H].
  - apply (representable_comp (- round_pos (- x))).
    + symmetry. apply round_of_neg, H.
    + apply representable_opp, round_pos_representable. lra.
  - apply (representable_comp (round_pos x)).
    + symmetry. apply round_of_pos, H.
    + apply round_pos_representable, H.
  - rewrite (round_zero x H). exists 0%Z, 0%Z.
    split; [lia|]. split; [lia | reflexivity].
Qed.

Lemma is_double_representable x : is_double x <-> representable x.
Proof.
  split.
  - intros E. apply (representable_comp (round x)); [exact E|].
    apply round_representable.
  - apply round_exact.
Qed.

Lemma round_is_double x : is_double (round x).
Proof. apply is_double_representable, round_representable. Qed.

Lemma Qred_round x : Qred (round x) = round x.
Proof.
  unfold round.
  destruct (Qnum (Qred x)); [reflexivity | |]; apply Qred_complete, Qred_correct.
Qed.

(** Rounding twice is rounding once. *)
Lemma round_idem x : round (round x) = round x.
Proof.
  transitivity (Qred (round (round x))); [symmetry; apply Qred_round|].
  transitivity (Qred (round x)); [|apply Qred_round].
  apply Qred_complete, round_is_double.
Qed.

Lemma is_double_Z z : (Z.abs z <= 2 ^ 53)%Z -> is_double (inject_Z z).
Proof.
  intros H. apply is_double_representable. exists z, 0%Z.
  split; [exact H|]. split; [lia|]. change (pow2 0) with 1. ring.
Qed.

Lemma is_double_half z : (Z.abs z <= 2 ^ 53)%Z -> is_double (inject_Z z * 0.5).
Proof.
  intros H. apply is_double_representable. exists z, (-1)%Z.
  split; [exact H|]. split; [lia|].
  assert (0.5 == pow2 (-1)) as -> by reflexivity. reflexivity.
Qed.

(** *** The rounding error *)

Lemma round_pos_near x :
  pow2 (-1022) <= x ->
  x * (1 - pow2 (-53)) <= round_pos x /\ round_pos x <= x * (1 + pow2 (-53)).
Proof.
  intros Hn.
  assert (0 < x) as Hx by (pose proof (pow2_pos (-1022)); lra).
  destruct (log2_floor_spec x Hx) as [L U].
  assert (-1022 <= log2_floor x)%Z as Hl.
  { assert (-1022 < log2_floor x + 1)%Z; [|lia]. apply pow2_lt_inv. lra. }
  unfold round_pos. set (e := exponent x).
  assert (e = log2_floor x - 52)%Z as Ee by (unfold e, exponent; lia).
  pose proof (pow2_pos e) as Hp.
  destruct (nearest_even_bounds (x / pow2 e)) as [B1 B2].
  set (m := inject_Z (nearest_even (x / pow2 e))) in *.
  pose proof (scaled x e) as Sc.
  assert (pow2 e * (1 # 2) <= x * pow2 (-53)) as Hu.
  { assert (pow2 e * (1 # 2) == pow2 (log2_floor x) * pow2 (-53)) as ->.
    { rewrite <- pow2_add. replace (log2_floor x + -53)%Z with (e + -1)%Z by lia.
      rewrite pow2_add. reflexivity. }
    apply Qmult_le_compat_r; [exact L|]. apply Qlt_le_weak, pow2_pos. }
  assert ((m - (1 # 2)) * pow2 e <= x / pow2 e * pow2 e) as C1.
  { apply Qmult_le_compat_r; lra. }
  assert (x / pow2 e * pow2 e <= (m + (1 # 2)) * pow2 e) as C2.
  { apply Qmult_le_compat_r; lra. }
  rewrite Sc in C1, C2. split; lra.
Qed.

Lemma round_near x :
  pow2 (-1022) <= x ->
  x * (1 - pow2 (-53)) <= round x /\ round x <= x * (1 + pow2 (-53)).
Proof.
  intros Hn. rewrite round_of_pos; [apply round_pos_near, Hn|].
  pose proof (pow2_pos (-1022)). lra.
Qed.

(** The largest double below 1 is [1 - 2^-53]. *)
Lemma below_one x : is_double x -> x < 1 -> x <= 1 - pow2 (-53).
Proof.
  intros D H. apply Qnot_lt_le. intros C.
  assert (pow2 (-1) <= x) as L.
  { assert (pow2 (-1) <= 1 - pow2 (-53)) by (vm_compute; discriminate). lra. }
  assert (0 < x) as Hx by (pose proof (pow2_pos (-1)); lra).
  assert (log2_floor x = -1)%Z as El.
  { apply log2_floor_unique; [exact L|]. exact H. }
  unfold is_double in D. rewrite (round_of_pos x Hx) in D.
  unfold round_pos, exponent in D. rewrite El in D.
  change (Z.max (-1074) (-1 - 52)) with (-53)%Z in D.
  set (m := nearest_even (x / pow2 (-53))) in D.
  assert (inject_Z m == x * inject_Z (2 ^ 53)) as Em.
  { rewrite <- D. rewrite <- Qmult_assoc.
    assert (pow2 (-53) * inject_Z (2 ^ 53) == 1) as -> by reflexivity. ring. }
  assert (inject_Z (2 ^ 53 - 1) < inject_Z m) as M1.
  { rewrite Em.
    assert (inject_Z (2 ^ 53 - 1) == (1 - pow2 (-53)) * inject_Z (2 ^ 53)) as ->
      by reflexivity.
    apply Qmult_lt_compat_r; [reflexivity | exact C]. }
  assert (inject_Z m < inject_Z (2 ^ 53)) as M2.
  { rewrite Em. assert (0 < inject_Z (2 ^ 53)) by reflexivity. nra. }
  rewrite <- Zlt_Qlt in M1, M2. lia.
Qed.

End DoubleArithmetic.

(** On the sample pairs, products, sums, differences and quotients are
    those of the Standard Library's binary64 arithmetic (53 bits of
    precision, exponents up to 1024). *)
Example agrees_with_binary64 :
  Forall
    (fun '(a, b) =>
       (Double.of_binary64 (SpecFloat.SFmul 53 1024 a b)
        == Double.mul (Double.of_binary64 a) (Double.of_binary64 b))%Q
       /\ (Double.of_binary64 (SpecFloat.SFadd 53 1024 a b)
           == Double.add (Double.of_binary64 a) (Double.of_binary64 b))%Q
       /\ (Double.of_binary64 (SpecFloat.SFsub 53 1024 a b)
           == Double.sub (Double.of_binary64 a) (Double.of_binary64 b))%Q
       /\ (Double.of_binary64 (SpecFloat.SFdiv 53 1024 a b)
           == Double.div (Double.of_binary64 a) (Double.of_binary64 b))%Q)
    Claims.binary64_samples.
Proof.
  repeat constructor; vm_compute; reflexivity.
Qed.

(** ** Class counts *)

Section ClassCounts.

Import Claims.

Lemma count_class_cons c d D :
  count_class c (d :: D)
  = (if String.eqb (class d) c then 1 else 0) + count_class c D.
Proof.
  unfold count_class. rewrite filter_cons.
  destruct (String.eqb (class d) c) eqn:E; case_decide; simpl; congruence.
Qed.

Lemma unknownCount_cons d D :
  unknownCount (d :: D)
  = (if known_class (class d) then 0 else 1) + unknownCount D.
Proof.
  unfold unknownCount. rewrite filter_cons.
  destruct (known_class (class d)) eqn:E; case_decide; simpl; congruence.
Qed.

(** Two different literals are never both equal to the same label. *)
Lemma eqb_exclusive c a b : a <> b -> String.eqb c a = true -> String.eqb c b = false.
Proof.
  intros Hne Ha. apply String.eqb_eq in Ha. subst c.
  apply String.eqb_neq. exact Hne.
Qed.

(** What one pass through the [switch] does to each counter. *)
Lemma count_detection_fields stats d :
  let s := ScriptWithApi.count_detection stats d in
  with_mask s = with_mask stats + (if String.eqb (class d) "with_mask" then 1 else 0)
  /\ without_mask s
     = without_mask stats + (if String.eqb (class d) "without_mask" then 1 else 0)
  /\ mask_weared_incorrect s
     = mask_weared_incorrect stats
       + (if String.eqb (class d) "mask_weared_incorrect" then 1 else 0).
Proof.
  unfold ScriptWithApi.count_detection.
  destruct (String.eqb (class d) "with_mask") eqn:E1.
  - rewrite (eqb_exclusive _ "with_mask" "without_mask"),
      (eqb_exclusive _ "with_mask" "mask_weared_incorrect") by (done || discriminate).
    simpl. lia.
  - destruct (String.eqb (class d) "without_mask") eqn:E2.
    + rewrite (eqb_exclusive _ "without_mask" "mask_weared_incorrect")
        by (done || discriminate).
      simpl. lia.
    + destruct (String.eqb (class d) "mask_weared_incorrect") eqn:E3; simpl; lia.
Qed.

Lemma fold_count_detection D : forall stats,
  let s := fold_left ScriptWithApi.count_detection D stats in
  with_mask s = with_mask stats + count_class "with_mask" D
  /\ without_mask s = without_mask stats + count_class "without_mask" D
  /\ mask_weared_incorrect s
     = mask_weared_incorrect stats + count_class "mask_weared_incorrect" D.
Proof.
  induction D as [|d D IH]; intros stats; simpl.
  - unfold count_class; simpl. lia.
  - specialize (IH (ScriptWithApi.count_detection stats d)). simpl in IH.
    destruct IH as (H1 & H2 & H3).
    destruct (count_detection_fields stats d) as (F1 & F2 & F3).
    rewrite !count_class_cons. rewrite H1, H2, H3, F1, F2, F3. lia.
Qed.

(** The same two facts for the [switch] of script.js. *)
Lemma script_count_detection_fields stats d :
  let s := Script.count_detection stats d in
  withMask s = withMask stats + (if String.eqb (class d) "with_mask" then 1 else 0)
  /\ withoutMask s
     = withoutMask stats + (if String.eqb (class d) "without_mask" then 1 else 0)
  /\ incorrectMask s
     = incorrectMask stats
       + (if String.eqb (class d) "mask_weared_incorrect" then 1 else 0).
Proof.
  unfold Script.count_detection.
  destruct (String.eqb (class d) "with_mask") eqn:E1.
  - rewrite (eqb_exclusive _ "with_mask" "without_mask"),
      (eqb_exclusive _ "with_mask" "mask_weared_incorrect") by (done || discriminate).
    simpl. lia.
  - destruct (String.eqb (class d) "without_mask") eqn:E2.
    + rewrite (eqb_exclusive _ "without_mask" "mask_weared_incorrect")
        by (done || discriminate).
      simpl. lia.
    + destruct (String.eqb (class d) "mask_weared_incorrect") eqn:E3; simpl; lia.
Qed.

Lemma script_fold_count_detection D : forall stats,
  let s := fold_left Script.count_detection D stats in
  withMask s = withMask stats + count_class "with_mask" D
  /\ withoutMask s = withoutMask stats + count_class "without_mask" D
  /\ incorrectMask s = incorrectMask stats + count_class "mask_weared_incorrect" D.
Proof.
  induction D as [|d D IH]; intros stats; simpl.
  - unfold count_class; simpl. lia.
  - specialize (IH (Script.count_detection stats d)). simpl in IH.
    destruct IH as (H1 & H2 & H3).
    destruct (script_count_detection_fields stats d) as (F1 & F2 & F3).
    rewrite !count_class_cons. rewrite H1, H2, H3, F1, F2, F3. lia.
Qed.

Lemma count_class_app c D1 D2 :
  count_class c (D1 ++ D2) = count_class c D1 + count_class c D2.
Proof. unfold count_class. by rewrite filter_app, length_app. Qed.

Lemma script_fold_results results : forall stats,
  let s :=
    fold_left
      (fun stats result =>
         fold_left Script.count_detection (Script.detections result) stats)
      results stats in
  withMask s = withMask stats + count_class "with_mask" (all_detections results)
  /\ withoutMask s
     = withoutMask stats + count_class "without_mask" (all_detections results)
  /\ incorrectMask s
     = incorrectMask stats
       + count_class "mask_weared_incorrect" (all_detections results).
Proof.
  induction results as [|r results IH]; intros stats; simpl.
  - unfold all_detections, count_class; simpl. lia.
  - specialize (IH (fold_left Script.count_detection (Script.detections r) stats)).
    simpl in IH. destruct IH as (H1 & H2 & H3).
    destruct (script_fold_count_detection (Script.detections r) stats)
      as (F1 & F2 & F3).
    unfold all_detections in *. simpl. rewrite !count_class_app.
    rewrite H1, H2, H3, F1, F2, F3. lia.
Qed.

(** Every detection falls in exactly one of the four groups. *)
Lemma partition_by_class D :
  count_class "with_mask" D + count_class "without_mask" D
  + count_class "mask_weared_incorrect" D + unknownCount D = length D.
Proof.
  induction D as [|d D IH].
  - reflexivity.
  - rewrite !count_class_cons, unknownCount_cons. simpl length.
    unfold known_class.
    destruct (String.eqb (class d) "with_mask") eqn:E1.
    + rewrite (eqb_exclusive _ "with_mask" "without_mask"),
        (eqb_exclusive _ "with_mask" "mask_weared_incorrect") by (done || discriminate).
      simpl. lia.
    + destruct (String.eqb (class d) "without_mask") eqn:E2.
      * rewrite (eqb_exclusive _ "without_mask" "mask_weared_incorrect")
          by (done || discriminate).
        simpl. lia.
      * destruct (String.eqb (class d) "mask_weared_incorrect"); simpl; lia.
Qed.

(** Removing the detections with an unknown label changes the number of
    detections with a known one not at all. *)
Lemma count_class_known_only c D :
  known_class c = true -> count_class c (known_only D) = count_class c D.
Proof.
  intros Hc. induction D as [|d D IH]; [reflexivity|].
  unfold known_only in *. rewrite filter_cons.
  destruct (known_class (class d)) eqn:E; case_decide; try congruence.
  - rewrite !count_class_cons, IH. reflexivity.
  - rewrite count_class_cons, IH.
    destruct (String.eqb (class d) c) eqn:Ec; [|reflexivity].
    apply String.eqb_eq in Ec. congruence.
Qed.

Lemma all_detections_known results :
  all_detections (map known_detections results) = known_only (all_detections results).
Proof.
  unfold all_detections, known_only.
  induction results as [|r results IH]; [reflexivity|].
  simpl. rewrite filter_app, <- IH. reflexivity.
Qed.

End ClassCounts.

(** C2 (as amended).  For every sequence of detections, each of the three
    counters computed by [calculateStatsFromDetections] is exactly the
    number of detections carrying its own label, and the three plus the
    number of detections whose label is none of the three known ones add up
    to the length of the sequence.  A detection with an unknown label is
    never added to a known counter, and it is counted nowhere else: the
    result is the one computed from the sequence with these detections
    removed.  The same holds for [calculateStats] of script.js over all
    detections of a batch of results. *)
Theorem class_counts_partition :
  (forall D : list Detection,
     let s := ScriptWithApi.calculateStatsFromDetections D in
     with_mask s + without_mask s + mask_weared_incorrect s
     + Claims.unknownCount D = length D
     /\ with_mask s = Claims.count_class "with_mask" D
     /\ without_mask s = Claims.count_class "without_mask" D
     /\ mask_weared_incorrect s = Claims.count_class "mask_weared_incorrect" D
     /\ s = ScriptWithApi.calculateStatsFromDetections (Claims.known_only D))
  /\
  (forall results : list Script.Result,
     let D := Claims.all_detections results in
     let s := Script.calculateStats results in
     withMask s + withoutMask s + incorrectMask s + Claims.unknownCount D = length D
     /\ withMask s = Claims.count_class "with_mask" D
     /\ withoutMask s = Claims.count_class "without_mask" D
     /\ incorrectMask s = Claims.count_class "mask_weared_incorrect" D
     /\ s = Script.calculateStats (map Claims.known_detections results)).
Proof.
  split.
  - intros D s. subst s. unfold ScriptWithApi.calculateStatsFromDetections.
    destruct (fold_count_detection D
                {| with_mask := 0; without_mask := 0; mask_weared_incorrect := 0 |})
      as (H1 & H2 & H3).
    destruct (fold_count_detection (Claims.known_only D)
                {| with_mask := 0; without_mask := 0; mask_weared_incorrect := 0 |})
      as (K1 & K2 & K3).
    simpl in H1, H2, H3, K1, K2, K3.
    rewrite !count_class_known_only in K1, K2, K3 by reflexivity.
    split; [rewrite H1, H2, H3; apply partition_by_class|].
    split; [exact H1|]. split; [exact H2|]. split; [exact H3|].
    destruct (fold_left _ D _), (fold_left _ (Claims.known_only D) _).
    simpl in *. congruence.
  - intros results D s. subst D s. unfold Script.calculateStats.
    destruct (script_fold_results results
                {| withMask := 0; withoutMask := 0; incorrectMask := 0 |})
      as (H1 & H2 & H3).
    destruct (script_fold_results (map Claims.known_detections results)
                {| withMask := 0; withoutMask := 0; incorrectMask := 0 |})
      as (K1 & K2 & K3).
    simpl in H1, H2, H3, K1, K2, K3.
    rewrite all_detections_known, !count_class_known_only in K1, K2, K3
      by reflexivity.
    split; [rewrite H1, H2, H3; apply partition_by_class|].
    split; [exact H1|]. split; [exact H2|]. split; [exact H3|].
    destruct (fold_left _ results _),
      (fold_left _ (map Claims.known_detections results) _).
    simpl in *. congruence.
Qed.

(** C2, the claim as stated fails: detections with an unknown label are
    not counted in a separate bucket.  A sequence with one known and one
    unknown label gives the counters of the known one alone, short of the
    length, and no function of the result gives the number of unknown
    labels. *)
Lemma unknown_labels_have_no_bucket :
  let masked := Claims.box_at 10 10 50 60 in
  let helmet :=
    {| class := "helmet"; confidence := 0.7%Q;
       bbox := {| x := 0%Q; y := 0%Q; width := 10%Q; height := 10%Q |} |} in
  let s := ScriptWithApi.calculateStatsFromDetections [masked; helmet] in
  Claims.unknownCount [masked; helmet] = 1
  /\ s = {| with_mask := 1; without_mask := 0; mask_weared_incorrect := 0 |}
  /\ with_mask s + without_mask s + mask_weared_incorrect s < length [masked; helmet]
  /\ s = ScriptWithApi.calculateStatsFromDetections [masked]
  /\ ~ exists bucket : Stats -> nat,
         forall D,
           bucket (ScriptWithApi.calculateStatsFromDetections D)
           = Claims.unknownCount D.
Proof.
  intros masked helmet s.
  split; [reflexivity|]. split; [reflexivity|]. split; [simpl; lia|].
  split; [reflexivity|].
  intros [bucket Hb].
  pose proof (Hb [masked; helmet]) as H2. pose proof (Hb [masked]) as H1.
  change (ScriptWithApi.calculateStatsFromDetections [masked; helmet])
    with (ScriptWithApi.calculateStatsFromDetections [masked]) in H2.
  rewrite H1 in H2. discriminate.
Qed.

(** The two-detection answer: one person with a mask, one without. *)
Example sample_counts :
  ScriptWithApi.calculateStatsFromDetections Claims.sample_detections
  = {| with_mask := 1; without_mask := 1; mask_weared_incorrect := 0 |}.
Proof. reflexivity. Qed.

(** A label the model does not know moves no counter. *)
Example unknown_label_counts :
  ScriptWithApi.calculateStatsFromDetections
    [ {| class := "helmet"; confidence := 0.7%Q;
         bbox := {| x := 0%Q; y := 0%Q; width := 10%Q; height := 10%Q |} |} ]
  = {| with_mask := 0; without_mask := 0; mask_weared_incorrect := 0 |}.
Proof. reflexivity. Qed.

(** ** Session statistics *)

Section SessionStats.

Import ScriptWithApi Claims.

Lemma or_zero_id n : or_zero n = n.
Proof. by destruct n. Qed.

Lemma updateTotalStats_spec stats p :
  totalStats (updateTotalStats stats p) = add_stats (totalStats p) stats
  /\ captureCount (updateTotalStats stats p) = captureCount p
  /\ alerts (updateTotalStats stats p) = alerts p
  /\ soundAlerts (updateTotalStats stats p) = soundAlerts p.
Proof. by unfold updateTotalStats, add_stats. Qed.

Lemma upload_stats results p :
  totalStats (displayUploadResults results p)
  = add_stats (totalStats p) (batch_stats results)
  /\ captureCount (displayUploadResults results p) = captureCount p.
Proof.
  unfold displayUploadResults, addExportButtons, originalDisplayResults.
  destruct ((0 <? _)%nat && _); by simpl.
Qed.

Lemma camera_stats results p :
  totalStats (displayCameraResults results p)
  = add_stats (totalStats p) (batch_stats results)
  /\ captureCount (displayCameraResults results p) = captureCount p.
Proof.
  unfold displayCameraResults.
  destruct (0 <? _)%nat; [destruct (not_unchecked _)|]; by simpl.
Qed.

Lemma monitoring_stats now results p :
  totalStats (page_of (displayMonitoringResults now results p))
  = add_stats (totalStats p) (batch_stats results)
  /\ captureCount (page_of (displayMonitoringResults now results p))
     = captureCount p.
Proof.
  unfold displayMonitoringResults.
  destruct (0 <? _)%nat; [|by simpl].
  simpl. destruct (soundAlerts p) as [[]|]; by simpl.
Qed.

End SessionStats.

(** C3 (as amended).  [updateTotalStats] adds the batch's three counts to the
    three session totals and leaves [captureCount] alone.  All three result
    views fold their batch in through it.  [captureCount] grows by exactly
    one each time the detection of a monitoring capture comes back, whatever
    number of detections it carries; upload and camera batches do not change
    it. *)
Theorem accumulate_additive :
  (forall stats p,
     ScriptWithApi.totalStats (ScriptWithApi.updateTotalStats stats p)
     = Claims.add_stats (ScriptWithApi.totalStats p) stats
     /\ ScriptWithApi.captureCount (ScriptWithApi.updateTotalStats stats p)
        = ScriptWithApi.captureCount p)
  /\
  (forall results p,
     let p' := ScriptWithApi.displayUploadResults results p in
     ScriptWithApi.totalStats p'
     = Claims.add_stats (ScriptWithApi.totalStats p) (ScriptWithApi.batch_stats results)
     /\ ScriptWithApi.captureCount p' = ScriptWithApi.captureCount p)
  /\
  (forall results p,
     let p' := ScriptWithApi.displayCameraResults results p in
     ScriptWithApi.totalStats p'
     = Claims.add_stats (ScriptWithApi.totalStats p) (ScriptWithApi.batch_stats results)
     /\ ScriptWithApi.captureCount p' = ScriptWithApi.captureCount p)
  /\
  (forall now result p,
     let p' :=
       ScriptWithApi.page_of
         (ScriptWithApi.captureMonitoringPhoto_callback now result p) in
     ScriptWithApi.totalStats p'
     = Claims.add_stats (ScriptWithApi.totalStats p)
         (ScriptWithApi.batch_stats [result])
     /\ ScriptWithApi.captureCount p' = ScriptWithApi.captureCount p + 1).
Proof.
  split; [|split; [|split]].
  - intros stats p. split; apply updateTotalStats_spec.
  - intros results p. apply upload_stats.
  - intros results p. apply camera_stats.
  - intros now result p. simpl.
    unfold ScriptWithApi.captureMonitoringPhoto_callback.
    destruct (monitoring_stats now [result]
                {| ScriptWithApi.totalStats := ScriptWithApi.totalStats p;
                   ScriptWithApi.captureCount := S (ScriptWithApi.captureCount p);
                   ScriptWithApi.soundAlerts := ScriptWithApi.soundAlerts p;
                   ScriptWithApi.alerts := ScriptWithApi.alerts p;
                   ScriptWithApi.sounds := ScriptWithApi.sounds p |}) as [H1 H2].
    rewrite H1, H2. simpl. split; [reflexivity | lia].
Qed.

(** C3, the claim as stated fails: an upload batch is folded into the session
    totals, yet [captureCount] is not incremented. *)
Lemma upload_batch_not_counted :
  let p := ScriptWithApi.initial (Some true) in
  let p' := ScriptWithApi.displayUploadResults [Claims.sample_result] p in
  ScriptWithApi.totalStats p'
  = {| withMask := 1; withoutMask := 1; incorrectMask := 0 |}
  /\ ScriptWithApi.captureCount p' = 0
  /\ ScriptWithApi.captureCount p' <> ScriptWithApi.captureCount p + 1.
Proof. vm_compute. repeat split; discriminate. Qed.

(** ** The unmasked-person alert *)

(** C4 (as amended).  For a batch with at least one unmasked person.  The
    camera view always raises the warning, and plays the sound unless the
    sound checkbox is present and unchecked; [capturePhoto], which calls
    it for its one result, raises its success message right after, so that
    the warning is the last alert but one.  The monitoring view raises the
    warning whenever the page has the sound checkbox, and plays the sound
    when it is checked; on a page without the checkbox it throws and
    raises nothing.  The upload view raises the warning and plays the
    sound unless the sound checkbox is present and unchecked, in which
    case it does neither. *)
Theorem unmasked_alert_rule results p :
  0 < withoutMask (ScriptWithApi.batch_stats results) ->
  let n := withoutMask (ScriptWithApi.batch_stats results) in
  let camera := ScriptWithApi.displayCameraResults results p in
  let upload := ScriptWithApi.displayUploadResults results p in
  (ScriptWithApi.alerts camera
   = (ScriptWithApi.alerts p ++ [Claims.camera_warning n])%list
   /\ (ScriptWithApi.soundAlerts p <> Some false ->
       ScriptWithApi.sounds camera = ScriptWithApi.sounds p + 1)
   /\ (ScriptWithApi.soundAlerts p = Some false ->
       ScriptWithApi.sounds camera = ScriptWithApi.sounds p))
  /\ (forall result,
        results = [result] ->
        ScriptWithApi.alerts (ScriptWithApi.capturePhoto_callback result p)
        = (ScriptWithApi.alerts p
             ++ [ Claims.camera_warning n;
                  {| ScriptWithApi.message := "Photo captured and processed";
                     ScriptWithApi.kind := "success" |} ])%list)
  /\ (forall now checked,
        ScriptWithApi.soundAlerts p = Some checked ->
        exists p',
          ScriptWithApi.displayMonitoringResults now results p
          = ScriptWithApi.Normal p'
          /\ ScriptWithApi.alerts p'
             = (ScriptWithApi.alerts p ++ [Claims.monitoring_warning n now])%list
          /\ ScriptWithApi.sounds p'
             = if checked then ScriptWithApi.sounds p + 1 else ScriptWithApi.sounds p)
  /\ (forall now,
        ScriptWithApi.soundAlerts p = None ->
        exists error p',
          ScriptWithApi.displayMonitoringResults now results p
          = ScriptWithApi.Throw error p'
          /\ ScriptWithApi.alerts p' = ScriptWithApi.alerts p
          /\ ScriptWithApi.sounds p' = ScriptWithApi.sounds p)
  /\ (ScriptWithApi.soundAlerts p <> Some false ->
      ScriptWithApi.alerts upload
      = (ScriptWithApi.alerts p ++ [Claims.upload_warning n])%list
      /\ ScriptWithApi.sounds upload = ScriptWithApi.sounds p + 1)
  /\ (ScriptWithApi.soundAlerts p = Some false ->
      ScriptWithApi.alerts upload = ScriptWithApi.alerts p
      /\ ScriptWithApi.sounds upload = ScriptWithApi.sounds p).
Proof.
  intros Hpos n camera upload. subst n camera upload.
  apply Nat.ltb_lt in Hpos.
  split; [|split; [|split; [|split; [|split]]]].
  - unfold ScriptWithApi.displayCameraResults. rewrite Hpos. simpl.
    split; [by destruct (ScriptWithApi.not_unchecked _)|].
    split; intros Hbox.
    + destruct (ScriptWithApi.soundAlerts p) as [[]|]; simpl; congruence || lia.
    + rewrite Hbox. reflexivity.
  - intros result ->. unfold ScriptWithApi.capturePhoto_callback,
      ScriptWithApi.displayCameraResults. rewrite Hpos.
    simpl. rewrite <- app_assoc. by destruct (ScriptWithApi.not_unchecked _).
  - intros now checked Hbox.
    unfold ScriptWithApi.displayMonitoringResults. rewrite Hpos.
    simpl. rewrite Hbox. eexists; split; [reflexivity|].
    destruct checked; simpl; split; (reflexivity || lia).
  - intros now Hbox.
    unfold ScriptWithApi.displayMonitoringResults. rewrite Hpos.
    simpl. rewrite Hbox. eexists _, _. split; [reflexivity|]. split; reflexivity.
  - intros Hbox.
    unfold ScriptWithApi.displayUploadResults, ScriptWithApi.addExportButtons,
      ScriptWithApi.originalDisplayResults.
    rewrite Hpos. simpl.
    destruct (ScriptWithApi.soundAlerts p) as [[]|]; simpl;
      try congruence; split; (reflexivity || lia).
  - intros Hbox.
    unfold ScriptWithApi.displayUploadResults, ScriptWithApi.addExportButtons,
      ScriptWithApi.originalDisplayResults.
    rewrite Hpos. simpl. rewrite Hbox. simpl. split; reflexivity.
Qed.

(** The rule on the two-detection answer, with the checkbox unchecked,
    checked and missing. *)
Lemma unmasked_alert_rule_witness :
  let off := ScriptWithApi.initial (Some false) in
  let on := ScriptWithApi.initial (Some true) in
  let none := ScriptWithApi.initial None in
  0 < withoutMask (ScriptWithApi.batch_stats [Claims.sample_result])
  /\ (ScriptWithApi.alerts (ScriptWithApi.displayCameraResults [Claims.sample_result] off)
      = [Claims.camera_warning 1]
      /\ ScriptWithApi.sounds
           (ScriptWithApi.displayCameraResults [Claims.sample_result] off) = 0)
  /\ ScriptWithApi.alerts (ScriptWithApi.capturePhoto_callback Claims.sample_result on)
     = [ Claims.camera_warning 1;
         {| ScriptWithApi.message := "Photo captured and processed";
            ScriptWithApi.kind := "success" |} ]
  /\ (exists p',
        ScriptWithApi.displayMonitoringResults "10:15:00" [Claims.sample_result] off
        = ScriptWithApi.Normal p'
        /\ ScriptWithApi.alerts p' = [Claims.monitoring_warning 1 "10:15:00"]
        /\ ScriptWithApi.sounds p' = 0)
  /\ (exists error p',
        ScriptWithApi.displayMonitoringResults "10:15:00" [Claims.sample_result] none
        = ScriptWithApi.Throw error p'
        /\ ScriptWithApi.alerts p' = [] /\ ScriptWithApi.sounds p' = 0)
  /\ (ScriptWithApi.alerts (ScriptWithApi.displayUploadResults [Claims.sample_result] on)
      = [Claims.upload_warning 1]
      /\ ScriptWithApi.sounds
           (ScriptWithApi.displayUploadResults [Claims.sample_result] on) = 1)
  /\ (ScriptWithApi.alerts (ScriptWithApi.displayUploadResults [Claims.sample_result] off)
      = []
      /\ ScriptWithApi.sounds
           (ScriptWithApi.displayUploadResults [Claims.sample_result] off) = 0).
Proof.
  intros off on none.
  assert (0 < withoutMask (ScriptWithApi.batch_stats [Claims.sample_result]))
    as Hpos by (vm_compute; lia).
  split; [exact Hpos|].
  destruct (unmasked_alert_rule [Claims.sample_result] off Hpos)
    as ((Hcam & _ & Hquiet) & _ & Hmon & _ & _ & Hoff).
  destruct (unmasked_alert_rule [Claims.sample_result] on Hpos)
    as (_ & Hphoto & _ & _ & Hon & _).
  destruct (unmasked_alert_rule [Claims.sample_result] none Hpos)
    as (_ & _ & _ & Hnone & _ & _).
  split; [split; [exact Hcam | exact (Hquiet eq_refl)]|].
  split; [exact (Hphoto Claims.sample_result eq_refl)|].
  split; [exact (Hmon "10:15:00" false eq_refl)|].
  split; [exact (Hnone "10:15:00" eq_refl)|].
  split; [apply Hon; discriminate | exact (Hoff eq_refl)].
Defined.

(** C4, the claim as stated fails: in upload mode with the sound checkbox
    unchecked, a batch with an unmasked person raises no alert at all and
    plays no sound; and in monitoring mode on a page without the checkbox
    nothing is raised either. *)
Lemma upload_alert_suppressed :
  0 < withoutMask (ScriptWithApi.batch_stats [Claims.sample_result])
  /\ (let p :=
        ScriptWithApi.displayUploadResults [Claims.sample_result]
          (ScriptWithApi.initial (Some false)) in
      ScriptWithApi.alerts p = [] /\ ScriptWithApi.sounds p = 0)
  /\ (let p :=
        ScriptWithApi.page_of
          (ScriptWithApi.displayMonitoringResults "10:15:00" [Claims.sample_result]
             (ScriptWithApi.initial None)) in
      ScriptWithApi.alerts p = [] /\ ScriptWithApi.sounds p = 0).
Proof. vm_compute. split; [lia|]. split; split; reflexivity. Qed.

(** A monitoring capture of the two-detection answer on a fresh page. *)
Example monitoring_capture_folds_in :
  let p :=
    ScriptWithApi.page_of
      (ScriptWithApi.captureMonitoringPhoto_callback "10:15:00" Claims.sample_result
         (ScriptWithApi.initial (Some true))) in
  ScriptWithApi.totalStats p
  = {| withMask := 1; withoutMask := 1; incorrectMask := 0 |}
  /\ ScriptWithApi.captureCount p = 1
  /\ ScriptWithApi.alerts p = [Claims.monitoring_warning 1 "10:15:00"]
  /\ ScriptWithApi.sounds p = 1.
Proof. vm_compute. repeat split. Qed.

(** On a page without the sound checkbox the monitoring view throws while
    reading it, after the totals have been updated and before any alert. *)
Example monitoring_without_checkbox :
  exists error p,
    ScriptWithApi.displayMonitoringResults "10:15:00" [Claims.sample_result]
      (ScriptWithApi.initial None)
    = ScriptWithApi.Throw error p
    /\ ScriptWithApi.alerts p = [].
Proof. eexists _, _. split; reflexivity. Qed.

(** In camera mode the warning is followed at once by the success message
    of [capturePhoto], which takes its place on screen. *)
Example camera_warning_then_success :
  ScriptWithApi.alerts
    (ScriptWithApi.capturePhoto_callback Claims.sample_result
       (ScriptWithApi.initial (Some true)))
  = [ Claims.camera_warning 1;
      {| ScriptWithApi.message := "Photo captured and processed";
         ScriptWithApi.kind := "success" |} ].
Proof. reflexivity. Qed.

(** ** The synthetic detector *)

Section Simulation.

Import Claims Double.

Lemma inject_nat_nonneg (n : nat) : (0 <= inject_Z (Z.of_nat n))%Q.
Proof. unfold Qle; simpl. lia. Qed.

(** *** The operations of the scripts *)

Lemma mul_double a b : is_double a -> is_double b -> mul a b = round (a * b).
Proof.
  intros Ha Hb. unfold mul. apply round_comp.
  unfold is_double in Ha, Hb. rewrite Ha, Hb. reflexivity.
Qed.

Lemma mul_mono a b a' b' :
  (0 <= a)%Q -> (a <= a')%Q -> (0 <= b)%Q -> (b <= b')%Q -> (mul a b <= mul a' b')%Q.
Proof.
  intros Ha Haa Hb Hbb. unfold mul. apply round_le.
  pose proof (round_nonneg a Ha). pose proof (round_nonneg b Hb).
  pose proof (round_le a a' Haa). pose proof (round_le b b' Hbb).
  nra.
Qed.

Lemma mul_nonneg a b : (0 <= a)%Q -> (0 <= b)%Q -> (0 <= mul a b)%Q.
Proof.
  intros Ha Hb. unfold mul. apply round_nonneg.
  pose proof (round_nonneg a Ha). pose proof (round_nonneg b Hb). nra.
Qed.

Lemma add_mono a b a' b' :
  (a <= a')%Q -> (b <= b')%Q -> (add a b <= add a' b')%Q.
Proof.
  intros Ha Hb. unfold add. apply round_le.
  pose proof (round_le a a' Ha). pose proof (round_le b b' Hb). lra.
Qed.

Lemma mul_zero_l a b : (a == 0)%Q -> mul a b = 0%Q.
Proof.
  intros E. unfold mul. rewrite (round_zero a E). apply round_zero. ring.
Qed.

Lemma mul_zero_r a b : (b == 0)%Q -> mul a b = 0%Q.
Proof.
  intros E. unfold mul. rewrite (round_zero b E). apply round_zero. ring.
Qed.

Lemma mul_one_l a : mul 1 a = round a.
Proof.
  unfold mul. rewrite <- (round_idem a) at 2. apply round_comp.
  change (round 1) with 1%Q. ring.
Qed.

Lemma mul_round_l a b : mul (round a) b = mul a b.
Proof. unfold mul. by rewrite round_idem. Qed.

Lemma round_mul a b : round (mul a b) = mul a b.
Proof. apply round_idem. Qed.

Lemma add_zero_r a : add a 0 = round a.
Proof.
  unfold add. rewrite <- (round_idem a) at 2. apply round_comp.
  change (round 0) with 0%Q. ring.
Qed.

Lemma mul_of_double a b : is_double a -> mul a b = round (a * round b).
Proof.
  intros Ha. unfold mul. apply round_comp. unfold is_double in Ha.
  rewrite Ha. reflexivity.
Qed.

(** A size in pixels is a double, and so is its half. *)
Lemma size_is_double (n : nat) :
  (Z.of_nat n < 2 ^ 32)%Z ->
  is_double (inject_Z (Z.of_nat n)) /\ is_double (inject_Z (Z.of_nat n) * 0.5).
Proof.
  intros H. split; [apply is_double_Z | apply is_double_half]; lia.
Qed.

Lemma size_cases (n : nat) :
  (inject_Z (Z.of_nat n) == 0)%Q \/ (1 <= inject_Z (Z.of_nat n))%Q.
Proof.
  destruct n as [|n]; [left; reflexivity | right].
  change 1%Q with (inject_Z 1). rewrite <- Zle_Qle. lia.
Qed.

(** The corner of a fabricated box along one axis of length [s]. *)
Lemma corner_bounds r s :
  (0 <= r)%Q -> (r < 1)%Q -> (0 <= s)%Q -> is_double s -> is_double (s * 0.5) ->
  (0 <= mul (mul r s) 0.5)%Q /\ (mul (mul r s) 0.5 <= 0.5 * s)%Q.
Proof.
  intros H0 H1 Hs Ds Dh. split.
  - apply mul_nonneg; [apply mul_nonneg; assumption | discriminate].
  - apply Qle_trans with (mul (mul 1 s) 0.5).
    + apply mul_mono; [apply mul_nonneg; assumption | | discriminate | apply Qle_refl].
      apply mul_mono; [assumption | lra | assumption | apply Qle_refl].
    + rewrite mul_one_l, mul_round_l.
      rewrite (mul_of_double s 0.5 Ds).
      assert (round 0.5 == 0.5)%Q as E by (vm_compute; reflexivity).
      rewrite (round_comp (s * round 0.5) (s * 0.5)) by (rewrite E; reflexivity).
      unfold is_double in Dh. rewrite Dh. lra.
Qed.

(** The confidence of a fabricated detection. *)
Lemma confidence_bounds r :
  (0 <= r)%Q -> (r < 1)%Q ->
  (0.5 <= add 0.5 (mul r 0.5))%Q /\ (add 0.5 (mul r 0.5) <= 1)%Q.
Proof.
  intros H0 H1. split.
  - apply Qle_trans with (add 0.5 (mul 0 0.5)); [vm_compute; discriminate|].
    apply add_mono; [apply Qle_refl|].
    apply mul_mono; [apply Qle_refl | assumption | discriminate | apply Qle_refl].
  - apply Qle_trans with (add 0.5 (mul 1 0.5)); [|vm_compute; discriminate].
    apply add_mono; [apply Qle_refl|].
    apply mul_mono; [assumption | lra | discriminate | apply Qle_refl].
Qed.

(** The size of a fabricated box along one axis of length [s]: between
    [lo] and [hi] times [s] up to the rounding errors, where [hi] is [lo]
    plus 0.3. *)
Lemma size_bounds r s lo hi :
  (0 <= r)%Q -> (r < 1)%Q -> is_double s -> (s == 0 \/ 1 <= s)%Q ->
  (pow2 (-1022) <= lo)%Q -> (lo <= round lo)%Q ->
  ((round lo + round 0.3) * (1 + pow2 (-53)) * (1 + pow2 (-53))
   <= hi * (1 + slack))%Q ->
  (lo * s * (1 - slack) <= add (mul s lo) (mul (mul r s) 0.3))%Q
  /\ (add (mul s lo) (mul (mul r s) 0.3) <= hi * s * (1 + slack))%Q.
Proof.
  intros H0 H1 Ds [Hs|Hs] Hlo Hup Hhi.
  - rewrite (mul_zero_l s lo Hs), (mul_zero_r r s Hs), (mul_zero_l 0 0.3) by reflexivity.
    change (add 0 0) with 0%Q. rewrite Hs. split; [apply Qle_lteq|apply Qle_lteq]; right; ring.
  - set (u := pow2 (-53)) in *.
    assert (0 < u)%Q as Hu by reflexivity.
    assert (u <= slack)%Q as Hus by (vm_compute; discriminate).
    assert (slack < 1)%Q as Hsl by reflexivity.
    assert (pow2 (-1022) <= round 0.3)%Q as H3 by (vm_compute; discriminate).
    assert (0 < pow2 (-1022))%Q as Hmin by apply pow2_pos.
    set (A := mul s lo).
    assert (A = round (s * round lo)) as EA by apply (mul_of_double s lo Ds).
    assert (pow2 (-1022) <= s * round lo)%Q as HA by nra.
    destruct (round_near (s * round lo) HA) as [A1 A2]. rewrite <- EA in A1, A2.
    set (B1 := mul s 0.3).
    assert (B1 = round (s * round 0.3)) as EB by apply (mul_of_double s 0.3 Ds).
    assert (pow2 (-1022) <= s * round 0.3)%Q as HB by nra.
    destruct (round_near (s * round 0.3) HB) as [B2 B3]. rewrite <- EB in B2, B3.
    fold u in A1, A2, B2, B3.
    split.
    + apply Qle_trans with A.
      { assert (0 <= lo * s)%Q as T0 by nra.
        assert (lo * s <= s * round lo)%Q as T1 by nra.
        assert (u < 1)%Q as Hu1 by reflexivity.
        revert A1 T0 T1. generalize (lo * s)%Q (s * round lo)%Q. intros t t' ? ? ?.
        nra. }
      apply Qle_trans with (add A (mul (mul 0 s) 0.3)).
      * rewrite (mul_zero_l 0 s), (mul_zero_l 0 0.3) by reflexivity.
        rewrite add_zero_r. unfold A. rewrite round_mul. apply Qle_refl.
      * apply add_mono; [apply Qle_refl|].
        apply mul_mono; [apply Qle_refl | | discriminate | apply Qle_refl].
        apply mul_mono; [apply Qle_refl | assumption | lra | apply Qle_refl].
    + apply Qle_trans with (add A B1).
      * apply add_mono; [apply Qle_refl|].
        unfold B1. rewrite <- (mul_round_l s 0.3), <- mul_one_l.
        apply mul_mono; [apply mul_nonneg; lra | | discriminate | apply Qle_refl].
        apply mul_mono; [assumption | lra | lra | apply Qle_refl].
      * unfold add. unfold A at 1, B1 at 1. rewrite !round_mul. fold A B1.
        assert (pow2 (-1022) <= A + B1)%Q as HAB.
        { assert (u < 1)%Q as Hu1 by reflexivity.
          assert (pow2 (-1022) <= round 0.3 * (1 - u))%Q as N
            by (vm_compute; discriminate).
          assert (round 0.3 <= s * round 0.3)%Q as N' by nra.
          revert A1 B2 HA N N'.
          generalize (s * round lo)%Q (s * round 0.3)%Q (round 0.3). intros a b c ? ? ? ? ?.
          nra. }
        destruct (round_near (A + B1) HAB) as [_ C]. fold u in C.
        apply Qle_trans with ((A + B1) * (1 + u))%Q; [exact C|].
        apply Qle_trans with (s * ((round lo + round 0.3) * (1 + u) * (1 + u)))%Q.
        { apply Qle_trans with (s * (round lo + round 0.3) * (1 + u) * (1 + u))%Q;
            [|apply Qle_lteq; right; ring].
          assert (A + B1 <= s * (round lo + round 0.3) * (1 + u))%Q as T by lra.
          assert (0 <= A + B1)%Q as T0 by lra.
          revert T T0. generalize (A + B1)%Q (s * (round lo + round 0.3))%Q.
          intros t t' ? ?. nra. }
        apply Qle_trans with (s * (hi * (1 + slack)))%Q; [|apply Qle_lteq; right; ring].
        apply Qmult_le_l; [lra | exact Hhi].
Qed.


(** *** The class and the number of detections *)

Lemma floor_of_round x lo hi (a b : Z) :
  (lo <= x)%Q -> (x <= hi)%Q ->
  (inject_Z a <= round lo)%Q -> (round hi < inject_Z (b + 1))%Q ->
  (a <= Qfloor (round x) <= b)%Z.
Proof.
  intros Hlo Hhi Ha Hb.
  pose proof (round_le lo x Hlo). pose proof (round_le x hi Hhi).
  pose proof (Qfloor_le (round x)) as Hfl. pose proof (Qlt_floor (round x)) as Hfu.
  assert (a < Qfloor (round x) + 1)%Z by (rewrite Zlt_Qlt; lra).
  assert (Qfloor (round x) < b + 1)%Z by (rewrite Zlt_Qlt; lra).
  lia.
Qed.

Lemma class_of_draw_low r : (r < 1 # 3)%Q -> class_of_draw r = "with_mask".
Proof.
  intros H. unfold class_of_draw.
  destruct (Qle_bool (1 # 3) r) eqn:E; [|reflexivity].
  apply Qle_bool_iff in E. lra.
Qed.

Lemma class_of_draw_mid r :
  (1 # 3 <= r)%Q -> (r < 2 # 3)%Q -> class_of_draw r = "without_mask".
Proof.
  intros H1 H2. unfold class_of_draw.
  rewrite (proj2 (Qle_bool_iff _ _) H1).
  destruct (Qle_bool (2 # 3) r) eqn:E; [|reflexivity].
  apply Qle_bool_iff in E. lra.
Qed.

Lemma class_of_draw_high r :
  (2 # 3 <= r)%Q -> class_of_draw r = "mask_weared_incorrect".
Proof.
  intros H. unfold class_of_draw.
  rewrite (proj2 (Qle_bool_iff _ _) H).
  assert (1 # 3 <= r)%Q as H' by lra.
  by rewrite (proj2 (Qle_bool_iff _ _) H').
Qed.

(** The entry of [classes] a draw selects: the one of the third the draw
    falls in, or the next one for a draw just below the cut, whose triple
    rounds up to the integer. *)
Lemma class_pick r :
  is_double r -> (0 <= r)%Q -> (r < 1)%Q ->
  let c :=
    default "undefined"
      (["with_mask"; "without_mask"; "mask_weared_incorrect"]
         !! Z.to_nat (Qfloor (mul r (inject_Z 3)))) in
  (c = class_of_draw r \/ c = class_of_draw (r + pow2 (-53)))
  /\ known_class c = true.
Proof.
  intros D H0 H1.
  pose proof (below_one r D H1) as Hr.
  assert (is_double (inject_Z 3)) as D3 by (vm_compute; reflexivity).
  rewrite (mul_double r (inject_Z 3) D D3). change (inject_Z 3) with 3%Q.
  assert (inject_Z 0 <= round 0)%Q as G0 by (vm_compute; discriminate).
  assert (inject_Z 1 <= round 1)%Q as G1 by (vm_compute; discriminate).
  assert (inject_Z 2 <= round 2)%Q as G2 by (vm_compute; discriminate).
  assert (round (1 - 3 * pow2 (-53)) < inject_Z (0 + 1))%Q as F1
    by (vm_compute; reflexivity).
  assert (round 1 < inject_Z (1 + 1))%Q as F1' by (vm_compute; reflexivity).
  assert (round (2 - 3 * pow2 (-53)) < inject_Z (1 + 1))%Q as F2
    by (vm_compute; reflexivity).
  assert (round 2 < inject_Z (2 + 1))%Q as F2' by (vm_compute; reflexivity).
  assert (round (3 * (1 - pow2 (-53))) < inject_Z (2 + 1))%Q as F3
    by (vm_compute; reflexivity).
  assert (0 < pow2 (-53))%Q as Hu by reflexivity.
  assert (pow2 (-53) < 1 # 3)%Q as Hu' by reflexivity.
  revert Hr F1 F2 F3 Hu Hu'. generalize (pow2 (-53)). intros u Hr F1 F2 F3 Hu Hu'.
  set (v := Qfloor (round (r * 3))).
  destruct (Qlt_le_dec r ((1 # 3) - u)) as [C1|C1].
  { assert (0 <= v <= 0)%Z as Hv
      by (apply (floor_of_round (r * 3) 0 (1 - 3 * u)); [lra | lra | exact G0 | exact F1]).
    replace v with 0%Z by lia. rewrite class_of_draw_low by lra. simpl.
    split; [by left | reflexivity]. }
  destruct (Qlt_le_dec r (1 # 3)) as [C2|C2].
  { assert (0 <= v <= 1)%Z as Hv
      by (apply (floor_of_round (r * 3) 0 1); [lra | lra | exact G0 | exact F1']).
    destruct (Z.eq_dec v 0%Z) as [E|NE].
    - rewrite E, class_of_draw_low by lra. simpl. split; [by left | reflexivity].
    - replace v with 1%Z by lia. rewrite (class_of_draw_mid (r + u)) by lra. simpl.
      split; [by right | reflexivity]. }
  destruct (Qlt_le_dec r ((2 # 3) - u)) as [C3|C3].
  { assert (1 <= v <= 1)%Z as Hv
      by (apply (floor_of_round (r * 3) 1 (2 - 3 * u)); [lra | lra | exact G1 | exact F2]).
    replace v with 1%Z by lia. rewrite class_of_draw_mid by lra. simpl.
    split; [by left | reflexivity]. }
  destruct (Qlt_le_dec r (2 # 3)) as [C4|C4].
  { assert (1 <= v <= 2)%Z as Hv
      by (apply (floor_of_round (r * 3) 1 2); [lra | lra | exact G1 | exact F2']).
    destruct (Z.eq_dec v 1%Z) as [E|NE].
    - rewrite E, class_of_draw_mid by lra. simpl. split; [by left | reflexivity].
    - replace v with 2%Z by lia. rewrite (class_of_draw_high (r + u)) by lra. simpl.
      split; [by right | reflexivity]. }
  assert (2 <= v <= 2)%Z as Hv
    by (apply (floor_of_round (r * 3) 2 (3 * (1 - u))); [lra | lra | exact G2 | exact F3]).
  replace v with 2%Z by lia. rewrite class_of_draw_high by lra. simpl.
  split; [by left | reflexivity].
Qed.

(** [Math.floor(Math.random() * 4)] is 0, 1, 2 or 3. *)
Lemma count_pick r :
  is_double r -> (0 <= r)%Q -> (r < 1)%Q ->
  (0 <= Qfloor (mul r 4) <= 3)%Z.
Proof.
  intros D H0 H1.
  pose proof (below_one r D H1) as Hr.
  assert (is_double 4) as D4 by (vm_compute; reflexivity).
  rewrite (mul_double r 4 D D4).
  assert (inject_Z 0 <= round 0)%Q as G0 by (vm_compute; discriminate).
  assert (round (4 * (1 - pow2 (-53))) < inject_Z (3 + 1))%Q as F
    by (vm_compute; reflexivity).
  revert Hr F. generalize (pow2 (-53)). intros u Hr F.
  apply (floor_of_round (r * 4) 0 (4 * (1 - u))); [lra | lra | exact G0 | exact F].
Qed.

Variable src : Random.Source.
Hypothesis src_unit : Random.in_unit_interval src.
Variable img : Image.t.

(** *** The loop body *)

(** The loop body of script_with_api.js, with its six draws written out. *)
Lemma api_simulate_one_eq n :
  ScriptWithApi.simulate_one img src n
  = (let w := inject_Z (Z.of_nat (Image.width img)) in
     let h := inject_Z (Z.of_nat (Image.height img)) in
     {| class :=
          default "undefined"
            (["with_mask"; "without_mask"; "mask_weared_incorrect"]
               !! Z.to_nat (Qfloor (mul (src n) (inject_Z 3))));
        confidence := add 0.5 (mul (src (S n)) 0.5);
        bbox :=
          {| x := mul (mul (src (S (S n))) w) 0.5;
             y := mul (mul (src (S (S (S n)))) h) 0.5;
             width := add (mul w 0.1) (mul (mul (src (S (S (S (S n))))) w) 0.3);
             height :=
               add (mul h 0.1) (mul (mul (src (S (S (S (S (S n)))))) h) 0.3) |} |},
     6 + n).
Proof. reflexivity. Qed.

(** The loop body of script.js. *)
Lemma script_simulate_one_eq n :
  Script.simulate_one img src n
  = (let w := inject_Z (Z.of_nat (Image.width img)) in
     let h := inject_Z (Z.of_nat (Image.height img)) in
     {| class :=
          default "undefined"
            (["with_mask"; "without_mask"; "mask_weared_incorrect"]
               !! Z.to_nat (Qfloor (mul (src n) (inject_Z 3))));
        confidence := add 0.5 (mul (src (S n)) 0.5);
        bbox :=
          {| x := mul (mul (src (S (S n))) w) 0.5;
             y := mul (mul (src (S (S (S n)))) h) 0.5;
             width := add (mul w 0.2) (mul (mul (src (S (S (S (S n))))) w) 0.3);
             height :=
               add (mul h 0.2) (mul (mul (src (S (S (S (S (S n)))))) h) 0.3) |} |},
     6 + n).
Proof. reflexivity. Qed.

(** The class of a fabricated detection, the same in both scripts. *)
Lemma simulate_class n :
  let c := class (fst (ScriptWithApi.simulate_one img src n)) in
  class (fst (Script.simulate_one img src n)) = c
  /\ (c = class_of_draw (src n) \/ c = class_of_draw (src n + pow2 (-53))%Q)
  /\ known_class c = true.
Proof.
  rewrite api_simulate_one_eq, script_simulate_one_eq. cbn [fst class].
  split; [reflexivity|].
  destruct (src_unit n) as (D & H0 & H1). apply class_pick; assumption.
Qed.

(** One fabricated detection of either script, whose sizes start at [lo]
    times the image's. *)
Lemma simulate_within lo hi (r_conf r_x r_y r_w r_h : Q) c :
  let W := inject_Z (Z.of_nat (Image.width img)) in
  let H := inject_Z (Z.of_nat (Image.height img)) in
  sized img ->
  known_class c = true ->
  (0 <= r_conf < 1)%Q -> (0 <= r_x < 1)%Q -> (0 <= r_y < 1)%Q ->
  (0 <= r_w < 1)%Q -> (0 <= r_h < 1)%Q ->
  (pow2 (-1022) <= lo)%Q -> (lo <= round lo)%Q ->
  ((round lo + round 0.3) * (1 + pow2 (-53)) * (1 + pow2 (-53))
   <= hi * (1 + slack))%Q ->
  within lo hi img
    {| class := c;
       confidence := add 0.5 (mul r_conf 0.5);
       bbox := {| x := mul (mul r_x W) 0.5;
                  y := mul (mul r_y H) 0.5;
                  width := add (mul W lo) (mul (mul r_w W) 0.3);
                  height := add (mul H lo) (mul (mul r_h H) 0.3) |} |}.
Proof.
  intros W H [SW SH] Hc [? ?] [? ?] [? ?] [? ?] [? ?] L1 L2 L3.
  pose proof (inject_nat_nonneg (Image.width img)) as HW.
  pose proof (inject_nat_nonneg (Image.height img)) as HH.
  destruct (size_is_double _ SW) as [DW DW'].
  destruct (size_is_double _ SH) as [DH DH'].
  fold W in HW, DW, DW'. fold H in HH, DH, DH'.
  destruct (confidence_bounds r_conf) as [? ?]; [assumption..|].
  destruct (corner_bounds r_x W) as [? ?]; [assumption..|].
  destruct (corner_bounds r_y H) as [? ?]; [assumption..|].
  destruct (size_bounds r_w W lo hi) as [? ?];
    [assumption | assumption | assumption | apply size_cases | assumption..|].
  destruct (size_bounds r_h H lo hi) as [? ?];
    [assumption | assumption | assumption | apply size_cases | assumption..|].
  unfold within. cbn [class confidence bbox x y width height]. fold W H.
  repeat split; try assumption; lra.
Qed.

Lemma api_simulate_one n :
  sized img -> within 0.1 0.4 img (fst (ScriptWithApi.simulate_one img src n)).
Proof.
  intros Hsized. destruct (simulate_class n) as (_ & _ & Hc). revert Hc.
  rewrite api_simulate_one_eq. cbn [fst class]. intros Hc.
  destruct (src_unit (S n)) as (_ & ? & ?), (src_unit (S (S n))) as (_ & ? & ?),
    (src_unit (S (S (S n)))) as (_ & ? & ?),
    (src_unit (S (S (S (S n))))) as (_ & ? & ?),
    (src_unit (S (S (S (S (S n)))))) as (_ & ? & ?).
  apply simulate_within; try (split; assumption); try assumption;
    vm_compute; discriminate.
Qed.

Lemma script_simulate_one n :
  sized img -> within 0.2 0.5 img (fst (Script.simulate_one img src n)).
Proof.
  intros Hsized. destruct (simulate_class n) as (E & _ & Hc). rewrite <- E in Hc.
  revert Hc. rewrite script_simulate_one_eq. cbn [fst class]. intros Hc.
  destruct (src_unit (S n)) as (_ & ? & ?), (src_unit (S (S n))) as (_ & ? & ?),
    (src_unit (S (S (S n)))) as (_ & ? & ?),
    (src_unit (S (S (S (S n))))) as (_ & ? & ?),
    (src_unit (S (S (S (S (S n)))))) as (_ & ? & ?).
  apply simulate_within; try (split; assumption); try assumption;
    vm_compute; discriminate.
Qed.

(** *** The loops *)

Lemma api_simulate_loop (P : Detection -> Prop) :
  (forall n, P (fst (ScriptWithApi.simulate_one img src n))) ->
  forall k n acc,
    Forall P acc ->
    Forall P (fst (ScriptWithApi.simulate_loop img k acc src n))
    /\ length (fst (ScriptWithApi.simulate_loop img k acc src n)) = length acc + k.
Proof.
  intros HP. induction k as [|k IH]; intros n acc Hacc.
  - simpl. split; [exact Hacc | lia].
  - change (ScriptWithApi.simulate_loop img (S k) acc src n)
      with (let '(d, n') := ScriptWithApi.simulate_one img src n in
            ScriptWithApi.simulate_loop img k (acc ++ [d])%list src n').
    pose proof (HP n) as Hd.
    destruct (ScriptWithApi.simulate_one img src n) as [d n']. simpl in Hd.
    destruct (IH n' (acc ++ [d])%list) as [HF HL].
    { apply Forall_app. split; [exact Hacc | by constructor]. }
    split; [exact HF|]. rewrite HL, length_app. simpl. lia.
Qed.

Lemma api_simulate_all (P : Detection -> Prop) n :
  (forall n, P (fst (ScriptWithApi.simulate_one img src n))) ->
  1 <= length (Random.run (ScriptWithApi.simulateYOLODetection img) src n) <= 4
  /\ Forall P (Random.run (ScriptWithApi.simulateYOLODetection img) src n).
Proof.
  intros HP. unfold Random.run.
  change (ScriptWithApi.simulateYOLODetection img src n)
    with (ScriptWithApi.simulate_loop img
            (Z.to_nat (Qfloor (mul (src n) 4) + 1)) [] src (S n)).
  destruct (src_unit n) as (D & H0 & H1).
  pose proof (count_pick (src n) D H0 H1) as Hfloor.
  destruct (api_simulate_loop P HP (Z.to_nat (Qfloor (mul (src n) 4) + 1)) (S n) [])
    as [HF HL]; [constructor|].
  split; [|exact HF]. rewrite HL. simpl length. lia.
Qed.

(** The fallback detector: between one and four detections, each of a
    known class. *)
Lemma api_simulate_detector n :
  1 <= length (Random.run (ScriptWithApi.simulateYOLODetection img) src n) <= 4
  /\ Forall (fun d => known_class (class d) = true)
       (Random.run (ScriptWithApi.simulateYOLODetection img) src n).
Proof.
  apply api_simulate_all. intros k. apply (simulate_class k).
Qed.

Lemma script_simulate_loop (P : Detection -> Prop) :
  (forall n, P (fst (Script.simulate_one img src n))) ->
  forall k n acc,
    Forall P acc ->
    Forall P (fst (Script.simulate_loop img k acc src n))
    /\ length (fst (Script.simulate_loop img k acc src n)) = length acc + k.
Proof.
  intros HP. induction k as [|k IH]; intros n acc Hacc.
  - simpl. split; [exact Hacc | lia].
  - change (Script.simulate_loop img (S k) acc src n)
      with (let '(d, n') := Script.simulate_one img src n in
            Script.simulate_loop img k (acc ++ [d])%list src n').
    pose proof (HP n) as Hd.
    destruct (Script.simulate_one img src n) as [d n']. simpl in Hd.
    destruct (IH n' (acc ++ [d])%list) as [HF HL].
    { apply Forall_app. split; [exact Hacc | by constructor]. }
    split; [exact HF|]. rewrite HL, length_app. simpl. lia.
Qed.

Lemma script_simulate_all (P : Detection -> Prop) n :
  (forall n, P (fst (Script.simulate_one img src n))) ->
  1 <= length (Random.run (Script.simulateYOLODetection img) src n) <= 4
  /\ Forall P (Random.run (Script.simulateYOLODetection img) src n).
Proof.
  intros HP. unfold Random.run.
  change (Script.simulateYOLODetection img src n)
    with (Script.simulate_loop img
            (Z.to_nat (Qfloor (mul (src n) 4) + 1)) [] src (S n)).
  destruct (src_unit n) as (D & H0 & H1).
  pose proof (count_pick (src n) D H0 H1) as Hfloor.
  destruct (script_simulate_loop P HP (Z.to_nat (Qfloor (mul (src n) 4) + 1)) (S n) [])
    as [HF HL]; [constructor|].
  split; [|exact HF]. rewrite HL. simpl length. lia.
Qed.

End Simulation.

(** C6 (as amended).  With [Math.random()] delivering doubles in [0, 1)
    and an image whose sides are below 2^32, both synthetic detectors
    fabricate between 1 and 4 detections per call.  Each has one of the
    three known classes: the one of the third of the unit interval the draw
    falls in or, for a draw less than 2^-53 below a cut, the next one.  The
    confidence lies in [0.5, 1] and the corner within half (hence within
    three quarters) of the image along each axis.  The fallback detector
    of script_with_api.js sizes the box between 10% and 40% of the image
    per axis, the detector of script.js between 20% and 50%, both up to
    the rounding of the three double operations involved (a relative error
    of at most 2^-51). *)
Theorem synthetic_detector_bounds (src : Random.Source) (img : Image.t) (n : nat) :
  Random.in_unit_interval src ->
  Claims.sized img ->
  let fallback := Random.run (ScriptWithApi.simulateYOLODetection img) src n in
  let standalone := Random.run (Script.simulateYOLODetection img) src n in
  (1 <= length fallback <= 4 /\ Forall (Claims.within 0.1 0.4 img) fallback)
  /\ (1 <= length standalone <= 4 /\ Forall (Claims.within 0.2 0.5 img) standalone)
  /\ (forall k,
        let c := class (fst (ScriptWithApi.simulate_one img src k)) in
        class (fst (Script.simulate_one img src k)) = c
        /\ (c = Claims.class_of_draw (src k)
            \/ c = Claims.class_of_draw (src k + Double.pow2 (-53))%Q)).
Proof.
  intros Hsrc Hsized fallback standalone.
  split.
  { apply (api_simulate_all src Hsrc). intros k.
    apply (api_simulate_one src Hsrc img k Hsized). }
  split.
  { apply (script_simulate_all src Hsrc). intros k.
    apply (script_simulate_one src Hsrc img k Hsized). }
  intros k c. destruct (simulate_class src Hsrc img k) as (E & Hc & _).
  split; [exact E | exact Hc].
Qed.

(** The bounds for a source that always draws one half, on a 640 x 480
    image. *)
Lemma synthetic_detector_bounds_witness :
  let img := {| Image.width := 640; Image.height := 480 |} in
  Random.in_unit_interval (fun _ => 0.5%Q)
  /\ Claims.sized img
  /\ 1 <= length
            (Random.run (ScriptWithApi.simulateYOLODetection img) (fun _ => 0.5%Q) 0)
       <= 4
  /\ Forall (Claims.within 0.1 0.4 img)
       (Random.run (ScriptWithApi.simulateYOLODetection img) (fun _ => 0.5%Q) 0).
Proof.
  intros img.
  assert (Random.in_unit_interval (fun _ => 0.5%Q)) as Hsrc.
  { intros k. split; [vm_compute; reflexivity|]. split; [discriminate | reflexivity]. }
  assert (Claims.sized img) as Hsized by (split; reflexivity).
  split; [exact Hsrc|]. split; [exact Hsized|].
  apply (synthetic_detector_bounds (fun _ => 0.5%Q) img 0 Hsrc Hsized).
Defined.

(** C6, the claim as stated fails.  In script.js: with every draw equal
    to the double 0.9 on a 100 x 100 image the fabricated boxes are 47
    wide, above 40% of the image width.  In script_with_api.js: with every
    draw equal to 0 on an image 43 wide the boxes are narrower than 4.3,
    10% of the image width, because the product 43 * 0.1 rounds down.  And
    the draw 0x1.5555555555555p-1, below two thirds, selects the third
    class, because its triple rounds up to 2. *)
Lemma sizes_outside_ten_to_forty_percent :
  (let src : Random.Source := fun _ => Double.round 0.9 in
   let img := {| Image.width := 100; Image.height := 100 |} in
   Random.in_unit_interval src
   /\ exists d rest,
        Random.run (Script.simulateYOLODetection img) src 0 = d :: rest
        /\ (width (bbox d) == 47)%Q /\ (0.4 * 100 < width (bbox d))%Q)
  /\ (let src : Random.Source := fun _ => 0%Q in
      let img := {| Image.width := 43; Image.height := 43 |} in
      Random.in_unit_interval src
      /\ exists d rest,
           Random.run (ScriptWithApi.simulateYOLODetection img) src 0 = d :: rest
           /\ (width (bbox d) < 0.1 * 43)%Q)
  /\ (let r := (inject_Z 6004799503160661 * Double.pow2 (-53))%Q in
      let src : Random.Source := fun _ => r in
      let img := {| Image.width := 100; Image.height := 100 |} in
      Random.in_unit_interval src
      /\ (r < 2 # 3)%Q
      /\ Claims.class_of_draw r = "without_mask"
      /\ class (fst (ScriptWithApi.simulate_one img src 0)) = "mask_weared_incorrect").
Proof.
  split; [|split].
  - intros src img. split.
    + intros k. split; [vm_compute; reflexivity|].
      split; [vm_compute; discriminate | vm_compute; reflexivity].
    + eexists _, _. split; [vm_compute; reflexivity|].
      split; [vm_compute; reflexivity | vm_compute; reflexivity].
  - intros src img. split.
    + intros k. split; [vm_compute; reflexivity|].
      split; [discriminate | reflexivity].
    + eexists _, _. split; [vm_compute; reflexivity|]. vm_compute. reflexivity.
  - intros r src img. split.
    + intros k. split; [vm_compute; reflexivity|].
      split; [vm_compute; discriminate | vm_compute; reflexivity].
    + split; [vm_compute; reflexivity|]. split; vm_compute; reflexivity.
Qed.

(** ** The detection client *)

Section DetectionClient.

Import ScriptWithApi Claims.

(** Sequencing in the random-source monad. *)
Lemma run_bind {A B} (m : Random.M A) (k : A -> Random.M B) src n :
  (m ≫= k) src n = k (m src n).1 src (m src n).2.
Proof.
  unfold mbind, random_bind, Random.bind. by destruct (m src n).
Qed.

(** The instrumentation wrapper hands on whatever the wrapped function
    delivers. *)
Lemma detect_unwrapped b elapsed m calls file :
  detect b elapsed m calls file
  = Random.run (originalProcessImageWithAPI b file) (random_source b) calls.
Proof.
  unfold detect, Random.run, processImageWithAPI. rewrite run_bind.
  by destruct (originalProcessImageWithAPI b file (random_source b) calls)
    as [[r|e|] n'].
Qed.

(** The [try] block throws exactly when the service call fails. *)
Lemma try_api_throws b file :
  service_fails b file = true -> exists e, try_api b file = inl e.
Proof.
  unfold service_fails, try_api.
  destruct (fetch_detect b file) as [msg | ok status body]; [eauto|].
  destruct ok; simpl; [|eauto].
  destruct body as [| | |data]; [eauto | eauto | eauto |].
  destruct (default false (Api.success data)); simpl; [discriminate | eauto].
Qed.

Lemma try_api_returns b file :
  service_fails b file = false ->
  exists status data,
    fetch_detect b file = Api.Response true status (Api.JsonObject data)
    /\ Api.success data = Some true
    /\ try_api b file
       = inr {| file := file;
                detections := Api.detections data;
                stats := Api.stats data;
                resultImage := Api.result_image data;
                totalDetections := Api.total_detections data |}.
Proof.
  unfold service_fails, try_api.
  destruct (fetch_detect b file) as [msg | ok status body]; [discriminate|].
  destruct ok; simpl; [|discriminate].
  destruct body as [| | |data]; [discriminate | discriminate | discriminate |].
  destruct (Api.success data) as [[]|] eqn:E; simpl; [|discriminate..].
  intros _. exists status, data. by rewrite E.
Qed.

(** The synthetic path, written out for a file that decodes. *)
Lemma simulation_resolves b file img calls :
  decoded file = Some img ->
  let D := Random.run (simulateYOLODetection img) (random_source b) calls in
  exists url,
    fallback b calls file
    = JS.Resolved {| file := file;
                     detections := Some D;
                     stats := Some (calculateStatsFromDetections D);
                     resultImage := Some url;
                     totalDetections := Some (length D) |}.
Proof.
  intros Himg D. unfold fallback, processImageSimulation, Random.run.
  rewrite Himg.
  rewrite run_bind. subst D. unfold Random.run.
  destruct (simulateYOLODetection img (random_source b) calls) as [detections n'].
  simpl. eauto.
Qed.

Lemma simulation_never_rejects b file calls e :
  fallback b calls file <> JS.Rejected e.
Proof.
  destruct (decoded file) as [img|] eqn:Himg.
  - destruct (simulation_resolves b file img calls Himg) as [url E].
    rewrite E. discriminate.
  - unfold fallback, processImageSimulation. rewrite Himg. discriminate.
Qed.

Lemma detect_on_failure b elapsed m calls file :
  service_fails b file = true ->
  detect b elapsed m calls file = fallback b calls file.
Proof.
  intros Hfail. rewrite detect_unwrapped.
  destruct (try_api_throws b file Hfail) as [e He].
  unfold originalProcessImageWithAPI, fallback. by rewrite He.
Qed.

Lemma detect_on_success b elapsed m calls file :
  service_fails b file = false ->
  exists status data,
    fetch_detect b file = Api.Response true status (Api.JsonObject data)
    /\ Api.success data = Some true
    /\ detect b elapsed m calls file
       = JS.Resolved {| file := file;
                        detections := Api.detections data;
                        stats := Api.stats data;
                        resultImage := Api.result_image data;
                        totalDetections := Api.total_detections data |}.
Proof.
  intros Hok. rewrite detect_unwrapped.
  destruct (try_api_returns b file Hok) as (status & data & Hf & Hs & Ht).
  exists status, data. repeat split; try assumption.
  unfold originalProcessImageWithAPI. by rewrite Ht.
Qed.

End DetectionClient.

(** C5 (as amended).  [processImageWithAPI] never rejects.  When the service
    call fails (network error, non-success status, a body that is not a
    JSON object, or an object without [success: true]) it delivers what
    the synthetic path delivers, which is a result whenever the file
    decodes as an image.  When the response says [success: true] it is
    returned as the real result even if other fields are missing: those
    fields are then undefined in the result and no fallback takes place. *)
Theorem detect_absorbs_failures b elapsed m calls file :
  (forall e, Claims.detect b elapsed m calls file <> JS.Rejected e)
  /\ (Claims.service_fails b file = true ->
      Claims.detect b elapsed m calls file = Claims.fallback b calls file
      /\ forall img, decoded file = Some img ->
           exists r, Claims.detect b elapsed m calls file = JS.Resolved r)
  /\ (Claims.service_fails b file = false ->
      exists status data,
        fetch_detect b file = Api.Response true status (Api.JsonObject data)
        /\ Api.success data = Some true
        /\ Claims.detect b elapsed m calls file
           = JS.Resolved
               {| ScriptWithApi.file := file;
                  ScriptWithApi.detections := Api.detections data;
                  ScriptWithApi.stats := Api.stats data;
                  ScriptWithApi.resultImage := Api.result_image data;
                  ScriptWithApi.totalDetections := Api.total_detections data |}).
Proof.
  split; [|split].
  - intros e. destruct (Claims.service_fails b file) eqn:Hf.
    + rewrite detect_on_failure by exact Hf. apply simulation_never_rejects.
    + destruct (detect_on_success b elapsed m calls file Hf)
        as (status & data & _ & _ & E).
      rewrite E. discriminate.
  - intros Hf. split; [by apply detect_on_failure|].
    intros img Himg. rewrite detect_on_failure by exact Hf.
    destruct (simulation_resolves b file img calls Himg) as [url E].
    rewrite E. eauto.
  - apply detect_on_success.
Qed.

(** An unreachable service, and a service that answers [{ success: true }]. *)
Lemma detect_absorbs_failures_witness :
  Claims.service_fails Claims.offline Claims.sample_file = true
  /\ Claims.detect Claims.offline 12%Q Claims.no_metrics 0 Claims.sample_file
     = Claims.fallback Claims.offline 0 Claims.sample_file
  /\ (exists r,
        Claims.detect Claims.offline 12%Q Claims.no_metrics 0 Claims.sample_file
        = JS.Resolved r)
  /\ Claims.service_fails (Claims.answering Claims.success_only) Claims.sample_file
     = false
  /\ (exists r,
        Claims.detect (Claims.answering Claims.success_only) 12%Q Claims.no_metrics
          0 Claims.sample_file
        = JS.Resolved r).
Proof.
  destruct (detect_absorbs_failures Claims.offline 12%Q Claims.no_metrics 0
              Claims.sample_file) as (_ & Hfail & _).
  destruct (detect_absorbs_failures (Claims.answering Claims.success_only) 12%Q
              Claims.no_metrics 0 Claims.sample_file) as (_ & _ & Hok).
  destruct (Hfail eq_refl) as [Hsame Hres].
  destruct (Hok eq_refl) as (status & data & _ & _ & Hreal).
  split; [reflexivity|]. split; [exact Hsame|].
  split; [exact (Hres _ eq_refl)|].
  split; [reflexivity|]. eexists. exact Hreal.
Defined.

(** C5, the claim as stated fails: a 200 response that says
    [success: true] but lacks every other field is not treated as a
    failure; the caller receives a result without detections instead of the
    fallback result. *)
Lemma missing_fields_not_absorbed :
  let b := Claims.answering Claims.success_only in
  Claims.detect b 12%Q Claims.no_metrics 0 Claims.sample_file
  = JS.Resolved
      {| ScriptWithApi.file := Claims.sample_file;
         ScriptWithApi.detections := None;
         ScriptWithApi.stats := None;
         ScriptWithApi.resultImage := None;
         ScriptWithApi.totalDetections := None |}
  /\ Claims.detect b 12%Q Claims.no_metrics 0 Claims.sample_file
     <> Claims.fallback b 0 Claims.sample_file.
Proof.
  intros b.
  assert (Claims.detect b 12%Q Claims.no_metrics 0 Claims.sample_file
          = JS.Resolved
              {| ScriptWithApi.file := Claims.sample_file;
                 ScriptWithApi.detections := None;
                 ScriptWithApi.stats := None;
                 ScriptWithApi.resultImage := None;
                 ScriptWithApi.totalDetections := None |}) as E
    by reflexivity.
  split; [exact E|]. rewrite E.
  destruct (simulation_resolves b Claims.sample_file _ 0 eq_refl) as [url Hs].
  rewrite Hs. intros C. inversion C.
Qed.

(** C1 (as amended).  When the service call fails, the file decodes and
    [Math.random()] stays in [0, 1), the caller receives a result holding
    between 1 and 4 fabricated detections, their class counts, a rendered
    image and the number of detections.  The result has the same five
    fields as a real one and nothing that tells the two apart: a service
    answering with the same values makes [processImageWithAPI] return the
    identical object. *)
Theorem fallback_result_shape b elapsed m calls file img :
  Claims.service_fails b file = true ->
  decoded file = Some img ->
  Random.in_unit_interval (random_source b) ->
  exists D url,
    let r :=
      {| ScriptWithApi.file := file;
         ScriptWithApi.detections := Some D;
         ScriptWithApi.stats := Some (ScriptWithApi.calculateStatsFromDetections D);
         ScriptWithApi.resultImage := Some url;
         ScriptWithApi.totalDetections := Some (length D) |} in
    Claims.detect b elapsed m calls file = JS.Resolved r
    /\ D = Random.run (ScriptWithApi.simulateYOLODetection img) (random_source b) calls
    /\ 1 <= length D <= 4
    /\ forall b' status,
         fetch_detect b' file
         = Api.Response true status (Api.JsonObject (Claims.echo r)) ->
         Claims.detect b' elapsed m calls file = JS.Resolved r.
Proof.
  intros Hfail Himg Hsrc.
  destruct (simulation_resolves b file img calls Himg) as [url E].
  eexists _, url. simpl.
  rewrite detect_on_failure by exact Hfail.
  split; [exact E|]. split; [reflexivity|].
  split; [apply api_simulate_detector; exact Hsrc|].
  intros b' status Hfetch.
  assert (Claims.service_fails b' file = false) as Hok.
  { unfold Claims.service_fails. by rewrite Hfetch. }
  destruct (detect_on_success b' elapsed m calls file Hok)
    as (status' & data & Hf & _ & Hd).
  rewrite Hfetch in Hf. injection Hf as _ <-. exact Hd.
Qed.

(** The fallback result for the sample file when the service is
    unreachable. *)
Lemma fallback_result_shape_witness :
  Claims.service_fails Claims.offline Claims.sample_file = true
  /\ decoded Claims.sample_file = Some {| Image.width := 640; Image.height := 480 |}
  /\ Random.in_unit_interval (random_source Claims.offline)
  /\ exists D url,
       Claims.detect Claims.offline 12%Q Claims.no_metrics 0 Claims.sample_file
       = JS.Resolved
           {| ScriptWithApi.file := Claims.sample_file;
              ScriptWithApi.detections := Some D;
              ScriptWithApi.stats :=
                Some (ScriptWithApi.calculateStatsFromDetections D);
              ScriptWithApi.resultImage := Some url;
              ScriptWithApi.totalDetections := Some (length D) |}
       /\ 1 <= length D <= 4.
Proof.
  assert (Random.in_unit_interval (random_source Claims.offline)) as Hsrc.
  { intros k. split; [vm_compute; reflexivity|]. split; [discriminate | reflexivity]. }
  split; [reflexivity|]. split; [reflexivity|]. split; [exact Hsrc|].
  destruct (fallback_result_shape Claims.offline 12%Q Claims.no_metrics 0
              Claims.sample_file _ eq_refl eq_refl Hsrc)
    as (D & url & E & _ & HL & _).
  exists D, url. split; [exact E | exact HL].
Defined.

(** C1, the claim as stated fails: no test on the returned object can tell
    every fallback result from every real one, because one and the same
    object is returned on both paths. *)
Lemma fallback_result_carries_no_marker :
  ~ exists marker : ScriptWithApi.DetectionResult -> bool,
      (forall b elapsed m calls file r,
         Claims.service_fails b file = true ->
         Claims.detect b elapsed m calls file = JS.Resolved r ->
         marker r = true)
      /\ (forall b elapsed m calls file r,
            Claims.service_fails b file = false ->
            Claims.detect b elapsed m calls file = JS.Resolved r ->
            marker r = false).
Proof.
  intros (marker & Hsynthetic & Hreal).
  assert (marker Claims.synthetic_result = true) as Ht.
  { apply (Hsynthetic Claims.offline 12%Q Claims.no_metrics 0 Claims.sample_file).
    - reflexivity.
    - vm_compute. reflexivity. }
  assert (marker Claims.synthetic_result = false) as Hf.
  { apply (Hreal (Claims.answering (Claims.echo Claims.synthetic_result)) 12%Q
             Claims.no_metrics 0 Claims.sample_file).
    - reflexivity.
    - vm_compute. reflexivity. }
  congruence.
Qed.

(** ** The monitoring scheduler *)

Section Scheduler.

Import Monitoring Claims.

Lemma run_app (es1 es2 : list Event) s :
  run (es1 ++ es2) s = run es2 (run es1 s).
Proof. unfold run. apply fold_left_app. Qed.

Lemma ticks_add a b : ticks (a + b) = (ticks a ++ ticks b)%list.
Proof. unfold ticks. apply repeat_app. Qed.

(** Handles that are not live do nothing when their turn comes. *)
Lemma fire_dead_handles (hs : list nat) s :
  Forall (fun h => intervals s !! h = None) hs ->
  fold_left fire_interval hs s = s.
Proof.
  induction 1 as [|h hs Hh _ IH]; simpl; [reflexivity|].
  unfold fire_interval at 2. by rewrite Hh.
Qed.

Lemma fire_only_live_handle h s :
  (forall i, i < h -> intervals s !! i = None) ->
  fold_left fire_interval (seq 0 (S h)) s = fire_interval s h.
Proof.
  intros Hdead. rewrite seq_S, fold_left_app. simpl.
  rewrite fire_dead_handles; [reflexivity|].
  apply Forall_forall. intros i Hi. apply Hdead.
  apply list_elem_of_In, in_seq in Hi. lia.
Qed.

Ltac project :=
  cbn [monitoringActive monitoringCountdown intervals timeouts next_handle
       nextCaptureTime clock captures in_flight page countdown intervalSeconds
       negb fst snd map fold_left app
       set_display set_timers set_active set_page clearInterval
       captureMonitoringPhoto].

Lemma tick_counting seconds h c t text cs f p :
  (0 < c)%Z ->
  tick (counting seconds h c t text cs f p)
  = counting seconds h (c - 1) (S t) (pretty c ++ "s") cs f p.
Proof.
  intros Hc. unfold tick, counting. project.
  rewrite !filter_nil. project.
  rewrite fire_only_live_handle.
  2:{ intros i Hi. project. apply lookup_singleton_ne. lia. }
  unfold fire_interval. project.
  rewrite lookup_singleton_eq.
  unfold updateCountdown. project.
  assert ((c <=? 0)%Z = false) as -> by lia.
  assert ((0 <? c)%Z = true) as -> by lia.
  project. rewrite lookup_singleton_eq.
  project. rewrite insert_singleton_eq. reflexivity.
Qed.

Lemma tick_fire seconds h c t text cs f p :
  (c <= 0)%Z ->
  tick (counting seconds h c t text cs f p)
  = waiting seconds h 2 (S t) (cs ++ [S t]) (S f) p.
Proof.
  intros Hc. unfold tick, counting, waiting. project.
  rewrite !filter_nil. project.
  rewrite fire_only_live_handle.
  2:{ intros i Hi. project. apply lookup_singleton_ne. lia. }
  unfold fire_interval. project.
  rewrite lookup_singleton_eq.
  unfold updateCountdown. project.
  assert ((c <=? 0)%Z = true) as -> by lia.
  assert ((0 <? c)%Z = false) as -> by lia.
  project. rewrite delete_singleton_eq. project. rewrite lookup_empty.
  reflexivity.
Qed.

Lemma tick_waiting seconds h t cs f p :
  tick (waiting seconds h 2 t cs f p) = waiting seconds h 1 (S t) cs f p.
Proof.
  unfold tick, waiting. project.
  rewrite fire_dead_handles; [reflexivity|].
  apply Forall_forall. intros i _. apply lookup_empty.
Qed.

Lemma tick_reschedule seconds h t cs f p :
  (0 < seconds)%Z ->
  tick (waiting seconds h 1 t cs f p)
  = counting seconds (S h) (seconds - 1) (S t) (pretty seconds ++ "s") cs f p.
Proof.
  intros Hs. unfold tick, waiting, counting. project.
  change (filter (fun t : nat * Z => (t.1 <=? 1)%nat) [(1, seconds)])
    with [(1, seconds)].
  change (filter (fun t : nat * Z => negb (t.1 <=? 1)%nat) [(1, seconds)])
    with (@nil (nat * Z)).
  project.
  unfold scheduleNextCapture, updateCountdown. project.
  assert ((seconds <=? 0)%Z = false) as -> by lia.
  assert ((0 <? seconds)%Z = true) as -> by lia.
  project. rewrite insert_empty.
  rewrite fire_dead_handles; [reflexivity|].
  apply Forall_forall. intros i Hi. project.
  apply list_elem_of_In, in_seq in Hi.
  apply lookup_singleton_ne. lia.
Qed.

(** Nothing is left to fire once every timer is gone. *)
Lemma tick_stopped n t cs f p :
  tick (stopped n t cs f p) = stopped n (S t) cs f p.
Proof.
  unfold tick, stopped. project. rewrite !filter_nil. project.
  rewrite fire_dead_handles; [reflexivity|].
  apply Forall_forall. intros i _. apply lookup_empty.
Qed.

Lemma stop_counting seconds h c t text cs f p :
  stopMonitoring (counting seconds h c t text cs f p)
  = stopped (S h) t cs f (ScriptWithApi.showAlert "Monitoring stopped" "info" p).
Proof.
  unfold stopMonitoring, counting, stopped. project.
  rewrite delete_singleton_eq. reflexivity.
Qed.

Lemma start_counting checkbox seconds :
  (0 < seconds)%Z ->
  startMonitoring true seconds (Monitoring.initial checkbox)
  = counting seconds 1 (seconds - 1) 0 (pretty seconds ++ "s") [] 0
      (started_page checkbox).
Proof.
  intros Hs. unfold startMonitoring, Monitoring.initial, counting. project.
  unfold scheduleNextCapture, updateCountdown. project.
  assert ((seconds <=? 0)%Z = false) as -> by lia.
  assert ((0 <? seconds)%Z = true) as -> by lia.
  project. rewrite insert_empty. reflexivity.
Qed.

(** While the countdown lasts, ticks only count down. *)
Lemma ticks_counting seconds h k : forall c t text cs f p,
  (Z.of_nat k <= c)%Z ->
  exists text',
    run (ticks k) (counting seconds h c t text cs f p)
    = counting seconds h (c - Z.of_nat k) (k + t) text' cs f p.
Proof.
  induction k as [|k IH]; intros c t text cs f p Hk.
  - exists text. simpl. by rewrite Z.sub_0_r.
  - change (ticks (S k)) with (Tick :: ticks k).
    change (run (Tick :: ticks k) ?s) with (run (ticks k) (tick s)).
    rewrite tick_counting by lia.
    destruct (IH (c - 1)%Z (S t) (pretty c ++ "s") cs f p ltac:(lia)) as [text' E].
    exists text'. rewrite E. f_equal; lia.
Qed.

Lemma ticks_stopped k : forall n t cs f p,
  run (ticks k) (stopped n t cs f p) = stopped n (k + t) cs f p.
Proof.
  induction k as [|k IH]; intros n t cs f p; [reflexivity|].
  change (ticks (S k)) with (Tick :: ticks k).
  change (run (Tick :: ticks k) ?s) with (run (ticks k) (tick s)).
  rewrite tick_stopped, IH. f_equal. lia.
Qed.

Lemma run_start seconds es s :
  run (Start true seconds :: es) s = run es (startMonitoring true seconds s).
Proof. reflexivity. Qed.

(** Before the countdown has run out nothing has been captured. *)
Lemma state_before seconds checkbox n :
  (0 < seconds)%Z -> (Z.of_nat n < seconds)%Z ->
  exists text,
    run (Start true seconds :: ticks n) (Monitoring.initial checkbox)
    = counting seconds 1 (seconds - 1 - Z.of_nat n) n text [] 0
        (started_page checkbox).
Proof.
  intros Hs Hn. rewrite run_start, start_counting by exact Hs.
  destruct (ticks_counting seconds 1 n (seconds - 1)%Z 0 (pretty seconds ++ "s")
              [] 0 (started_page checkbox) ltac:(lia)) as [text E].
  exists text. rewrite E. f_equal. lia.
Qed.

(** The tick on which the countdown runs out makes the one capture. *)
Lemma state_at_capture seconds checkbox :
  (0 < seconds)%Z ->
  run (Start true seconds :: ticks (Z.to_nat seconds)) (Monitoring.initial checkbox)
  = waiting seconds 1 2 (Z.to_nat seconds) [Z.to_nat seconds] 1
      (started_page checkbox).
Proof.
  intros Hs.
  replace (Z.to_nat seconds) with (Z.to_nat (seconds - 1) + 1) at 1 by lia.
  rewrite ticks_add, app_comm_cons, run_app.
  destruct (state_before seconds checkbox (Z.to_nat (seconds - 1)) Hs ltac:(lia))
    as [text E].
  rewrite E. change (run (ticks 1) ?s) with (tick s).
  rewrite tick_fire by lia.
  replace (S (Z.to_nat (seconds - 1))) with (Z.to_nat seconds) by lia.
  reflexivity.
Qed.

(** From the capture until the next countdown runs out, no further
    capture is made. *)
Lemma captures_after seconds checkbox n :
  (0 < seconds)%Z ->
  (seconds <= Z.of_nat n < 2 * seconds + 2)%Z ->
  captures (run (Start true seconds :: ticks n) (Monitoring.initial checkbox))
  = [Z.to_nat seconds].
Proof.
  intros Hs Hn.
  replace n with (Z.to_nat seconds + (n - Z.to_nat seconds)) by lia.
  rewrite ticks_add, app_comm_cons, run_app, state_at_capture by exact Hs.
  destruct (n - Z.to_nat seconds) as [|[|j]] eqn:Ej; [reflexivity| |].
  - change (run (ticks 1) ?s) with (tick s). by rewrite tick_waiting.
  - change (ticks (S (S j))) with (Tick :: Tick :: ticks j).
    change (run (Tick :: Tick :: ticks j) ?s)
      with (run (ticks j) (tick (tick s))).
    rewrite tick_waiting, tick_reschedule by exact Hs.
    destruct (ticks_counting seconds 2 j (seconds - 1)%Z
                (S (S (Z.to_nat seconds))) (pretty seconds ++ "s")
                [Z.to_nat seconds] 1 (started_page checkbox) ltac:(lia))
      as [text E].
    by rewrite E.
Qed.

(** Stopping during the countdown removes the only timer. *)
Lemma captures_when_stopped seconds checkbox k m :
  (0 < seconds)%Z -> (Z.of_nat k < seconds)%Z ->
  captures
    (run (Start true seconds :: ticks k ++ Stop :: ticks m)
       (Monitoring.initial checkbox))
  = [].
Proof.
  intros Hs Hk. rewrite app_comm_cons, run_app.
  destruct (state_before seconds checkbox k Hs Hk) as [text E]. rewrite E.
  change (run (Stop :: ticks m) ?s) with (run (ticks m) (stopMonitoring s)).
  by rewrite stop_counting, ticks_stopped.
Qed.

End Scheduler.

(** C7.  Monitoring started with an interval of 30 seconds: before the 30th
    one-second tick no capture has been made; from the 30th tick until the
    next countdown runs out (tick 62) exactly one capture has been made,
    on tick 30; and when monitoring is stopped before the 30th tick no
    capture is ever made, however long one waits. *)
Theorem monitoring_interval_30 (checkbox : option bool) (n k m : nat) :
  let s0 := Monitoring.initial checkbox in
  (n < 30 ->
   Monitoring.captures
     (Monitoring.run (Monitoring.Start true 30 :: Monitoring.ticks n) s0) = [])
  /\ (30 <= n < 62 ->
      Monitoring.captures
        (Monitoring.run (Monitoring.Start true 30 :: Monitoring.ticks n) s0) = [30])
  /\ (k < 30 ->
      Monitoring.captures
        (Monitoring.run
           (Monitoring.Start true 30
              :: Monitoring.ticks k ++ Monitoring.Stop :: Monitoring.ticks m) s0)
      = []).
Proof.
  intros s0. subst s0. split; [|split].
  - intros Hn.
    destruct (state_before 30 checkbox n ltac:(lia) ltac:(lia)) as [text E].
    by rewrite E.
  - intros Hn. apply (captures_after 30); lia.
  - intros Hk. apply captures_when_stopped; lia.
Qed.

(** Five ticks, thirty ticks, and a stop after twelve ticks. *)
Lemma monitoring_interval_30_witness :
  5 < 30
  /\ Monitoring.captures
       (Monitoring.run (Monitoring.Start true 30 :: Monitoring.ticks 5)
          (Monitoring.initial (Some true))) = []
  /\ 30 <= 30 < 62
  /\ Monitoring.captures
       (Monitoring.run (Monitoring.Start true 30 :: Monitoring.ticks 30)
          (Monitoring.initial (Some true))) = [30]
  /\ 12 < 30
  /\ Monitoring.captures
       (Monitoring.run
          (Monitoring.Start true 30
             :: Monitoring.ticks 12 ++ Monitoring.Stop :: Monitoring.ticks 100)
          (Monitoring.initial (Some true))) = [].
Proof.
  destruct (monitoring_interval_30 (Some true) 5 12 100) as (Hbefore & _ & Hstop).
  destruct (monitoring_interval_30 (Some true) 30 12 100) as (_ & Hat & _).
  split; [lia|]. split; [apply Hbefore; lia|].
  split; [lia|]. split; [apply Hat; lia|].
  split; [lia|]. apply Hstop; lia.
Defined.

(** ** Exporting *)

(** C10.  For a format other than ['json'] and ['csv'] (on a page that has
    the interval selector and the sound checkbox), [downloadResults] rejects
    nothing: [content], [filename] and [mimeType] stay undefined, and the
    blob is still built from the undefined content, offered under the
    undefined file name and clicked. *)
Theorem unknown_format_still_downloads (format now interval : string)
    (checked : bool) (p : ScriptWithApi.Page) :
  format <> "json" -> format <> "csv" ->
  ScriptWithApi.soundAlerts p = Some checked ->
  Exporter.downloadResults (Some format) now (Some interval) p
  = inr [ Exporter.NewBlob None None; Exporter.CreateObjectURL; Exporter.SetHref;
          Exporter.SetDownload None; Exporter.AppendAnchor; Exporter.Click;
          Exporter.RemoveAnchor; Exporter.RevokeObjectURL;
          Exporter.ShowAlert "Results exported as undefined" "success" ].
Proof.
  intros Hjson Hcsv Hbox. unfold Exporter.downloadResults.
  rewrite Hbox. simpl default.
  apply String.eqb_neq in Hjson, Hcsv. by rewrite Hjson, Hcsv.
Qed.

(** Asking for [xml]. *)
Lemma unknown_format_still_downloads_witness :
  "xml" <> "json" /\ "xml" <> "csv"
  /\ Exporter.downloadResults (Some "xml") "2024-05-01T10:00:00.000Z" (Some "30")
       (ScriptWithApi.initial (Some true))
     = inr [ Exporter.NewBlob None None; Exporter.CreateObjectURL; Exporter.SetHref;
             Exporter.SetDownload None; Exporter.AppendAnchor; Exporter.Click;
             Exporter.RemoveAnchor; Exporter.RevokeObjectURL;
             Exporter.ShowAlert "Results exported as undefined" "success" ].
Proof.
  split; [discriminate|]. split; [discriminate|].
  apply (unknown_format_still_downloads "xml" "2024-05-01T10:00:00.000Z" "30" true
           (ScriptWithApi.initial (Some true)));
    [discriminate | discriminate | reflexivity].
Defined.

(** ** Annotation *)

Section Annotation.

Import Claims.

(** What [colors[detection.class] || '#4a5568'] evaluates to. *)
Lemma color_lookup c :
  c ∉ JS.Object_prototype ->
  JS.or_else (JS.get Annotator.colors c) (JS.Str "#4a5568")
  = JS.Str (class_color c).
Proof.
  intros Hown. unfold JS.get, Annotator.colors, class_color.
  destruct (String.eqb c "with_mask") eqn:E1.
  { apply String.eqb_eq in E1. subst c. reflexivity. }
  destruct (String.eqb c "without_mask") eqn:E2.
  { apply String.eqb_eq in E2. subst c. reflexivity. }
  destruct (String.eqb c "mask_weared_incorrect") eqn:E3.
  { apply String.eqb_eq in E3. subst c. reflexivity. }
  apply String.eqb_neq in E1, E2, E3.
  rewrite !lookup_insert_ne, lookup_empty by congruence.
  by rewrite bool_decide_eq_false_2.
Qed.

End Annotation.

(** C9 (as amended).  For a detection whose class is not a property name
    every object inherits, [drawBoundingBox] adds three shapes: a rectangle
    stroked with width 3 in the class colour (green, red, amber for the
    three known classes, gray otherwise); a filled chip in the same colour,
    as wide as the measured label plus 10 and 25 high, whose top is the
    double [y - 25], so that its bottom edge lies on the top edge of the
    box whenever that difference is exact; and the label in white with its
    baseline at the double [y - 8].  The label is the class name with its
    first underscore replaced by a space, a space, the double product of
    the confidence and 100 printed with one decimal, and a percent sign. *)
Theorem annotation_shapes (b : Browser) (ctx : Canvas.Context) (d : Detection) :
  class d ∉ JS.Object_prototype ->
  let box := bbox d in
  let text :=
    JS.replace "_" " " (class d) ++ " "
      ++ JS.toFixed1 (Double.mul (confidence d) 100) ++ "%" in
  let color := Claims.class_color (class d) in
  let chip :=
    Canvas.FillRect (x box) (Double.sub (y box) 25)
      (Double.add (measureText b text) 10) 25%Q color in
  Canvas.painted (Annotator.drawBoundingBox b ctx d)
  = (Canvas.painted ctx
       ++ [ Canvas.StrokeRect (x box) (y box) (width box) (height box) color 3%Q;
            chip;
            Canvas.FillText text (Double.add (x box) 5) (Double.sub (y box) 8)
              "white" "14px Arial" ])%list
  /\ exists edge,
       Claims.bottom_edge chip = Some edge
       /\ (edge == Double.sub (y box) 25 + 25)%Q
       /\ (Double.is_double (y box) -> Double.is_double (y box - 25)%Q ->
           (edge == y box)%Q).
Proof.
  intros Hown box text color chip. split.
  - unfold Annotator.drawBoundingBox. rewrite color_lookup by exact Hown.
    unfold Canvas.fillText, Canvas.fillRect, Canvas.strokeRect, Canvas.paint,
      Canvas.set_fillStyle, Canvas.set_font, Canvas.set_lineWidth,
      Canvas.set_strokeStyle.
    cbn [Canvas.painted Canvas.strokeStyle Canvas.lineWidth Canvas.fillStyle
         Canvas.font Canvas.style].
    rewrite <- !app_assoc. reflexivity.
  - eexists. split; [reflexivity|]. split; [reflexivity|].
    intros Dy Dd. unfold Double.sub.
    assert (Double.round (Double.round (y box) - Double.round 25)
            = Double.round (y box - 25)) as ->.
    { apply round_comp. unfold Double.is_double in Dy. rewrite Dy.
      assert (Double.round 25 == 25)%Q as -> by (vm_compute; reflexivity).
      reflexivity. }
    unfold Double.is_double in Dd. rewrite Dd. ring.
Qed.

(** The three shapes for a masked face at (10, 100) whose confidence is
    0.7005: in doubles the percentage is 70.04999999999999, printed as
    70.0. *)
Lemma annotation_shapes_witness :
  ("with_mask" ∉ JS.Object_prototype)
  /\ Canvas.painted
       (Annotator.drawBoundingBox Claims.offline Canvas.fresh Claims.borderline)
     = [ Canvas.StrokeRect 10 100 50 60 "#38a169" 3%Q;
         Canvas.FillRect 10 75 115 25 "#38a169";
         Canvas.FillText "with mask 70.0%" 15 92 "white" "14px Arial" ]
  /\ (Double.mul 0.7005 100 < 70.05)%Q.
Proof.
  assert ("with_mask" ∉ JS.Object_prototype) as Hown.
  { intros H. apply list_elem_of_In in H. simpl in H. intuition discriminate. }
  split; [exact Hown|]. split; [|vm_compute; reflexivity].
  destruct (annotation_shapes Claims.offline Canvas.fresh Claims.borderline Hown)
    as [E _].
  rewrite E. vm_compute. reflexivity.
Defined.

(** C9, the claim as stated fails: the chip of a box whose top edge is at
    100 ends at 100, not at 92, and its text reads [with mask], not
    [with_mask]. *)
Lemma chip_sits_on_the_box :
  let d := Claims.box_at 10 100 50 60 in
  let shapes :=
    Canvas.painted (Annotator.drawBoundingBox Claims.offline Canvas.fresh d) in
  (exists chip edge,
     shapes !! 1 = Some chip
     /\ Claims.bottom_edge chip = Some edge
     /\ (edge == 100)%Q /\ ~ (edge == 100 - 8)%Q)
  /\ Annotator.label d = "with mask 95.0%"
  /\ Annotator.label d <> "with_mask 95.0%".
Proof.
  split.
  - eexists _, _. split; [vm_compute; reflexivity|].
    split; [reflexivity|]. split; [reflexivity | discriminate].
  - split; [reflexivity | discriminate].
Qed.

(** A class named like an inherited property is looked up successfully,
    the style assignments are ignored, and the box is drawn in whatever
    colour was set before. *)
Example inherited_name_keeps_style :
  Canvas.painted
    (Annotator.drawBoundingBox Claims.offline Canvas.fresh
       {| class := "constructor"; confidence := 0.95%Q;
          bbox := {| x := 10%Q; y := 100%Q; width := 50%Q; height := 60%Q |} |})
    !! 0
  = Some (Canvas.StrokeRect 10 100 50 60 "#000000" 3).
Proof. reflexivity. Qed.

(** ** Cropping *)

Section Cropping.

Import Claims.

Lemma cropped_faces_length b img D : forall index html,
  length (Script.cropped_faces_from b img index D html) = length html + length D.
Proof.
  induction D as [|d D IH]; intros index html; simpl; [lia|].
  rewrite IH, length_app. simpl. lia.
Qed.

(** What the loop has appended stays where it is. *)
Lemma cropped_faces_keep b img D : forall index html k f,
  html !! k = Some f ->
  Script.cropped_faces_from b img index D html !! k = Some f.
Proof.
  induction D as [|d D IH]; intros index html k f Hf; [exact Hf|].
  simpl. apply IH. by apply lookup_app_l_Some.
Qed.

(** The loop appends one face per detection, in order. *)
Lemma cropped_faces_lookup b img D : forall index html i d,
  D !! i = Some d ->
  Script.cropped_faces_from b img index D html !! (length html + i)
  = Some (face b img (index + i) d).
Proof.
  induction D as [|d0 D IH]; intros index html i d Hi; [done|].
  simpl. destruct i as [|i].
  - injection Hi as ->. apply cropped_faces_keep.
    rewrite !Nat.add_0_r. apply list_lookup_middle. reflexivity.
  - simpl in Hi.
    specialize (IH (S index) (html ++ [face b img index d0])%list i d Hi).
    rewrite length_app in IH. simpl in IH.
    replace (length html + S i) with (length html + 1 + i) by lia.
    replace (index + S i) with (S index + i) by lia.
    exact IH.
Qed.

(** A size between 0 and 2^31 - 1 is truncated to the integer below. *)
Lemma dimension_floor default v :
  (0 <= v)%Q -> (v < 2147483648)%Q ->
  Canvas.dimension default v = inject_Z (Qfloor v)
  /\ (inject_Z (Qfloor v) <= v)%Q /\ (v < inject_Z (Qfloor v) + 1)%Q.
Proof.
  intros H0 H1.
  pose proof (Qfloor_le v) as Hl. pose proof (Qlt_floor v) as Hu.
  rewrite inject_Z_plus in Hu. change (inject_Z 1) with 1%Q in Hu.
  split; [|split; assumption].
  assert (0 <= Qfloor v)%Z as F0.
  { assert (0 < Qfloor v + 1)%Z; [|lia]. rewrite Zlt_Qlt, inject_Z_plus.
    change (inject_Z 0) with 0%Q. change (inject_Z 1) with 1%Q. lra. }
  assert (Qfloor v < 2147483648)%Z as F1.
  { rewrite Zlt_Qlt. change (inject_Z 2147483648) with 2147483648%Q. lra. }
  unfold Canvas.dimension. destruct v as [n d]. simpl in F0, F1 |- *.
  assert (0 <= n)%Z as Hn by (unfold Qle in H0; simpl in H0; lia).
  rewrite Z.quot_div_nonneg by lia.
  rewrite Z.mod_small by lia.
  destruct (Z.leb_spec (n / Z.pos d) 2147483647); [reflexivity | lia].
Qed.

(** A box whose overlap with the image has area is itself wide and high. *)
Lemma overlap_has_area img bx by_ bw bh :
  Canvas.has_area (Canvas.clip img bx by_ bw bh) = true ->
  (0 < bw)%Q /\ (0 < bh)%Q.
Proof.
  unfold Canvas.has_area, Canvas.clip.
  cbn [Canvas.rect_width Canvas.rect_height].
  set (W := inject_Z (Z.of_nat (Image.width img))).
  set (H := inject_Z (Z.of_nat (Image.height img))).
  intros Ha. apply andb_prop in Ha as [Hw Hh].
  apply negb_true_iff in Hw, Hh.
  assert (forall a, Qle_bool a 0 = false -> (0 < a)%Q) as Pos.
  { intros a E. apply Qnot_le_lt. intros C. apply Qle_bool_iff in C. congruence. }
  apply Pos in Hw, Hh.
  assert (forall S p s, (0 < Qmax 0 (Qmin S (p + s) - Qmax 0 p))%Q -> (0 < s)%Q) as P.
  { intros S p s Hpos.
    pose proof (Q.le_min_r S (p + s)). pose proof (Q.le_max_r 0 p).
    destruct (Q.max_spec 0 (Qmin S (p + s) - Qmax 0 p)) as [[? E]|[? E]];
      rewrite E in Hpos; lra. }
  split; [exact (P _ _ _ Hw) | exact (P _ _ _ Hh)].
Qed.

End Cropping.

(** C8 (as amended).  [createCroppedFaces] builds one face per detection,
    in order, whatever the boxes are, and does no clipping of its own.  The
    picture of a face is the data URL of a canvas whose width and height
    are set from the box's width and height, which for sizes from 0 up to
    2^31 - 1 truncates them to integers, and on which one drawing call
    names the unclipped box as the source.  It is the canvas that puts
    image pixels only where the box overlaps the image (at the overlap's
    offset inside the box), and none when there is no overlap; the face
    is then the unpainted canvas of the truncated box size. *)
Theorem crop_keeps_box_size (b : Browser) (img : Image.t) (D : list Detection)
    (i : nat) (d : Detection) :
  D !! i = Some d ->
  let box := bbox d in
  let call := Claims.crop_call img d in
  let canvas :=
    {| Canvas.width := Canvas.dimension 300 (width box);
       Canvas.height := Canvas.dimension 150 (height box);
       Canvas.ctx := Claims.painted_once call |} in
  let overlap := Canvas.clip img (x box) (y box) (width box) (height box) in
  length (Script.createCroppedFaces b img D) = length D
  /\ Script.createCroppedFaces b img D !! i
     = Some {| Script.face_class := JS.replace "_" "-" (class d);
               Script.src := toDataURL b canvas;
               Script.alt := "Face " ++ pretty (i + 1);
               Script.badge :=
                 JS.toFixed1 (Double.mul (confidence d) 100) ++ "%" |}
  /\ ((0 <= width box)%Q -> (width box < 2147483648)%Q ->
      Canvas.width canvas = inject_Z (Qfloor (width box)))
  /\ ((0 <= height box)%Q -> (height box < 2147483648)%Q ->
      Canvas.height canvas = inject_Z (Qfloor (height box)))
  /\ (Canvas.has_area overlap = true ->
      exists r,
        Canvas.image_pixels call = Some r
        /\ (Canvas.left r == Canvas.left overlap - x box)%Q
        /\ (Canvas.top r == Canvas.top overlap - y box)%Q
        /\ (Canvas.rect_width r == Canvas.rect_width overlap)%Q
        /\ (Canvas.rect_height r == Canvas.rect_height overlap)%Q)
  /\ ((0 <= width box)%Q -> (0 <= height box)%Q ->
      Canvas.has_area overlap = false -> Canvas.image_pixels call = None).
Proof.
  intros Hi box call canvas overlap.
  split; [apply (cropped_faces_length b img D 0 [])|].
  split; [apply (cropped_faces_lookup b img D 0 [] i d Hi)|].
  split; [intros H0 H1; apply (dimension_floor 300 (width box) H0 H1)|].
  split; [intros H0 H1; apply (dimension_floor 150 (height box) H0 H1)|].
  split.
  - intros Harea.
    destruct (overlap_has_area img _ _ _ _ Harea) as [Hw Hh].
    assert (~ (width box == 0)%Q) as Hwn by lra.
    assert (~ (height box == 0)%Q) as Hhn by lra.
    unfold call, Claims.crop_call, Canvas.image_pixels.
    fold box. fold overlap. rewrite Harea.
    eexists. split; [reflexivity|].
    cbn [Canvas.left Canvas.top Canvas.rect_width Canvas.rect_height].
    rewrite !Qdiv_mult_l by assumption.
    repeat split; ring.
  - intros _ _ Harea. unfold call, Claims.crop_call, Canvas.image_pixels.
    fold box. fold overlap. by rewrite Harea.
Qed.

(** A box that sticks out of the image and one that misses it, both
    47.3 x 50.6. *)
Lemma crop_keeps_box_size_witness :
  let partly := Claims.box_at 80 80 47.3 50.6 in
  let outside := Claims.box_at 200 200 47.3 50.6 in
  let D := [partly; outside] in
  D !! 0 = Some partly /\ D !! 1 = Some outside
  /\ (exists face canvas,
        Script.createCroppedFaces Claims.offline Claims.square_image D !! 0
        = Some face
        /\ Script.src face = toDataURL Claims.offline canvas
        /\ Canvas.width canvas = 47%Q /\ Canvas.height canvas = 50%Q
        /\ exists r,
             Canvas.image_pixels (Claims.crop_call Claims.square_image partly)
             = Some r
             /\ (Canvas.rect_width r == 20)%Q /\ (Canvas.rect_height r == 20)%Q)
  /\ Canvas.has_area (Canvas.clip Claims.square_image 200 200 47.3 50.6) = false
  /\ Canvas.image_pixels (Claims.crop_call Claims.square_image outside) = None.
Proof.
  intros partly outside D.
  destruct (crop_keeps_box_size Claims.offline Claims.square_image D 0 partly eq_refl)
    as (_ & Hface & Hcw & Hch & Hin & _).
  destruct (crop_keeps_box_size Claims.offline Claims.square_image D 1 outside eq_refl)
    as (_ & _ & _ & _ & _ & Hout).
  destruct (Hin eq_refl) as (r & Hr & _ & _ & Hw & Hh).
  split; [reflexivity|]. split; [reflexivity|].
  split.
  - eexists _, _. split; [exact Hface|]. split; [reflexivity|].
    split; [exact (Hcw ltac:(discriminate) eq_refl)|].
    split; [exact (Hch ltac:(discriminate) eq_refl)|].
    exists r. split; [exact Hr|]. split.
    + rewrite Hw. reflexivity.
    + rewrite Hh. reflexivity.
  - split; [reflexivity|].
    exact (Hout ltac:(discriminate) ltac:(discriminate) eq_refl).
Defined.

(** C8, the claim as stated fails: for a 50 x 50 box at (80, 80) on a
    100 x 100 image the part inside the image is 20 x 20, yet the face is
    the picture of a 50 x 50 canvas; what is returned is not the region
    clipped to the image.  For a box entirely outside the image the face is
    again a 50 x 50 canvas: an empty image, nothing being painted on it,
    but of the size of the box. *)
Lemma crop_is_not_clipped :
  let img := Claims.square_image in
  let partly := Claims.box_at 80 80 50 50 in
  let outside := Claims.box_at 200 200 50 50 in
  (Canvas.rect_width (Canvas.clip img 80 80 50 50) == 20)%Q
  /\ (Canvas.width (Script.crop_canvas img partly) == 50)%Q
  /\ ~ (Canvas.width (Script.crop_canvas img partly)
        == Canvas.rect_width (Canvas.clip img 80 80 50 50))%Q
  /\ (exists face,
        Script.createCroppedFaces Claims.offline img [partly] = [face]
        /\ Script.src face
           = toDataURL Claims.offline (Script.crop_canvas img partly))
  /\ Canvas.has_area (Canvas.clip img 200 200 50 50) = false
  /\ (Canvas.width (Script.crop_canvas img outside) == 50)%Q
  /\ (Canvas.height (Script.crop_canvas img outside) == 50)%Q
  /\ Canvas.image_pixels (Claims.crop_call img outside) = None.
Proof.
  intros img partly outside.
  split; [reflexivity|]. split; [reflexivity|]. split; [discriminate|].
  split; [eexists; split; reflexivity|].
  repeat split.
Qed.

(** * Further properties *)

(** ** The scheduler on arbitrary states *)

Section SchedulerInvariants.

Import Monitoring Notions.

Lemma adds_refl s : adds 0 s s.
Proof. unfold adds. rewrite app_nil_r, Nat.add_0_r. by repeat split. Qed.

Lemma adds_trans k k' s s' s'' :
  adds k s s' -> adds k' s' s'' -> adds (k + k') s s''.
Proof.
  intros (A1 & P1 & C1 & Cs1 & F1 & Z1) (A2 & P2 & C2 & Cs2 & F2 & Z2).
  unfold adds. rewrite A2, P2, C2, Cs2, F2, Cs1, F1, C1, repeat_app, app_assoc.
  repeat split; try assumption; try lia.
  intros Hoff. rewrite (Z1 Hoff), (Z2 ltac:(congruence)). reflexivity.
Qed.

Lemma updateCountdown_adds c s :
  exists k, adds k s (snd (updateCountdown c s))
            /\ ((countdown c <= 0)%Z -> monitoringActive s = true -> k = 1).
Proof.
  unfold updateCountdown.
  destruct (monitoringActive s) eqn:Hactive; simpl negb; cbv iota.
  - destruct (countdown c <=? 0)%Z eqn:Hc.
    + exists 1. split; [|reflexivity].
      unfold adds, captureMonitoringPhoto, clearInterval.
      destruct (monitoringCountdown (set_display _ s)); simpl;
        rewrite Hactive; simpl; rewrite ?Hactive;
        repeat split; try reflexivity; try lia; discriminate.
    + exists 0. split; [|intros; lia].
      unfold adds. simpl. rewrite app_nil_r, Nat.add_0_r, Hactive.
      by repeat split.
  - exists 0. split; [apply adds_refl | discriminate].
Qed.

Lemma adds_set_timers k s s' h i t n :
  adds k s s' -> adds k s (set_timers h i t n s').
Proof. intros H. exact H. Qed.

Lemma scheduleNextCapture_adds seconds s :
  exists k, adds k s (scheduleNextCapture seconds s).
Proof.
  unfold scheduleNextCapture.
  destruct (monitoringActive s) eqn:Hactive; simpl negb; cbv iota.
  - destruct (updateCountdown_adds {| countdown := seconds; intervalSeconds := seconds |} s)
      as (k & Hk & _).
    destruct (updateCountdown _ s) as [c' s']. exists k. exact Hk.
  - exists 0. apply adds_refl.
Qed.

Lemma fire_interval_adds s h :
  exists k, adds k s (fire_interval s h)
            /\ (forall c, intervals s !! h = Some c -> (countdown c <= 0)%Z ->
                monitoringActive s = true -> k = 1).
Proof.
  unfold fire_interval.
  destruct (intervals s !! h) as [c|] eqn:Hc.
  - destruct (updateCountdown_adds c s) as (k & Hk & Hone).
    destruct (updateCountdown c s) as [c' s']. simpl in Hk.
    exists k. split.
    + by destruct (intervals s' !! h).
    + intros c0 [= <-]. exact Hone.
  - exists 0. split; [apply adds_refl | discriminate].
Qed.

Lemma fire_intervals_adds hs : forall s,
  exists k, adds k s (fold_left fire_interval hs s).
Proof.
  induction hs as [|h hs IH]; intros s; simpl.
  - exists 0. apply adds_refl.
  - destruct (fire_interval_adds s h) as (k & Hk & _).
    destruct (IH (fire_interval s h)) as (k' & Hk').
    exists (k + k'). eapply adds_trans; eassumption.
Qed.

Lemma fire_timeouts_adds (due : list (nat * Z)) : forall s,
  exists k,
    adds k s (fold_left (fun s t => scheduleNextCapture (snd t) s) due s).
Proof.
  induction due as [|t due IH]; intros s; simpl.
  - exists 0. apply adds_refl.
  - destruct (scheduleNextCapture_adds (snd t) s) as (k & Hk).
    destruct (IH (scheduleNextCapture (snd t) s)) as (k' & Hk').
    exists (k + k'). eapply adds_trans; eassumption.
Qed.

(** A tick advances the clock and adds some captures stamped with the new
    time; it touches neither the page nor the active flag, and adds nothing
    while monitoring is off. *)
Lemma tick_adds s :
  exists k,
    monitoringActive (tick s) = monitoringActive s
    /\ page (tick s) = page s
    /\ clock (tick s) = S (clock s)
    /\ captures (tick s) = (captures s ++ repeat (S (clock s)) k)%list
    /\ in_flight (tick s) = in_flight s + k
    /\ (monitoringActive s = false -> k = 0).
Proof.
  unfold tick.
  match goal with
  | |- context [fold_left _ ?due ?s1] =>
      destruct (fire_timeouts_adds due s1) as (k1 & H1);
      destruct (fire_intervals_adds (seq 0 (next_handle s))
                  (fold_left (fun s t => scheduleNextCapture (snd t) s) due s1))
        as (k2 & H2);
      pose proof (adds_trans _ _ _ _ _ H1 H2) as H
  end.
  exists (k1 + k2). exact H.
Qed.

Lemma ticks_cons n s : run (ticks (S n)) s = run (ticks n) (tick s).
Proof. reflexivity. Qed.

Lemma ticks_snoc n s : run (ticks (S n)) s = tick (run (ticks n) s).
Proof.
  replace (S n) with (n + 1) by lia. by rewrite ticks_add, run_app.
Qed.

(** While monitoring is off, ticks change neither the captures nor the
    page. *)
Lemma ticks_while_off n : forall s,
  monitoringActive s = false ->
  monitoringActive (run (ticks n) s) = false
  /\ captures (run (ticks n) s) = captures s
  /\ in_flight (run (ticks n) s) = in_flight s
  /\ page (run (ticks n) s) = page s.
Proof.
  induction n as [|n IH]; intros s Hoff; [by repeat split|].
  rewrite ticks_cons.
  destruct (tick_adds s) as (k & A & P & _ & Cs & F & Z).
  rewrite (Z Hoff) in Cs, F. simpl in Cs. rewrite app_nil_r in Cs.
  destruct (IH (tick s) ltac:(congruence)) as (A' & Cs' & F' & P').
  rewrite A', Cs', F', P', Cs, F, P. repeat split; lia.
Qed.

Lemma stopMonitoring_fields s :
  monitoringActive (stopMonitoring s) = false
  /\ captures (stopMonitoring s) = captures s
  /\ in_flight (stopMonitoring s) = in_flight s
  /\ clock (stopMonitoring s) = clock s
  /\ page (stopMonitoring s)
     = ScriptWithApi.showAlert "Monitoring stopped" "info" (page s).
Proof.
  unfold stopMonitoring. simpl.
  destruct (monitoringCountdown s); by simpl.
Qed.

Lemma startMonitoring_adds camera seconds s :
  exists k,
    captures (startMonitoring camera seconds s)
    = (captures s ++ repeat (clock s) k)%list
    /\ in_flight (startMonitoring camera seconds s) = in_flight s + k
    /\ ScriptWithApi.totalStats (page (startMonitoring camera seconds s))
       = ScriptWithApi.totalStats (page s)
    /\ (monitoringActive s = false -> camera = true ->
        ScriptWithApi.captureCount (page (startMonitoring camera seconds s)) = 0).
Proof.
  unfold startMonitoring.
  destruct (monitoringActive s) eqn:Hactive.
  - exists 0. rewrite app_nil_r, Nat.add_0_r. repeat split. discriminate.
  - destruct camera.
    + match goal with
      | |- context [scheduleNextCapture seconds ?s1] =>
          destruct (scheduleNextCapture_adds seconds s1)
            as (k & _ & P & _ & Cs & F & _)
      end.
      exists k.
      cbn [captures in_flight page set_page ScriptWithApi.showAlert
           ScriptWithApi.totalStats ScriptWithApi.captureCount].
      rewrite Cs, F, P. by repeat split.
    + exists 0. simpl. rewrite app_nil_r, Nat.add_0_r. repeat split. discriminate.
Qed.

Lemma complete_fields now result s :
  captures (complete now result s) = captures s
  /\ match in_flight s with
     | O => complete now result s = s
     | S n =>
         in_flight (complete now result s) = n
         /\ ScriptWithApi.captureCount (page (complete now result s))
            = S (ScriptWithApi.captureCount (page s))
         /\ ScriptWithApi.totalStats (page (complete now result s))
            = Claims.add_stats (ScriptWithApi.totalStats (page s))
                (ScriptWithApi.batch_stats [result])
     end.
Proof.
  unfold complete. destruct (in_flight s) as [|n]; [by split|].
  simpl. split; [reflexivity|]. split; [reflexivity|].
  unfold ScriptWithApi.captureMonitoringPhoto_callback.
  match goal with
  | |- context [ScriptWithApi.displayMonitoringResults now [result] ?p] =>
      destruct (monitoring_stats now [result] p) as [H1 H2]
  end.
  rewrite H1, H2. by split.
Qed.

End SchedulerInvariants.

(** X1.  Once [stopMonitoring] has run, no capture is made however many
    ticks follow, whatever timers and pending timeouts the state held
    (also stale ones left over from earlier sessions): the captures and the
    detections in flight stay as they were. *)
Theorem stop_silences_every_timer (s : Monitoring.State) (n : nat) :
  Monitoring.captures
    (Monitoring.run (Monitoring.Stop :: Monitoring.ticks n) s)
  = Monitoring.captures s
  /\ Monitoring.in_flight
       (Monitoring.run (Monitoring.Stop :: Monitoring.ticks n) s)
     = Monitoring.in_flight s.
Proof.
  change (Monitoring.run (Monitoring.Stop :: Monitoring.ticks n) s)
    with (Monitoring.run (Monitoring.ticks n) (Monitoring.stopMonitoring s)).
  destruct (stopMonitoring_fields s) as (Hoff & Cs & F & _).
  destruct (ticks_while_off n _ Hoff) as (_ & Cs' & F' & _).
  by rewrite Cs', F', Cs, F.
Qed.

Section SessionInvariants.

Import Monitoring Notions.

Lemma step_accounted s e :
  match e with Start _ _ => False | _ => True end ->
  accounted s -> accounted (step s e).
Proof.
  unfold accounted. destruct e as [camera seconds| | |now result]; cbn [step];
    intros He H.
  - contradiction.
  - destruct (stopMonitoring_fields s) as (_ & Cs & F & _ & P).
    rewrite Cs, F, P. simpl. exact H.
  - destruct (tick_adds s) as (k & _ & P & _ & Cs & F & _).
    rewrite Cs, F, P, length_app, repeat_length. lia.
  - destruct (complete_fields now result s) as [Cs Hcase].
    rewrite Cs. destruct (in_flight s) as [|n] eqn:E.
    + rewrite Hcase. lia.
    + destruct Hcase as (F & C & _). rewrite F, C. lia.
Qed.

Lemma run_accounted events : forall s,
  no_start events -> accounted s -> accounted (run events s).
Proof.
  induction events as [|e events IH]; intros s Hns H; [exact H|].
  inversion Hns as [|? ? He Hrest]; subst.
  apply IH; [exact Hrest|]. by apply step_accounted.
Qed.





End SessionInvariants.

(** X2.  In a monitoring session started once after page load, whatever the
    interval and whatever ticks, stops and returning detections follow,
    [captureCount] plus the number of detections still in flight equals the
    number of frames captured: every capture is counted exactly once, when
    its detection comes back, also if that happens after monitoring was
    stopped. *)
Theorem every_capture_is_counted_once (checkbox : option bool) (camera : bool)
    (seconds : Z) (events : list Monitoring.Event) :
  Notions.no_start events ->
  Notions.accounted
    (Monitoring.run (Monitoring.Start camera seconds :: events)
       (Monitoring.initial checkbox)).
Proof.
  intros Hns.
  change (Monitoring.run (Monitoring.Start camera seconds :: events)
            (Monitoring.initial checkbox))
    with (Monitoring.run events
            (Monitoring.startMonitoring camera seconds (Monitoring.initial checkbox))).
  apply run_accounted; [exact Hns|].
  unfold Notions.accounted.
  destruct (startMonitoring_adds camera seconds (Monitoring.initial checkbox))
    as (k & Cs & F & _ & C).
  rewrite Cs, F, length_app, repeat_length. simpl.
  destruct camera.
  - rewrite (C eq_refl eq_refl). lia.
  - reflexivity.
Qed.

(** A capture on tick 30, its detection back after tick 31, then a stop. *)
Lemma every_capture_is_counted_once_witness :
  Notions.no_start
    (Monitoring.ticks 31 ++ [Monitoring.Completed "10:15:00" Claims.sample_result;
                             Monitoring.Stop])
  /\ Notions.accounted
       (Monitoring.run
          (Monitoring.Start true 30
             :: Monitoring.ticks 31
                ++ [Monitoring.Completed "10:15:00" Claims.sample_result;
                    Monitoring.Stop])
          (Monitoring.initial (Some true))).
Proof.
  assert (Notions.no_start
            (Monitoring.ticks 31
               ++ [Monitoring.Completed "10:15:00" Claims.sample_result;
                   Monitoring.Stop])) as Hns.
  { unfold Notions.no_start. apply Forall_forall. intros e He.
    apply list_elem_of_In, in_app_or in He. destruct He as [He|He].
    - apply repeat_spec in He. by subst.
    - simpl in He. destruct He as [<-|[<-|[]]]; exact I. }
  split; [exact Hns|].
  exact (every_capture_is_counted_once (Some true) true 30 _ Hns).
Defined.


(** ** A timer the scheduler has lost track of *)

Section StaleTimer.

Import Monitoring Notions.

Variable h : nat.

Lemma stale_set_display text s : stale h s -> stale h (set_display text s).
Proof. intros H. exact H. Qed.

Lemma stale_updateCountdown c s :
  stale h s -> stale h (snd (updateCountdown c s)).
Proof.
  intros (Hactive & (ch & Hh & Hch) & Hcur & Hlt).
  unfold updateCountdown. rewrite Hactive. simpl negb. cbv iota.
  destruct (countdown c <=? 0)%Z; [|by repeat split; eauto].
  unfold stale, captureMonitoringPhoto, clearInterval. simpl.
  destruct (monitoringCountdown s) as [h'|] eqn:Hm; simpl;
    rewrite Hactive; simpl; rewrite ?Hm.
  - repeat split; try assumption.
    exists ch. split; [|exact Hch].
    rewrite lookup_delete_ne by congruence. exact Hh.
  - repeat split; try assumption; eauto.
Qed.

Lemma stale_scheduleNextCapture seconds s :
  stale h s -> stale h (scheduleNextCapture seconds s).
Proof.
  intros Hs. pose proof Hs as (Hactive & _).
  unfold scheduleNextCapture. rewrite Hactive. simpl negb. cbv iota.
  pose proof (stale_updateCountdown
                {| countdown := seconds; intervalSeconds := seconds |} s Hs) as H'.
  destruct (updateCountdown _ s) as [c' s']. simpl in H'.
  destruct H' as (Hactive' & (ch & Hh & Hch) & _ & Hlt).
  unfold stale. simpl. repeat split; try assumption.
  - exists ch. split; [|exact Hch]. rewrite lookup_insert_ne by lia. exact Hh.
  - intros [= E]. lia.
  - lia.
Qed.

Lemma stale_fire_interval i s : stale h s -> stale h (fire_interval s i).
Proof.
  intros Hs. unfold fire_interval.
  destruct (intervals s !! i) as [c|] eqn:Hi; [|exact Hs].
  pose proof (stale_updateCountdown c s Hs) as H'.
  pose proof Hs as (Hactive & (ch & Hh & Hch) & _).
  assert (i = h -> fst (updateCountdown c s) = c) as Hsame.
  { intros ->. rewrite Hh in Hi. injection Hi as <-.
    unfold updateCountdown. rewrite Hactive. simpl negb. cbv iota.
    by assert ((countdown ch <=? 0)%Z = true) as -> by lia. }
  destruct (updateCountdown c s) as [c' s']. simpl in H', Hsame.
  destruct (intervals s' !! i) eqn:Hi'; [|exact H'].
  destruct H' as (Hactive' & (ch' & Hh' & Hch') & Hcur & Hlt).
  unfold stale. simpl. repeat split; try assumption.
  destruct (decide (i = h)) as [->|Hne].
  - rewrite lookup_insert_eq. rewrite (Hsame eq_refl).
    rewrite Hh in Hi. injection Hi as <-. eauto.
  - rewrite lookup_insert_ne by exact Hne. eauto.
Qed.

Lemma stale_fire_timeouts (due : list (nat * Z)) : forall s,
  stale h s ->
  stale h (fold_left (fun s t => scheduleNextCapture (snd t) s) due s).
Proof.
  induction due as [|t due IH]; intros s Hs; [exact Hs|].
  simpl. apply IH. by apply stale_scheduleNextCapture.
Qed.

(** Firing the handles [hs] keeps the stale timer, and makes a capture if
    the stale timer is among them. *)
Lemma stale_fire_intervals hs : forall s,
  stale h s ->
  stale h (fold_left fire_interval hs s)
  /\ exists k, adds k s (fold_left fire_interval hs s) /\ (In h hs -> 1 <= k).
Proof.
  induction hs as [|i hs IH]; intros s Hs; simpl.
  - split; [exact Hs|]. exists 0. split; [apply adds_refl | contradiction].
  - destruct (IH (fire_interval s i) (stale_fire_interval i s Hs))
      as (Hs' & k' & Hk' & Hin').
    split; [exact Hs'|].
    destruct (fire_interval_adds s i) as (k & Hk & Hone).
    exists (k + k'). split; [eapply adds_trans; eassumption|].
    intros [->|Hin]; [|specialize (Hin' Hin); lia].
    destruct Hs as (Hactive & (ch & Hh & Hch) & _).
    rewrite (Hone ch Hh Hch Hactive). lia.
Qed.

Lemma stale_tick s :
  stale h s ->
  stale h (tick s) /\ S (length (captures s)) <= length (captures (tick s)).
Proof.
  intros Hs. pose proof Hs as (_ & _ & _ & Hlt).
  unfold tick.
  match goal with
  | |- context [fold_left _ ?due ?s1] =>
      assert (stale h s1) as Hs1 by exact Hs;
      pose proof (stale_fire_timeouts due s1 Hs1) as Hs2;
      destruct (fire_timeouts_adds due s1) as (k1 & H1);
      destruct (stale_fire_intervals (seq 0 (next_handle s)) _ Hs2)
        as (Hs3 & k2 & H2 & Hin)
  end.
  split; [exact Hs3|].
  destruct (adds_trans _ _ _ _ _ H1 H2) as (_ & _ & _ & Cs & _).
  rewrite Cs, length_app, repeat_length. simpl.
  assert (1 <= k2) by (apply Hin, in_seq; lia). lia.
Qed.

Lemma stale_ticks n : forall s,
  stale h s ->
  stale h (run (ticks n) s)
  /\ n + length (captures s) <= length (captures (run (ticks n) s)).
Proof.
  induction n as [|n IH]; intros s Hs; [by split|].
  rewrite ticks_cons.
  destruct (stale_tick s Hs) as [Hs' Hlen].
  destruct (IH (tick s) Hs') as [Hs'' Hlen'].
  split; [exact Hs''|]. lia.
Qed.

End StaleTimer.

(** X4.  A live timer whose countdown has run out and which is no longer
    the one [monitoringCountdown] names is never cleared while monitoring
    stays on: [clearInterval(monitoringCountdown)] clears some other timer.
    From then on every tick makes at least one capture.  Such a timer
    arises when monitoring is stopped and started again within the two
    seconds that follow a capture, because [stopMonitoring] does not cancel
    the pending [setTimeout]. *)
Theorem lost_timer_captures_every_second (h : nat) (s : Monitoring.State)
    (n : nat) :
  Notions.stale h s ->
  Notions.stale h (Monitoring.run (Monitoring.ticks n) s)
  /\ n + length (Monitoring.captures s)
     <= length (Monitoring.captures (Monitoring.run (Monitoring.ticks n) s)).
Proof. intros Hs. by apply stale_ticks. Qed.

(** Monitoring every 30 seconds is stopped and restarted right after its
    first capture; 30 ticks later the restarted timer is lost, and the next
    100 ticks make at least 100 further captures. *)
Lemma lost_timer_captures_every_second_witness :
  let s :=
    Monitoring.run
      (Monitoring.Start true 30
         :: Monitoring.ticks 30
            ++ [Monitoring.Stop; Monitoring.Start true 30]
            ++ Monitoring.ticks 30)
      (Monitoring.initial (Some true)) in
  Notions.stale 2 s
  /\ 100 + length (Monitoring.captures s)
     <= length (Monitoring.captures (Monitoring.run (Monitoring.ticks 100) s)).
Proof.
  intros s.
  assert (Notions.stale 2 s) as Hs.
  { unfold Notions.stale. split; [reflexivity|]. split.
    - eexists. split; [vm_compute; reflexivity|]. simpl. lia.
    - split; [vm_compute; discriminate | vm_compute; lia]. }
  split; [exact Hs|].
  apply (lost_timer_captures_every_second 2 s 100 Hs).
Defined.

(** ** The rhythm of an undisturbed session *)

Section Rhythm.

Import Monitoring Claims.

(** One full cycle: count down, capture, wait two seconds, start over with a
    fresh timer. *)
Lemma one_cycle seconds h t text cs f p :
  (0 < seconds)%Z ->
  exists text',
    run (ticks (Z.to_nat seconds + 2))
      (counting seconds h (seconds - 1) t text cs f p)
    = counting seconds (S h) (seconds - 1) (Z.to_nat seconds + 2 + t) text'
        (cs ++ [Z.to_nat seconds + t]) (S f) p.
Proof.
  intros Hs.
  assert (Z.to_nat seconds + 2 = Z.to_nat (seconds - 1) + 3)%nat as -> by lia.
  rewrite ticks_add, run_app.
  destruct (ticks_counting seconds h (Z.to_nat (seconds - 1)) (seconds - 1)%Z
              t text cs f p ltac:(lia)) as [text1 E].
  rewrite E. change (run (ticks 3) ?s) with (tick (tick (tick s))).
  rewrite tick_fire by lia. rewrite tick_waiting, tick_reschedule by exact Hs.
  eexists. f_equal; try lia. f_equal. f_equal. lia.
Qed.

Lemma cycles seconds checkbox m :
  (0 < seconds)%Z ->
  exists text,
    run (Start true seconds :: ticks (m * (Z.to_nat seconds + 2)))
      (Monitoring.initial checkbox)
    = counting seconds (S m) (seconds - 1) (m * (Z.to_nat seconds + 2)) text
        (map (fun i => Z.to_nat seconds + i * (Z.to_nat seconds + 2)) (seq 0 m))
        m (started_page checkbox).
Proof.
  intros Hs. induction m as [|m [text IH]].
  - rewrite run_start, start_counting by exact Hs. eexists. reflexivity.
  - replace (S m * (Z.to_nat seconds + 2))
      with (m * (Z.to_nat seconds + 2) + (Z.to_nat seconds + 2)) by lia.
    rewrite ticks_add, app_comm_cons, run_app, IH.
    destruct (one_cycle seconds (S m) (m * (Z.to_nat seconds + 2)) text
                (map (fun i => Z.to_nat seconds + i * (Z.to_nat seconds + 2))
                   (seq 0 m))
                m (started_page checkbox) Hs) as [text' E].
    rewrite E. exists text'. rewrite seq_S, map_app. simpl.
    f_equal. lia.
Qed.

End Rhythm.

(** X5.  An undisturbed session with a positive interval of [seconds]
    captures with period [seconds + 2]: after [m] periods the captures are
    exactly those made at times [seconds + i * (seconds + 2)] for
    [i < m], one per countdown. *)
Theorem captures_every_interval_plus_two (checkbox : option bool) (seconds : Z)
    (m : nat) :
  (0 < seconds)%Z ->
  Monitoring.captures
    (Monitoring.run
       (Monitoring.Start true seconds
          :: Monitoring.ticks (m * (Z.to_nat seconds + 2)))
       (Monitoring.initial checkbox))
  = map (fun i => Z.to_nat seconds + i * (Z.to_nat seconds + 2)) (seq 0 m).
Proof.
  intros Hs. destruct (cycles seconds checkbox m Hs) as [text E].
  by rewrite E.
Qed.

(** Three periods of a one-minute interval. *)
Lemma captures_every_interval_plus_two_witness :
  (0 < 60)%Z
  /\ Monitoring.captures
       (Monitoring.run (Monitoring.Start true 60 :: Monitoring.ticks (3 * 62))
          (Monitoring.initial (Some true)))
     = [60; 122; 184].
Proof.
  split; [lia|].
  apply (captures_every_interval_plus_two (Some true) 60 3). lia.
Defined.

(** X6.  Stopping twice is stopping once, except that the second call shows
    its [Monitoring stopped] message again: timers, flags, captures and
    totals are the same. *)
Theorem stop_twice (s : Monitoring.State) :
  Monitoring.stopMonitoring (Monitoring.stopMonitoring s)
  = Monitoring.set_page
      (ScriptWithApi.showAlert "Monitoring stopped" "info"
         (Monitoring.page (Monitoring.stopMonitoring s)))
      (Monitoring.stopMonitoring s).
Proof.
  destruct s as [active handle timers pending next text time cs f p].
  destruct handle; reflexivity.
Qed.

(** ** Camera streams *)

Section Streams.

Import Media Notions.

Lemma orphaned_release id st : orphaned id st -> orphaned id (release st).
Proof.
  intros (Hlive & Hcur & Hlt). unfold release, orphaned.
  destruct (currentStream st) as [cur|] eqn:E; simpl; [|by rewrite E].
  repeat split; [set_solver | discriminate | exact Hlt].
Qed.

Lemma orphaned_acquire id st m :
  orphaned id st ->
  orphaned id
    {| currentStream := Some (next_stream st);
       live := live st ∪ {[next_stream st]};
       next_stream := S (next_stream st);
       monitor := m |}.
Proof.
  intros (Hlive & Hcur & Hlt). unfold orphaned. simpl.
  repeat split; [set_solver | intros [= E]; lia | lia].
Qed.

Lemma orphaned_monitor id st m :
  orphaned id st ->
  orphaned id
    {| currentStream := currentStream st; live := live st;
       next_stream := next_stream st; monitor := m |}.
Proof. intros H. exact H. Qed.

Lemma orphaned_stopMonitoring id st :
  orphaned id st -> orphaned id (stopMonitoring st).
Proof.
  intros H. unfold stopMonitoring.
  apply (orphaned_monitor id (release st)). by apply orphaned_release.
Qed.

Lemma orphaned_step id st a : orphaned id st -> orphaned id (step st a).
Proof.
  intros H. destruct a; simpl.
  - unfold startCamera. destruct granted;
      [by apply orphaned_acquire | by apply orphaned_monitor].
  - unfold stopCamera. apply (orphaned_monitor id (release st)).
    by apply orphaned_release.
  - unfold startMonitoring.
    destruct (Monitoring.monitoringActive (monitor st)); [exact H|].
    destruct granted; [by apply orphaned_acquire | by apply orphaned_monitor].
  - by apply orphaned_stopMonitoring.
  - unfold stopAllStreams.
    destruct (Monitoring.monitoringActive (monitor (release st)));
      [apply orphaned_stopMonitoring|]; by apply orphaned_release.
  - unfold switchTab, stopAllStreams.
    destruct (negb _ && negb _); [|exact H].
    destruct (Monitoring.monitoringActive (monitor (release st)));
      [apply orphaned_stopMonitoring|]; by apply orphaned_release.
  - by apply orphaned_monitor.
  - by apply orphaned_monitor.
Qed.

Lemma orphaned_run actions : forall id st,
  orphaned id st -> orphaned id (run actions st).
Proof.
  induction actions as [|a actions IH]; intros id st H; [exact H|].
  simpl. apply IH. by apply orphaned_step.
Qed.

End Streams.

(** X7.  Starting monitoring while the camera is on stores the new stream
    over the camera's without stopping it.  The camera's stream is then out
    of reach: no sequence of starts, stops, tab switches and ticks stops its
    tracks, because every function stops only the stream [currentStream]
    refers to. *)
Theorem camera_stream_is_never_released (st : Media.State) (seconds : Z)
    (actions : list Media.Action) :
  Monitoring.monitoringActive (Media.monitor st) = false ->
  let st' :=
    Media.run
      (Media.StartCamera true :: Media.StartMonitoring true seconds :: actions) st in
  Media.next_stream st ∈ Media.live st'
  /\ Media.currentStream st' <> Some (Media.next_stream st).
Proof.
  intros Hoff st'. subst st'.
  change (Media.run (Media.StartCamera true
                       :: Media.StartMonitoring true seconds :: actions) st)
    with (Media.run actions
            (Media.startMonitoring true seconds (Media.startCamera true st))).
  assert (Notions.orphaned (Media.next_stream st)
            (Media.startMonitoring true seconds (Media.startCamera true st))) as H.
  { unfold Media.startMonitoring, Media.startCamera. simpl. rewrite Hoff.
    unfold Notions.orphaned. simpl.
    repeat split; [set_solver | intros [= E]; lia | lia]. }
  destruct (orphaned_run actions _ _ H) as (Hlive & Hcur & _).
  by split.
Qed.

(** The camera is started, the user moves to the monitoring tab and starts
    monitoring, then stops everything. *)
Lemma camera_stream_is_never_released_witness :
  Monitoring.monitoringActive (Media.monitor (Media.initial (Some true))) = false
  /\ 0 ∈ Media.live
           (Media.run
              [ Media.StartCamera true; Media.StartMonitoring true 30;
                Media.SwitchTab "monitoring"; Media.StopMonitoring;
                Media.StopCamera; Media.SwitchTab "upload"; Media.StopAllStreams ]
              (Media.initial (Some true))).
Proof.
  split; [reflexivity|].
  apply (camera_stream_is_never_released (Media.initial (Some true)) 30
           [ Media.SwitchTab "monitoring"; Media.StopMonitoring;
             Media.StopCamera; Media.SwitchTab "upload"; Media.StopAllStreams ]).
  reflexivity.
Defined.

(** ** The upload pipeline *)

Section UploadPipeline.

Import ScriptWithApi Upload Notions.

(** One call of the instrumented [processImageWithAPI], as the loop of
    [processFiles] sees it. *)
Lemma call_outcome b e file m n :
  fst (fst (processImageWithAPI b e file m (random_source b) n))
  = Claims.detect b e m n file.
Proof. reflexivity. Qed.

Lemma call_cases b e file m n :
  (exists r, Claims.detect b e m n file = JS.Resolved r /\ ScriptWithApi.file r = file)
  \/ (Claims.detect b e m n file = JS.Pending
      /\ Claims.service_fails b file = true /\ decoded file = None).
Proof.
  destruct (Claims.service_fails b file) eqn:Hf.
  - rewrite detect_on_failure by exact Hf.
    destruct (decoded file) as [img|] eqn:Hd.
    + left. destruct (simulation_resolves b file img n Hd) as [url E].
      rewrite E. eauto.
    + right. unfold Claims.fallback, processImageSimulation. rewrite Hd.
      by repeat split.
  - left. destruct (detect_on_success b e m n file Hf) as (st & data & _ & _ & E).
    rewrite E. eauto.
Qed.

(** What a call does to the performance counters. *)
Lemma call_metrics b e file m n :
  let m' := snd (fst (processImageWithAPI b e file m (random_source b) n)) in
  apiCalls m' = S (apiCalls m)
  /\ apiErrors m' = apiErrors m
  /\ match Claims.detect b e m n file with
     | JS.Resolved _ =>
         totalImages m' = S (totalImages m)
         /\ processingTimes m' = (processingTimes m ++ [e])%list
     | _ => totalImages m' = totalImages m /\ processingTimes m' = processingTimes m
     end.
Proof.
  destruct (call_cases b e file m n) as [(r & E & _)|(E & _ & _)].
  - rewrite E. rewrite <- call_outcome in E.
    unfold processImageWithAPI in *. rewrite run_bind in *.
    destruct (originalProcessImageWithAPI b file (random_source b) n)
      as [[r'|err|] n']; simpl in E; try discriminate.
    by repeat split.
  - rewrite E. rewrite <- call_outcome in E.
    unfold processImageWithAPI in *. rewrite run_bind in *.
    destruct (originalProcessImageWithAPI b file (random_source b) n)
      as [[r'|err|] n']; simpl in E; try discriminate.
    by repeat split.
Qed.

Lemma loop_step b e file rest results st :
  process_loop b e (file :: rest) results st
  = let call :=
      processImageWithAPI b (e (apiCalls (metrics st))) file (metrics st)
        (random_source b) (calls st) in
    let st' :=
      {| page := page st; loading := loading st; metrics := snd (fst call);
         calls := snd call |} in
    match fst (fst call) with
    | JS.Resolved result => process_loop b e rest (results ++ [result]) st'
    | JS.Rejected error =>
        process_loop b e rest results
          (on_page (showAlert ("Error processing " ++ name file) "error") st')
    | JS.Pending => Hung (results, st')
    end.
Proof.
  simpl.
  by destruct (processImageWithAPI b (e (apiCalls (metrics st))) file (metrics st)
                 (random_source b) (calls st)) as [[outcome m] n].
Qed.


(** The loop up to a file that never settles. *)
Lemma loop_hangs b e pre f post : forall results st,
  Forall (settles b) pre ->
  Claims.service_fails b f = true -> decoded f = None ->
  exists rs st',
    process_loop b e (pre ++ f :: post) results st = Hung (rs, st')
    /\ page st' = page st /\ loading st' = loading st
    /\ apiErrors (metrics st') = apiErrors (metrics st)
    /\ apiCalls (metrics st') = apiCalls (metrics st) + S (length pre).
Proof.
  induction pre as [|g pre IH]; intros results st Hall Hfail Hdec.
  - simpl app. rewrite loop_step. cbv zeta. rewrite call_outcome.
    destruct (call_metrics b (e (apiCalls (metrics st))) f (metrics st) (calls st))
      as (Hc & He & _).
    destruct (call_cases b (e (apiCalls (metrics st))) f (metrics st) (calls st))
      as [(r & E & _)|(E & _ & _)].
    + rewrite detect_on_failure in E by exact Hfail.
      unfold Claims.fallback, processImageSimulation in E. rewrite Hdec in E.
      discriminate.
    + rewrite E. eexists _, _. split; [reflexivity|]. simpl.
      repeat split; try assumption. lia.
  - inversion Hall as [|? ? Hg Hrest]; subst.
    simpl app. rewrite loop_step. cbv zeta. rewrite call_outcome.
    destruct (call_metrics b (e (apiCalls (metrics st))) g (metrics st) (calls st))
      as (Hc & He & _).
    destruct (call_cases b (e (apiCalls (metrics st))) g (metrics st) (calls st))
      as [(r & E & _)|(_ & Hgf & Hgd)].
    + rewrite E.
      match goal with
      | |- context [process_loop b e _ _ ?st1] =>
          destruct (IH (results ++ [r])%list st1 Hrest Hfail Hdec)
            as (rs & st' & El & Hp & Hl & Herr & Hcalls)
      end.
      exists rs, st'. simpl in *. repeat split; try congruence. lia.
    + destruct Hg as [Hg|Hg]; congruence.
Qed.

(** Whatever happens in the loop, no call is ever recorded as an error. *)
Lemma loop_errors b e fs : forall results st,
  apiErrors (metrics (snd (reached (process_loop b e fs results st))))
  = apiErrors (metrics st).
Proof.
  induction fs as [|f fs IH]; intros results st; [reflexivity|].
  rewrite loop_step. cbv zeta. rewrite call_outcome.
  destruct (call_metrics b (e (apiCalls (metrics st))) f (metrics st) (calls st))
    as (_ & He & _).
  destruct (call_cases b (e (apiCalls (metrics st))) f (metrics st) (calls st))
    as [(r & E & _)|(E & _ & _)]; rewrite E.
  - rewrite IH. exact He.
  - exact He.
Qed.

Lemma filter_is_image_idem files :
  List.filter is_image (List.filter is_image files) = List.filter is_image files.
Proof.
  induction files as [|f files IH]; [reflexivity|].
  simpl. destruct (is_image f) eqn:E; [|exact IH].
  simpl. by rewrite E, IH.
Qed.



Lemma processFiles_valid b e files st :
  List.filter is_image files <> [] ->
  processFiles b e files st
  = match process_loop b e (List.filter is_image files) [] (showLoading true st) with
    | Hung (_, st) => Hung st
    | Finished (results, st) =>
        Finished
          (showLoading false
             match results with
             | [] => st
             | _ => on_page (displayUploadResults results) st
             end)
    end.
Proof.
  intros Hvalid. unfold processFiles.
  destruct files as [|f files]; [by destruct Hvalid|].
  by destruct (List.filter is_image (f :: files)).
Qed.

Lemma processFiles_errors b e files st :
  apiErrors (metrics (reached (processFiles b e files st))) = apiErrors (metrics st).
Proof.
  unfold processFiles. destruct files as [|f files]; [reflexivity|].
  destruct (List.filter is_image (f :: files)) as [|g valid]; [reflexivity|].
  pose proof (loop_errors b e (g :: valid) [] (showLoading true st)) as H.
  destruct (process_loop b e (g :: valid) [] (showLoading true st))
    as [[results st']|[results st']]; simpl in H |- *; [|exact H].
  by destruct results.
Qed.

End UploadPipeline.

(** X8.  As soon as one selected file has an image type, the files of other
    types play no part in [processFiles]: they are not sent to the service,
    not counted, and no message about them is shown.  The outcome is the one
    of selecting the image files alone. *)
Theorem other_files_are_skipped_silently (b : Browser) (elapsed : nat -> Q)
    (files : list File) (st : Upload.State) :
  List.filter Upload.is_image files <> [] ->
  Upload.processFiles b elapsed files st
  = Upload.processFiles b elapsed (List.filter Upload.is_image files) st.
Proof.
  intros Hvalid.
  rewrite (processFiles_valid b elapsed files st Hvalid).
  rewrite (processFiles_valid b elapsed (List.filter Upload.is_image files) st)
    by (by rewrite filter_is_image_idem).
  by rewrite filter_is_image_idem.
Qed.

(** A text file between two photographs. *)
Lemma other_files_are_skipped_silently_witness :
  let notes := {| name := "notes.txt"; type := "text/plain"; decoded := None |} in
  let st :=
    {| Upload.page := ScriptWithApi.initial (Some true); Upload.loading := false;
       Upload.metrics := Claims.no_metrics; Upload.calls := 0 |} in
  List.filter Upload.is_image [Claims.sample_file; notes; Claims.sample_file] <> []
  /\ Upload.processFiles Claims.offline (fun _ => 12%Q)
       [Claims.sample_file; notes; Claims.sample_file] st
     = Upload.processFiles Claims.offline (fun _ => 12%Q)
         [Claims.sample_file; Claims.sample_file] st.
Proof.
  intros notes st. split; [discriminate|].
  apply (other_files_are_skipped_silently Claims.offline (fun _ => 12%Q)
           [Claims.sample_file; notes; Claims.sample_file] st).
  discriminate.
Defined.



(** X10.  One image that does not decode, met while the service is failing,
    stalls the whole upload: [processFiles] never gets past it, the loading
    overlay stays up, and nothing reaches the page, not even the results of
    the files that were processed before it. *)
Theorem upload_stalls_on_undecodable_image (b : Browser) (elapsed : nat -> Q)
    (files pre post : list File) (f : File) (st : Upload.State) :
  List.filter Upload.is_image files = (pre ++ f :: post)%list ->
  Forall (Notions.settles b) pre ->
  Claims.service_fails b f = true -> decoded f = None ->
  exists st',
    Upload.processFiles b elapsed files st = Upload.Hung st'
    /\ Upload.loading st' = true
    /\ Upload.page st' = Upload.page st.
Proof.
  intros Hvalid Hpre Hfail Hdec.
  rewrite processFiles_valid by (rewrite Hvalid; by destruct pre).
  rewrite Hvalid.
  destruct (loop_hangs b elapsed pre f post [] (Upload.showLoading true st)
              Hpre Hfail Hdec) as (rs & st' & El & Hp & Hl & _).
  rewrite El. exists st'. by repeat split.
Qed.

(** A photograph followed by a damaged one, with the service down. *)
Lemma upload_stalls_on_undecodable_image_witness :
  let damaged := {| name := "damaged.jpg"; type := "image/jpeg"; decoded := None |} in
  let st :=
    {| Upload.page := ScriptWithApi.initial (Some true); Upload.loading := false;
       Upload.metrics := Claims.no_metrics; Upload.calls := 0 |} in
  List.filter Upload.is_image [Claims.sample_file; damaged; Claims.sample_file]
  = ([Claims.sample_file] ++ damaged :: [Claims.sample_file])%list
  /\ Forall (Notions.settles Claims.offline) [Claims.sample_file]
  /\ Claims.service_fails Claims.offline damaged = true
  /\ decoded damaged = None
  /\ exists st',
       Upload.processFiles Claims.offline (fun _ => 12%Q)
         [Claims.sample_file; damaged; Claims.sample_file] st
       = Upload.Hung st'
       /\ Upload.loading st' = true
       /\ Upload.page st' = Upload.page st.
Proof.
  intros damaged st.
  assert (Forall (Notions.settles Claims.offline) [Claims.sample_file]) as Hpre.
  { constructor; [right; discriminate | constructor]. }
  split; [reflexivity|]. split; [exact Hpre|].
  split; [reflexivity|]. split; [reflexivity|].
  exact (upload_stalls_on_undecodable_image Claims.offline (fun _ => 12%Q)
           [Claims.sample_file; damaged; Claims.sample_file]
           [Claims.sample_file] [Claims.sample_file] damaged st
           eq_refl Hpre eq_refl eq_refl).
Defined.

(** ** The performance report *)

Section PerformanceReport.

Import ScriptWithApi Performance.

Lemma toFixed2_eq (a c : Q) : (a == c)%Q -> toFixed2 a = toFixed2 c.
Proof.
  intros H. unfold toFixed2, toFixed2_nonneg.
  assert (Qle_bool 0 a = Qle_bool 0 c) as ->.
  { destruct (Qle_bool 0 a) eqn:Ea, (Qle_bool 0 c) eqn:Ec; try reflexivity.
    - apply Qle_bool_iff in Ea. rewrite H in Ea. apply Qle_bool_iff in Ea. congruence.
    - apply Qle_bool_iff in Ec. rewrite <- H in Ec. apply Qle_bool_iff in Ec.
      congruence. }
  assert (Qfloor (a * 100 + 0.5) = Qfloor (c * 100 + 0.5)) as ->
    by (apply Qfloor_comp; by rewrite H).
  assert (Qfloor (- a * 100 + 0.5) = Qfloor (- c * 100 + 0.5)) as ->
    by (apply Qfloor_comp; by rewrite H).
  reflexivity.
Qed.

Lemma success_rate_without_errors m :
  apiErrors m = 0 -> 0 < apiCalls m ->
  successRate (getPerformanceReport m) = "100.00%".
Proof.
  intros He Hc. unfold getPerformanceReport. cbn [successRate].
  assert ((0 <? apiCalls m)%nat = true) as -> by (by apply Nat.ltb_lt).
  rewrite He.
  rewrite (toFixed2_eq _ 100); [reflexivity|].
  unfold number. change (inject_Z (Z.of_nat 0)) with 0%Q.
  set (n := inject_Z (Z.of_nat (apiCalls m))).
  assert (1 <= n)%Q as Hn.
  { unfold n. change 1%Q with (inject_Z 1). rewrite <- Zle_Qle. lia. }
  assert (1 <= Double.round n)%Q as Hr.
  { change 1%Q with (Double.round 1). apply round_le, Hn. }
  assert (Double.sub n 0 = Double.round n) as ->.
  { unfold Double.sub. rewrite <- (round_idem n) at 2. apply round_comp.
    change (Double.round 0) with 0%Q. ring. }
  assert (Double.div (Double.round n) n = 1%Q) as ->.
  { unfold Double.div. rewrite round_idem.
    change 1%Q with (Double.round 1). apply round_comp. field. lra. }
  vm_compute. reflexivity.
Qed.

End PerformanceReport.

(** X11.  The instrumented [processImageWithAPI] never records an error:
    failures of the service are absorbed before the wrapper sees them.  So
    after any upload, finished or stalled, [apiErrors] is what it was, and
    on a page where it was zero the report gives a success rate of 100.00%
    as soon as one call has been made, also when every call failed. *)
Theorem success_rate_ignores_failures (b : Browser) (elapsed : nat -> Q)
    (files : list File) (st : Upload.State) :
  ScriptWithApi.apiErrors (Upload.metrics st) = 0 ->
  let m := Upload.metrics (Notions.reached (Upload.processFiles b elapsed files st)) in
  ScriptWithApi.apiErrors m = 0
  /\ (0 < ScriptWithApi.apiCalls m ->
      Performance.successRate (Performance.getPerformanceReport m) = "100.00%").
Proof.
  intros Hzero m.
  assert (ScriptWithApi.apiErrors m = 0) as He.
  { subst m. rewrite processFiles_errors. exact Hzero. }
  split; [exact He|]. intros Hc. by apply success_rate_without_errors.
Qed.

(** Two uploads with the service down. *)
Lemma success_rate_ignores_failures_witness :
  let st :=
    {| Upload.page := ScriptWithApi.initial (Some true); Upload.loading := false;
       Upload.metrics := Claims.no_metrics; Upload.calls := 0 |} in
  let m :=
    Upload.metrics
      (Notions.reached
         (Upload.processFiles Claims.offline (fun _ => 12%Q)
            [Claims.sample_file; Claims.sample_file] st)) in
  ScriptWithApi.apiErrors (Upload.metrics st) = 0
  /\ 0 < ScriptWithApi.apiCalls m
  /\ Performance.successRate (Performance.getPerformanceReport m) = "100.00%".
Proof.
  intros st m.
  assert (0 < ScriptWithApi.apiCalls m) as Hc by (vm_compute; lia).
  split; [reflexivity|]. split; [exact Hc|].
  apply (success_rate_ignores_failures Claims.offline (fun _ => 12%Q)
           [Claims.sample_file; Claims.sample_file] st eq_refl).
  exact Hc.
Defined.

(** ** Fabricated boxes and their crops *)

Section SimulatedCrops.

Import Notions.

Lemma within_inside lo hi tol img d :
  (0.5 + hi * (1 + Claims.slack) <= 1 + tol)%Q -> (0 <= hi)%Q ->
  Claims.within lo hi img d -> inside tol img (bbox d).
Proof.
  intros Hhi Hhi0 (_ & _ & _ & Hx0 & Hx1 & _ & Hy0 & Hy1 & _ & _ & Hw & _ & Hh).
  pose proof (inject_nat_nonneg (Image.width img)) as HW.
  pose proof (inject_nat_nonneg (Image.height img)) as HH.
  unfold inside. revert Hx1 Hy1 Hw Hh HW HH.
  generalize (inject_Z (Z.of_nat (Image.width img)))
    (inject_Z (Z.of_nat (Image.height img))).
  intros W H Hx1 Hy1 Hw Hh HW HH.
  assert (hi * W * (1 + Claims.slack) == W * (hi * (1 + Claims.slack)))%Q as Ew by ring.
  assert (hi * H * (1 + Claims.slack) == H * (hi * (1 + Claims.slack)))%Q as Eh by ring.
  rewrite Ew in Hw. rewrite Eh in Hh.
  revert Hhi Hw Hh. generalize (hi * (1 + Claims.slack))%Q. intros c Hc Hw Hh.
  repeat split; try assumption; nra.
Qed.

(** The integer part of a size that exceeds half an image side by less
    than the rounding error does not exceed that half. *)
Lemma floor_at_most_half (n : nat) (v : Q) :
  (Z.of_nat n < 2 ^ 32)%Z ->
  (v <= 0.5 * inject_Z (Z.of_nat n) * (1 + Claims.slack))%Q ->
  (inject_Z (Qfloor v) <= 0.5 * inject_Z (Z.of_nat n))%Q.
Proof.
  intros Hn Hv. pose proof (Qfloor_le v) as Hf.
  assert (2 * Qfloor v <= Z.of_nat n)%Z as Hz.
  { apply Z.lt_succ_r. rewrite Zlt_Qlt. unfold Z.succ.
    rewrite inject_Z_plus, inject_Z_mult.
    change (inject_Z 2) with 2%Q. change (inject_Z 1) with 1%Q.
    assert (inject_Z (Z.of_nat n) < 4294967296)%Q as Hn'.
    { change 4294967296%Q with (inject_Z (2 ^ 32)). rewrite <- Zlt_Qlt. exact Hn. }
    assert (Claims.slack == 1 # 2251799813685248)%Q as Es by reflexivity.
    rewrite Es in Hv. lra. }
  rewrite Zle_Qle, inject_Z_mult in Hz. change (inject_Z 2) with 2%Q in Hz. lra.
Qed.

(** A box that starts in the upper-left half of a non-empty image and is
    about half the image at most gives a crop that is painted whole. *)
Lemma half_box_painted_whole img d :
  Claims.sized img -> 0 < Image.width img -> 0 < Image.height img ->
  Claims.within 0.2 0.5 img d ->
  Canvas.width (Script.crop_canvas img d) = inject_Z (Qfloor (width (bbox d)))
  /\ Canvas.height (Script.crop_canvas img d) = inject_Z (Qfloor (height (bbox d)))
  /\ painted_whole (Script.crop_canvas img d).
Proof.
  intros [SW SH] PW PH
    (_ & _ & _ & Hx0 & Hx1 & _ & Hy0 & Hy1 & _ & Hwl & Hwh & Hhl & Hhh).
  set (W := inject_Z (Z.of_nat (Image.width img))) in *.
  set (H := inject_Z (Z.of_nat (Image.height img))) in *.
  assert (1 <= W)%Q as HW.
  { unfold W. change 1%Q with (inject_Z 1). rewrite <- Zle_Qle. lia. }
  assert (1 <= H)%Q as HH.
  { unfold H. change 1%Q with (inject_Z 1). rewrite <- Zle_Qle. lia. }
  assert (W <= 4294967295)%Q as HW'.
  { unfold W. change 4294967295%Q with (inject_Z (2 ^ 32 - 1)). rewrite <- Zle_Qle. lia. }
  assert (H <= 4294967295)%Q as HH'.
  { unfold H. change 4294967295%Q with (inject_Z (2 ^ 32 - 1)). rewrite <- Zle_Qle. lia. }
  pose proof (floor_at_most_half _ _ SW Hwh) as Fw.
  pose proof (floor_at_most_half _ _ SH Hhh) as Fh.
  fold W in Fw. fold H in Fh.
  assert (Claims.slack == 1 # 2251799813685248)%Q as Es by reflexivity.
  rewrite Es in Hwl, Hwh, Hhl, Hhh.
  set (bx := x (bbox d)) in *. set (by_ := y (bbox d)) in *.
  set (bw := width (bbox d)) in *. set (bh := height (bbox d)) in *.
  assert (0 < bw)%Q as Pw by lra. assert (0 < bh)%Q as Ph by lra.
  destruct (dimension_floor 300 bw) as (Dw & Dw1 & _); [lra | lra|].
  destruct (dimension_floor 150 bh) as (Dh & Dh1 & _); [lra | lra|].
  unfold Script.crop_canvas. cbn [Canvas.width Canvas.height Canvas.ctx].
  fold bx by_ bw bh.
  split; [exact Dw|]. split; [exact Dh|].
  unfold painted_whole. cbn [Canvas.width Canvas.height Canvas.ctx].
  eexists _, _. split; [reflexivity|].
  unfold Canvas.image_pixels, Canvas.clip, Canvas.has_area.
  cbn [Canvas.rect_width Canvas.rect_height Canvas.left Canvas.top].
  fold W H.
  assert (Qmax 0 bx == bx)%Q as Ex by (apply Q.max_r; exact Hx0).
  assert (Qmax 0 by_ == by_)%Q as Ey by (apply Q.max_r; exact Hy0).
  assert (inject_Z (Qfloor bw) <= Qmin W (bx + bw) - bx)%Q as Mw.
  { destruct (Q.min_spec W (bx + bw)) as [[_ ->]|[_ ->]]; lra. }
  assert (inject_Z (Qfloor bh) <= Qmin H (by_ + bh) - by_)%Q as Mh.
  { destruct (Q.min_spec H (by_ + bh)) as [[_ ->]|[_ ->]]; lra. }
  assert (0 < Qmin W (bx + bw) - bx)%Q as Mw0.
  { destruct (Q.min_spec W (bx + bw)) as [[_ ->]|[_ ->]]; lra. }
  assert (0 < Qmin H (by_ + bh) - by_)%Q as Mh0.
  { destruct (Q.min_spec H (by_ + bh)) as [[_ ->]|[_ ->]]; lra. }
  assert (Qmax 0 (Qmin W (bx + bw) - Qmax 0 bx) == Qmin W (bx + bw) - bx)%Q as Ew.
  { rewrite Ex. apply Q.max_r. lra. }
  assert (Qmax 0 (Qmin H (by_ + bh) - Qmax 0 by_) == Qmin H (by_ + bh) - by_)%Q as Eh.
  { rewrite Ey. apply Q.max_r. lra. }
  assert (forall q, (0 < q)%Q -> Qle_bool q 0 = false) as Hpos.
  { intros q Hq. destruct (Qle_bool q 0) eqn:E; [|reflexivity].
    apply Qle_bool_iff in E. lra. }
  rewrite (Hpos (Qmax 0 (Qmin W (bx + bw) - Qmax 0 bx))) by (rewrite Ew; exact Mw0).
  rewrite (Hpos (Qmax 0 (Qmin H (by_ + bh) - Qmax 0 by_))) by (rewrite Eh; exact Mh0).
  simpl andb. cbv iota. split; [reflexivity|].
  cbn [Canvas.rect_width Canvas.rect_height Canvas.left Canvas.top].
  assert (~ (bw == 0)%Q) by lra. assert (~ (bh == 0)%Q) by lra.
  rewrite Dw, Dh.
  split; [rewrite Ex; field; assumption|].
  split; [rewrite Ey; field; assumption|].
  split.
  - rewrite Qdiv_mult_l by assumption. rewrite Ew. exact Mw.
  - rewrite Qdiv_mult_l by assumption. rewrite Eh. exact Mh.
Qed.

End SimulatedCrops.

(** X12.  With [Math.random()] delivering doubles in [0, 1) and image
    sides below 2^32, the boxes fabricated by the fallback detector of
    script_with_api.js lie inside the image, and those fabricated by
    script.js do so up to a relative excess of 2^-51 at the far edges,
    which the roundings of the size can cause.  For an image of positive
    size, every face [createCroppedFaces] makes of script.js's own
    detections, in order, is the picture of a canvas whose sides are the
    integer parts of the box's, and which is painted whole: the canvas
    size being truncated, the clipping never shows. *)
Theorem fabricated_boxes_stay_inside (b : Browser) (src : Random.Source)
    (img : Image.t) (n : nat) :
  Random.in_unit_interval src ->
  Claims.sized img ->
  let D := Random.run (Script.simulateYOLODetection img) src n in
  Forall (fun d => Notions.inside 0 img (bbox d))
    (Random.run (ScriptWithApi.simulateYOLODetection img) src n)
  /\ Forall (fun d => Notions.inside Claims.slack img (bbox d)) D
  /\ (0 < Image.width img -> 0 < Image.height img ->
      Forall2
        (fun d face =>
           exists canvas,
             Script.src face = toDataURL b canvas
             /\ Canvas.width canvas = inject_Z (Qfloor (width (bbox d)))
             /\ Canvas.height canvas = inject_Z (Qfloor (height (bbox d)))
             /\ Notions.painted_whole canvas)
        D (Script.createCroppedFaces b img D)).
Proof.
  intros Hsrc Hsized D.
  destruct (api_simulate_all src Hsrc img (Claims.within 0.1 0.4 img) n) as [_ Hapi].
  { intros k. apply (api_simulate_one src Hsrc img k Hsized). }
  destruct (script_simulate_all src Hsrc img (Claims.within 0.2 0.5 img) n)
    as [_ Hscript].
  { intros k. apply (script_simulate_one src Hsrc img k Hsized). }
  fold D in Hscript.
  split; [|split].
  - eapply Forall_impl; [exact Hapi|].
    intros d Hd. apply (within_inside 0.1 0.4); [vm_compute; discriminate | lra | exact Hd].
  - eapply Forall_impl; [exact Hscript|].
    intros d Hd. apply (within_inside 0.2 0.5); [vm_compute; discriminate | lra | exact Hd].
  - intros HW HH. apply Forall2_same_length_lookup. split.
    + symmetry. apply (cropped_faces_length b img D 0 []).
    + intros i d face Hd Hface.
      pose proof (cropped_faces_lookup b img D 0 [] i d Hd) as Hi.
      simpl in Hi. unfold Script.createCroppedFaces in Hface.
      rewrite Hi in Hface. injection Hface as <-.
      assert (Claims.within 0.2 0.5 img d) as Hwithin.
      { rewrite Forall_forall in Hscript. apply Hscript.
        by apply list_elem_of_lookup_2 in Hd. }
      destruct (half_box_painted_whole img d Hsized HW HH Hwithin) as (Ew & Eh & Hp).
      exists (Script.crop_canvas img d).
      split; [reflexivity|]. split; [exact Ew|]. split; [exact Eh | exact Hp].
Qed.

(** A source that always draws the double 0.9, on a 100 x 100 image: the
    boxes are 47 x 47 at (45, 45). *)
Lemma fabricated_boxes_stay_inside_witness :
  let src : Random.Source := fun _ => Double.round 0.9 in
  let D := Random.run (Script.simulateYOLODetection Claims.square_image) src 0 in
  Random.in_unit_interval src
  /\ Claims.sized Claims.square_image
  /\ 0 < Image.width Claims.square_image
  /\ 0 < Image.height Claims.square_image
  /\ Forall (fun d => Notions.inside Claims.slack Claims.square_image (bbox d)) D
  /\ Forall2
       (fun d face =>
          exists canvas,
            Script.src face = toDataURL Claims.offline canvas
            /\ Canvas.width canvas = inject_Z (Qfloor (width (bbox d)))
            /\ Canvas.height canvas = inject_Z (Qfloor (height (bbox d)))
            /\ Notions.painted_whole canvas)
       D (Script.createCroppedFaces Claims.offline Claims.square_image D).
Proof.
  intros src D.
  assert (Random.in_unit_interval src) as Hsrc.
  { intros k. split; [vm_compute; reflexivity|].
    split; [vm_compute; discriminate | vm_compute; reflexivity]. }
  assert (Claims.sized Claims.square_image) as Hsized by (split; reflexivity).
  split; [exact Hsrc|]. split; [exact Hsized|].
  split; [simpl; lia|]. split; [simpl; lia|].
  destruct (fabricated_boxes_stay_inside Claims.offline src Claims.square_image 0
              Hsrc Hsized) as (_ & Hin & Hfaces).
  split; [exact Hin|]. apply Hfaces; simpl; lia.
Defined.

(** ** Result cards and batches *)

Section Cards.

Import ScriptWithApi Upload.

(** The switch of the result card is the switch of [calculateStats]. *)
Lemma card_recount D :
  let counts :=
    fold_left Upload.count_detection D
      {| withMask := 0; withoutMask := 0; incorrectMask := 0 |} in
  withMask counts = Claims.count_class "with_mask" D
  /\ withoutMask counts = Claims.count_class "without_mask" D
  /\ incorrectMask counts = Claims.count_class "mask_weared_incorrect" D.
Proof.
  exact (script_fold_count_detection D
           {| withMask := 0; withoutMask := 0; incorrectMask := 0 |}).
Qed.

Lemma add_result_fields acc r :
  add_result acc r
  = Claims.add_stats acc
      (add_result {| withMask := 0; withoutMask := 0; incorrectMask := 0 |} r).
Proof.
  unfold add_result, Claims.add_stats. destruct (stats r); simpl.
  - reflexivity.
  - destruct acc. simpl. f_equal; lia.
Qed.

Lemma add_stats_assoc a b c :
  Claims.add_stats (Claims.add_stats a b) c
  = Claims.add_stats a (Claims.add_stats b c).
Proof. unfold Claims.add_stats. simpl. f_equal; lia. Qed.

Lemma add_stats_comm a b : Claims.add_stats a b = Claims.add_stats b a.
Proof. unfold Claims.add_stats. f_equal; lia. Qed.

Lemma fold_add_result rs : forall acc,
  fold_left add_result rs acc = Claims.add_stats acc (batch_stats rs).
Proof.
  unfold batch_stats.
  induction rs as [|r rs IH]; intros acc; simpl.
  - destruct acc. unfold Claims.add_stats. simpl. f_equal; lia.
  - rewrite IH, (IH (add_result _ r)), (add_result_fields acc r).
    apply add_stats_assoc.
Qed.

Lemma batch_stats_app rs1 rs2 :
  batch_stats (rs1 ++ rs2)
  = Claims.add_stats (batch_stats rs1) (batch_stats rs2).
Proof.
  unfold batch_stats at 1. rewrite fold_left_app.
  fold (batch_stats rs1). apply fold_add_result.
Qed.

Lemma batch_stats_cons r rs :
  batch_stats (r :: rs) = Claims.add_stats (batch_stats [r]) (batch_stats rs).
Proof. apply (batch_stats_app [r] rs). Qed.

Lemma batch_stats_perm rs rs' :
  Permutation rs rs' -> batch_stats rs = batch_stats rs'.
Proof.
  induction 1 as [|r rs rs' _ IH|r1 r2 rs|rs1 rs2 rs3 _ IH1 _ IH2].
  - reflexivity.
  - by rewrite (batch_stats_cons r rs), (batch_stats_cons r rs'), IH.
  - rewrite (batch_stats_cons r2 (r1 :: rs)), (batch_stats_cons r1 rs),
      (batch_stats_cons r1 (r2 :: rs)), (batch_stats_cons r2 rs).
    rewrite <- !add_stats_assoc. f_equal. apply add_stats_comm.
  - congruence.
Qed.

End Cards.

(** X13.  The badges on the card of a fallback result agree with a recount
    of its detections: the three numbers [createImageResultElement] takes
    from [stats] are those its own switch would count, and together with
    the detections of unknown class they add up to [totalDetections]. *)
Theorem fallback_card_matches_detections (b : Browser) (calls : nat)
    (file : File) (r : ScriptWithApi.DetectionResult) :
  Claims.fallback b calls file = JS.Resolved r ->
  exists D,
    ScriptWithApi.detections r = Some D
    /\ ScriptWithApi.totalDetections r = Some (length D)
    /\ Upload.card_counts r
       = fold_left Upload.count_detection D
           {| withMask := 0; withoutMask := 0; incorrectMask := 0 |}
    /\ withMask (Upload.card_counts r) + withoutMask (Upload.card_counts r)
       + incorrectMask (Upload.card_counts r) + Claims.unknownCount D
       = length D.
Proof.
  intros E.
  destruct (decoded file) as [img|] eqn:Hd.
  - destruct (simulation_resolves b file img calls Hd) as [url E'].
    rewrite E' in E. injection E as <-.
    eexists. split; [reflexivity|]. split; [reflexivity|].
    unfold Upload.card_counts. cbn [ScriptWithApi.stats ScriptWithApi.detections].
    rewrite !or_zero_id.
    match goal with
    | |- context [ScriptWithApi.calculateStatsFromDetections ?D] =>
        destruct (fold_count_detection D
                    {| with_mask := 0; without_mask := 0;
                       mask_weared_incorrect := 0 |}) as (H1 & H2 & H3);
        destruct (card_recount D) as (C1 & C2 & C3);
        pose proof (partition_by_class D) as HP
    end.
    unfold ScriptWithApi.calculateStatsFromDetections.
    simpl in H1, H2, H3, C1, C2, C3. split.
    + rewrite H1, H2, H3.
      match goal with
      | |- _ = ?c => destruct c as [w wo i] eqn:Ec
      end.
      simpl in C1, C2, C3. by rewrite C1, C2, C3.
    + cbn [withMask withoutMask incorrectMask]. rewrite H1, H2, H3. exact HP.
  - unfold Claims.fallback, ScriptWithApi.processImageSimulation in E.
    rewrite Hd in E. discriminate.
Qed.

(** The fallback result of the sample file. *)
Lemma fallback_card_matches_detections_witness :
  Claims.fallback Claims.offline 0 Claims.sample_file
  = JS.Resolved Claims.synthetic_result
  /\ exists D,
       ScriptWithApi.detections Claims.synthetic_result = Some D
       /\ ScriptWithApi.totalDetections Claims.synthetic_result = Some (length D).
Proof.
  assert (Claims.fallback Claims.offline 0 Claims.sample_file
          = JS.Resolved Claims.synthetic_result) as E
    by (vm_compute; reflexivity).
  split; [exact E|].
  destruct (fallback_card_matches_detections Claims.offline 0 Claims.sample_file
              Claims.synthetic_result E) as (D & H1 & H2 & _).
  exists D. by split.
Defined.

(** X14.  The session totals do not depend on how results are grouped into
    batches or on their order: showing two batches one after the other
    gives the totals of showing them as one, and a batch and any
    rearrangement of it have the same counts. *)
Theorem totals_ignore_batching (rs1 rs2 rs rs' : list ScriptWithApi.DetectionResult)
    (p : ScriptWithApi.Page) :
  ScriptWithApi.totalStats
    (ScriptWithApi.displayUploadResults rs2
       (ScriptWithApi.displayUploadResults rs1 p))
  = ScriptWithApi.totalStats (ScriptWithApi.displayUploadResults (rs1 ++ rs2) p)
  /\ (Permutation rs rs' ->
      ScriptWithApi.batch_stats rs = ScriptWithApi.batch_stats rs').
Proof.
  split; [|apply batch_stats_perm].
  destruct (upload_stats rs2 (ScriptWithApi.displayUploadResults rs1 p)) as [-> _].
  destruct (upload_stats rs1 p) as [-> _].
  destruct (upload_stats (rs1 ++ rs2) p) as [-> _].
  by rewrite batch_stats_app, add_stats_assoc.
Qed.

(** The sample result and one without statistics, in both orders. *)
Lemma totals_ignore_batching_witness :
  let bare :=
    {| ScriptWithApi.file := Claims.sample_file;
       ScriptWithApi.detections := None; ScriptWithApi.stats := None;
       ScriptWithApi.resultImage := None;
       ScriptWithApi.totalDetections := None |} in
  Permutation [Claims.sample_result; bare] [bare; Claims.sample_result]
  /\ ScriptWithApi.batch_stats [Claims.sample_result; bare]
     = ScriptWithApi.batch_stats [bare; Claims.sample_result].
Proof.
  intros bare.
  assert (Permutation [Claims.sample_result; bare] [bare; Claims.sample_result])
    as HP by apply perm_swap.
  split; [exact HP|].
  by apply (totals_ignore_batching [] [] _ _ (ScriptWithApi.initial None)).
Defined.

(** ** Annotating a whole result *)

Section Annotating.

Import Notions.

Lemma drawBoundingBox_painted b ctx d :
  class d ∉ JS.Object_prototype ->
  Canvas.painted (Annotator.drawBoundingBox b ctx d)
  = (Canvas.painted ctx ++ annotation b d)%list.
Proof.
  intros Hown. unfold Annotator.drawBoundingBox, annotation.
  rewrite color_lookup by exact Hown.
  unfold Canvas.fillText, Canvas.fillRect, Canvas.strokeRect, Canvas.paint,
    Canvas.set_fillStyle, Canvas.set_font, Canvas.set_lineWidth,
    Canvas.set_strokeStyle.
  cbn [Canvas.painted Canvas.strokeStyle Canvas.lineWidth Canvas.fillStyle
       Canvas.font Canvas.style].
  by rewrite <- !app_assoc.
Qed.

Lemma drawBoundingBoxes_painted b D : forall ctx,
  Forall (fun d => class d ∉ JS.Object_prototype) D ->
  Canvas.painted (fold_left (Annotator.drawBoundingBox b) D ctx)
  = (Canvas.painted ctx ++ concat (map (annotation b) D))%list.
Proof.
  induction D as [|d D IH]; intros ctx Hall; simpl.
  - by rewrite app_nil_r.
  - inversion Hall as [|? ? Hd Hrest]; subst.
    rewrite IH by exact Hrest.
    rewrite drawBoundingBox_painted by exact Hd.
    by rewrite <- app_assoc.
Qed.

End Annotating.

(** X15.  Annotating a list of detections (none of whose classes is a
    property name every object inherits) adds, for each detection in input
    order, its stroked box, its label chip and its label text, and nothing
    else; what was on the canvas before stays underneath, and the shapes of
    one detection do not depend on those drawn before it. *)
Theorem annotations_follow_input_order (b : Browser) (ctx : Canvas.Context)
    (D : list Detection) :
  Forall (fun d => class d ∉ JS.Object_prototype) D ->
  Canvas.painted (fold_left (Annotator.drawBoundingBox b) D ctx)
  = (Canvas.painted ctx ++ concat (map (Notions.annotation b) D))%list
  /\ length (Canvas.painted (fold_left (Annotator.drawBoundingBox b) D ctx))
     = length (Canvas.painted ctx) + 3 * length D.
Proof.
  intros Hall. rewrite drawBoundingBoxes_painted by exact Hall.
  split; [reflexivity|]. rewrite length_app. f_equal.
  clear Hall. induction D as [|d D IH]; [reflexivity|].
  cbn [map concat length]. rewrite length_app, IH. simpl. lia.
Qed.

(** The two sample detections on an empty canvas. *)
Lemma annotations_follow_input_order_witness :
  Forall (fun d => class d ∉ JS.Object_prototype) Claims.sample_detections
  /\ length
       (Canvas.painted
          (fold_left (Annotator.drawBoundingBox Claims.offline)
             Claims.sample_detections Canvas.fresh))
     = 6.
Proof.
  assert (Forall (fun d => class d ∉ JS.Object_prototype) Claims.sample_detections)
    as Hall.
  { unfold Claims.sample_detections.
    constructor; [|constructor; [|constructor]];
      simpl; intros H; apply list_elem_of_In in H; simpl in H;
      intuition discriminate. }
  split; [exact Hall|].
  apply (annotations_follow_input_order Claims.offline Canvas.fresh
           Claims.sample_detections Hall).
Defined.

(** ** Alerts that do not reach the user *)

(** X16.  On a page without the sound checkbox, a monitoring capture that
    shows unmasked persons is folded into the totals and counted, but the
    view throws while reading the checkbox: no warning is shown and no
    sound is played. *)
Theorem monitoring_warning_needs_the_checkbox (now : string)
    (result : ScriptWithApi.DetectionResult) (p : ScriptWithApi.Page) :
  ScriptWithApi.soundAlerts p = None ->
  0 < withoutMask (ScriptWithApi.batch_stats [result]) ->
  exists error p',
    ScriptWithApi.captureMonitoringPhoto_callback now result p
    = ScriptWithApi.Throw error p'
    /\ ScriptWithApi.alerts p' = ScriptWithApi.alerts p
    /\ ScriptWithApi.sounds p' = ScriptWithApi.sounds p
    /\ ScriptWithApi.captureCount p' = S (ScriptWithApi.captureCount p)
    /\ ScriptWithApi.totalStats p'
       = Claims.add_stats (ScriptWithApi.totalStats p)
           (ScriptWithApi.batch_stats [result]).
Proof.
  intros Hbox Hpos. apply Nat.ltb_lt in Hpos.
  unfold ScriptWithApi.captureMonitoringPhoto_callback,
    ScriptWithApi.displayMonitoringResults.
  rewrite Hpos. cbn [ScriptWithApi.updateTotalStats ScriptWithApi.soundAlerts].
  rewrite Hbox. eexists _, _. split; [reflexivity|]. by repeat split.
Qed.

(** The sample result on a page that has no checkbox. *)
Lemma monitoring_warning_needs_the_checkbox_witness :
  ScriptWithApi.soundAlerts (ScriptWithApi.initial None) = None
  /\ 0 < withoutMask (ScriptWithApi.batch_stats [Claims.sample_result])
  /\ exists error p',
       ScriptWithApi.captureMonitoringPhoto_callback "10:15:00"
         Claims.sample_result (ScriptWithApi.initial None)
       = ScriptWithApi.Throw error p'
       /\ ScriptWithApi.alerts p' = [].
Proof.
  assert (0 < withoutMask (ScriptWithApi.batch_stats [Claims.sample_result]))
    as Hpos by (vm_compute; lia).
  split; [reflexivity|]. split; [exact Hpos|].
  destruct (monitoring_warning_needs_the_checkbox "10:15:00" Claims.sample_result
              (ScriptWithApi.initial None) eq_refl Hpos)
    as (error & p' & E & Ha & _).
  exists error, p'. split; [exact E | exact Ha].
Defined.

(** X17.  After a camera capture the badge on screen is always the success
    message of [capturePhoto]: a warning about unmasked persons is raised
    just before it and replaced in the same callback.  The alert sound is
    played all the same, unless the checkbox is unchecked. *)
Theorem camera_warning_is_replaced (result : ScriptWithApi.DetectionResult)
    (p : ScriptWithApi.Page) :
  let p' := ScriptWithApi.capturePhoto_callback result p in
  let n := withoutMask (ScriptWithApi.batch_stats [result]) in
  last (ScriptWithApi.alerts p')
  = Some {| ScriptWithApi.message := "Photo captured and processed";
            ScriptWithApi.kind := "success" |}
  /\ (0 < n ->
      ScriptWithApi.alerts p'
      = (ScriptWithApi.alerts p
           ++ [ Claims.camera_warning n;
                {| ScriptWithApi.message := "Photo captured and processed";
                   ScriptWithApi.kind := "success" |} ])%list
      /\ ScriptWithApi.sounds p'
         = ScriptWithApi.sounds p
           + (if ScriptWithApi.not_unchecked (ScriptWithApi.soundAlerts p)
              then 1 else 0)).
Proof.
  intros p' n. subst p' n. unfold ScriptWithApi.capturePhoto_callback. split.
  - unfold ScriptWithApi.showAlert at 1. cbn [ScriptWithApi.alerts].
    apply last_snoc.
  - intros Hpos. apply Nat.ltb_lt in Hpos.
    unfold ScriptWithApi.displayCameraResults. rewrite Hpos.
    cbn [ScriptWithApi.updateTotalStats ScriptWithApi.soundAlerts].
    destruct (ScriptWithApi.not_unchecked (ScriptWithApi.soundAlerts p)); simpl.
    + split; [by rewrite <- app_assoc | lia].
    + split; [by rewrite <- app_assoc | lia].
Qed.

(** The sample result, captured with the camera. *)
Lemma camera_warning_is_replaced_witness :
  0 < withoutMask (ScriptWithApi.batch_stats [Claims.sample_result])
  /\ ScriptWithApi.alerts
       (ScriptWithApi.capturePhoto_callback Claims.sample_result
          (ScriptWithApi.initial (Some true)))
     = [ Claims.camera_warning 1;
         {| ScriptWithApi.message := "Photo captured and processed";
            ScriptWithApi.kind := "success" |} ].
Proof.
  assert (0 < withoutMask (ScriptWithApi.batch_stats [Claims.sample_result]))
    as Hpos by (vm_compute; lia).
  split; [exact Hpos|].
  destruct (camera_warning_is_replaced Claims.sample_result
              (ScriptWithApi.initial (Some true))) as [_ H].
  exact (proj1 (H Hpos)).
Defined.

(** ** Reading an export back *)

Section CsvExport.

Import Notions.

Lemma pretty_N_go_comma_free (n : N) : forall s,
  comma_free s -> comma_free (pretty_N_go n s).
Proof.
  induction (N.lt_wf_0 n) as [n _ IH]; intros s Hs.
  assert (n = 0 \/ 0 < n)%N as [->|Hpos] by lia.
  - by rewrite pretty_N_go_0.
  - rewrite pretty_N_go_step by exact Hpos.
    apply IH; [by apply N.div_lt|].
    split; [|exact Hs].
    unfold pretty_N_char. repeat case_match; discriminate.
Qed.

Lemma pretty_nat_comma_free (n : nat) : comma_free (pretty n).
Proof.
  unfold pretty, pretty_nat, pretty, pretty_N.
  case_decide; [by split|]. by apply pretty_N_go_comma_free.
Qed.

Lemma append_cancel (s t t' : string) : s ++ t = s ++ t' -> t = t'.
Proof. induction s as [|c s IH]; simpl; [done|]. intros [= H]. by apply IH. Qed.

(** A comma-free field is read off a row unambiguously. *)
Lemma field_unique (u u' v v' : string) :
  comma_free u -> comma_free u' ->
  u ++ "," ++ v = u' ++ "," ++ v' -> u = u' /\ v = v'.
Proof.
  change ("," ++ v) with (String ","%char v).
  change ("," ++ v') with (String ","%char v').
  revert u'. induction u as [|c u IH]; intros [|c' u'] Hu Hu'; simpl.
  - by intros [= ->].
  - intros [= <- _]. by destruct Hu' as [[] _].
  - intros [= -> _]. by destruct Hu as [[] _].
  - intros [= -> H]. destruct Hu as [_ Hu], Hu' as [_ Hu'].
    destruct (IH u' Hu Hu' H) as [-> ->]. by split.
Qed.

End CsvExport.

(** X18.  The CSV export determines the session: two exports taken at the
    same instant whose files have the same text come from pages with the
    same three totals and the same capture count.  (The interval and the
    checkbox are not part of the CSV and may differ.) *)
Theorem csv_export_determines_the_counters (now interval interval' : string)
    (checked checked' : bool) (p p' : ScriptWithApi.Page) :
  ScriptWithApi.soundAlerts p = Some checked ->
  ScriptWithApi.soundAlerts p' = Some checked' ->
  Notions.blob_text (Exporter.downloadResults (Some "csv") now (Some interval) p)
  = Notions.blob_text (Exporter.downloadResults (Some "csv") now (Some interval') p') ->
  ScriptWithApi.totalStats p = ScriptWithApi.totalStats p'
  /\ ScriptWithApi.captureCount p = ScriptWithApi.captureCount p'.
Proof.
  intros Hbox Hbox'. unfold Exporter.downloadResults.
  rewrite Hbox, Hbox'. cbn [default String.eqb Ascii.eqb Bool.eqb Notions.blob_text
    Exporter.timestamp Exporter.r_totalStats Exporter.r_captureCount].
  simpl Notions.blob_text. intros [= H].
  apply (append_cancel EmptyString), (append_cancel now), (append_cancel ",") in H.
  destruct (field_unique _ _ _ _ (pretty_nat_comma_free _) (pretty_nat_comma_free _) H)
    as [Hw H1].
  destruct (field_unique _ _ _ _ (pretty_nat_comma_free _) (pretty_nat_comma_free _) H1)
    as [Hwo H2].
  destruct (field_unique _ _ _ _ (pretty_nat_comma_free _) (pretty_nat_comma_free _) H2)
    as [Hi Hc].
  apply (inj pretty) in Hw, Hwo, Hi, Hc.
  split; [|exact Hc].
  destruct (ScriptWithApi.totalStats p), (ScriptWithApi.totalStats p').
  simpl in *. congruence.
Qed.

(** Two exports of a fresh page taken at the same instant, with different
    intervals selected and the checkbox in different positions. *)
Lemma csv_export_determines_the_counters_witness :
  ScriptWithApi.soundAlerts (ScriptWithApi.initial (Some true)) = Some true
  /\ ScriptWithApi.soundAlerts (ScriptWithApi.initial (Some false)) = Some false
  /\ Notions.blob_text
       (Exporter.downloadResults (Some "csv") "2024-05-01T10:00:00.000Z" (Some "30")
          (ScriptWithApi.initial (Some true)))
     = Notions.blob_text
         (Exporter.downloadResults (Some "csv") "2024-05-01T10:00:00.000Z"
            (Some "60") (ScriptWithApi.initial (Some false)))
  /\ ScriptWithApi.captureCount (ScriptWithApi.initial (Some true))
     = ScriptWithApi.captureCount (ScriptWithApi.initial (Some false)).
Proof.
  split; [reflexivity|]. split; [reflexivity|]. split; [reflexivity|].
  apply (csv_export_determines_the_counters "2024-05-01T10:00:00.000Z" "30" "60"
           true false (ScriptWithApi.initial (Some true))
           (ScriptWithApi.initial (Some false)));
    reflexivity.
Defined.

(** ** The picture a fallback result carries *)

Section FallbackPicture.

Import ScriptWithApi Notions.

Lemma known_class_not_inherited c :
  Claims.known_class c = true -> c ∉ JS.Object_prototype.
Proof.
  unfold Claims.known_class. intros H.
  apply orb_prop in H. destruct H as [H|H]; [apply orb_prop in H; destruct H as [H|H]|];
    apply String.eqb_eq in H; subst c;
    intros Hin; apply list_elem_of_In in Hin; simpl in Hin; intuition discriminate.
Qed.

Lemma simulation_canvas b file img calls :
  decoded file = Some img ->
  let D := Random.run (simulateYOLODetection img) (random_source b) calls in
  Claims.fallback b calls file
  = JS.Resolved
      {| file := file;
         detections := Some D;
         stats := Some (calculateStatsFromDetections D);
         resultImage :=
           Some (toDataURL b
                   {| Canvas.width := inject_Z (Z.of_nat (Image.width img));
                      Canvas.height := inject_Z (Z.of_nat (Image.height img));
                      Canvas.ctx :=
                        fold_left (Annotator.drawBoundingBox b) D
                          (Canvas.drawImage img 0%Q 0%Q Canvas.fresh) |});
         totalDetections := Some (length D) |}.
Proof.
  intros Himg D. unfold Claims.fallback, processImageSimulation, Random.run.
  rewrite Himg. rewrite run_bind. subst D. unfold Random.run.
  by destruct (simulateYOLODetection img (random_source b) calls).
Qed.

End FallbackPicture.

(** X19.  The picture of a fallback result is the data URL of a canvas of
    the image's own size, on which the image was drawn first and then, for
    each fabricated detection in order, its box, chip and label: nothing
    else, and nothing missing. *)
Theorem fallback_picture_shows_every_detection (b : Browser) (calls : nat)
    (file : File) (img : Image.t) :
  decoded file = Some img ->
  Random.in_unit_interval (random_source b) ->
  exists D canvas,
    Claims.fallback b calls file
    = JS.Resolved
        {| ScriptWithApi.file := file;
           ScriptWithApi.detections := Some D;
           ScriptWithApi.stats := Some (ScriptWithApi.calculateStatsFromDetections D);
           ScriptWithApi.resultImage := Some (toDataURL b canvas);
           ScriptWithApi.totalDetections := Some (length D) |}
    /\ Canvas.width canvas = inject_Z (Z.of_nat (Image.width img))
    /\ Canvas.height canvas = inject_Z (Z.of_nat (Image.height img))
    /\ Canvas.painted (Canvas.ctx canvas)
       = Canvas.DrawImage img 0 0 :: concat (map (Notions.annotation b) D).
Proof.
  intros Himg Hsrc.
  eexists _, _. split; [apply (simulation_canvas b file img calls Himg)|].
  split; [reflexivity|]. split; [reflexivity|].
  cbn [Canvas.ctx]. rewrite drawBoundingBoxes_painted; [reflexivity|].
  destruct (api_simulate_detector (random_source b) Hsrc img calls) as [_ HF].
  eapply Forall_impl; [exact HF|].
  intros d Hknown. by apply known_class_not_inherited.
Qed.

(** The sample file with the service unreachable. *)
Lemma fallback_picture_shows_every_detection_witness :
  decoded Claims.sample_file = Some {| Image.width := 640; Image.height := 480 |}
  /\ Random.in_unit_interval (random_source Claims.offline)
  /\ exists (D : list Detection) canvas,
       ScriptWithApi.resultImage Claims.synthetic_result
       = Some (toDataURL Claims.offline canvas)
       /\ length (Canvas.painted (Canvas.ctx canvas)) = 1 + 3 * length D.
Proof.
  assert (Random.in_unit_interval (random_source Claims.offline)) as Hsrc.
  { intros k. split; [vm_compute; reflexivity|]. split; [discriminate | reflexivity]. }
  split; [reflexivity|]. split; [exact Hsrc|].
  destruct (fallback_picture_shows_every_detection Claims.offline 0
              Claims.sample_file _ eq_refl Hsrc)
    as (D & canvas & E & _ & _ & Hp).
  exists D, canvas. split.
  - unfold Claims.synthetic_result. by rewrite E.
  - rewrite Hp. simpl. f_equal.
    clear. induction D as [|d D IH]; [reflexivity|].
    cbn [map concat]. rewrite length_app, IH. simpl. lia.
Defined.
